(** * lambda-nat-proxy: session orchestrator, shallow embedding

    The Go sources are embedded function by function.  Integers of a fixed
    width are [Z] with their truncation written out, byte streams are lists
    of [Z] bytes, strings are [string], the session heap of the connection
    manager is a [gmap] from pointers to session records. *)

From Stdlib Require Import ZArith List String Ascii Bool Lia DecimalString
  DecimalFacts.
From stdpp Require Import gmap strings list.

Import ListNotations.
Local Open Scope Z_scope.

(** ** encoding/binary and io: the parts of the Go library the code calls *)

Module Wire.

(** [byte(v)]: conversion of an unsigned integer to [uint8]. *)
Definition byte_of (v : Z) : Z := Z.land v 255.

Definition is_byte (b : Z) : Prop := 0 <= b < 256.

(** [binary.BigEndian.PutUint64(buf, v)], the eight bytes written. *)
Definition PutUint64 (v : Z) : list Z :=
  [ byte_of (Z.shiftr v 56); byte_of (Z.shiftr v 48);
    byte_of (Z.shiftr v 40); byte_of (Z.shiftr v 32);
    byte_of (Z.shiftr v 24); byte_of (Z.shiftr v 16);
    byte_of (Z.shiftr v 8);  byte_of v ].

(** [binary.BigEndian.Uint64(b)] on the first eight bytes of [b]; the Go
    function panics on a shorter slice, here [None]. *)
Definition Uint64 (b : list Z) : option Z :=
  match b with
  | b0 :: b1 :: b2 :: b3 :: b4 :: b5 :: b6 :: b7 :: _ =>
      Some (Z.lor b7 (Z.lor (Z.shiftl b6 8) (Z.lor (Z.shiftl b5 16)
           (Z.lor (Z.shiftl b4 24) (Z.lor (Z.shiftl b3 32)
           (Z.lor (Z.shiftl b2 40) (Z.lor (Z.shiftl b1 48)
                  (Z.shiftl b0 56))))))))
  | _ => None
  end.

(** [binary.BigEndian.PutUint32(buf, v)]. *)
Definition PutUint32 (v : Z) : list Z :=
  [ byte_of (Z.shiftr v 24); byte_of (Z.shiftr v 16);
    byte_of (Z.shiftr v 8);  byte_of v ].

(** [binary.BigEndian.Uint32(b)]. *)
Definition Uint32 (b : list Z) : option Z :=
  match b with
  | b0 :: b1 :: b2 :: b3 :: _ =>
      Some (Z.lor b3 (Z.lor (Z.shiftl b2 8)
           (Z.lor (Z.shiftl b1 16) (Z.shiftl b0 24))))
  | _ => None
  end.

(** [binary.BigEndian.Uint16(b)]. *)
Definition Uint16 (b : list Z) : option Z :=
  match b with
  | b0 :: b1 :: _ => Some (Z.lor b1 (Z.shiftl b0 8))
  | _ => None
  end.

(** Errors of the I/O layer and of the functions built on it.  [Wrapped]
    is [fmt.Errorf("<msg>: %w", err)]. *)
Inductive error : Type :=
| EOF
| ErrUnexpectedEOF
| ErrClosedPipe
| Errorf (msg : string)
| Wrapped (msg : string) (cause : error).

(** An [io.Reader] over a finite input: the bytes still to be delivered
    before end of file. *)
Definition Reader := list Z.

(** [io.ReadFull(r, buf)] with [len(buf) = n]: the [n] bytes read and the
    rest of the input, or [EOF] when nothing could be read and
    [ErrUnexpectedEOF] when the input ends early. *)
Definition ReadFull (r : Reader) (n : nat) : (list Z + error) * Reader :=
  if (n <=? List.length r)%nat then (inl (firstn n r), skipn n r)
  else match r with
       | [] => (inr EOF, [])
       | _ => (inr ErrUnexpectedEOF, [])
       end.

(** An [io.Writer]: the bytes accepted so far, and whether the writer has
    failed (a closed stream); a [bytes.Buffer] never fails. *)
Record Writer := mkWriter { written : list Z; broken : bool }.

Definition new_buffer : Writer := mkWriter [] false.

(** [w.Write(p)]. *)
Definition Write (w : Writer) (p : list Z) : Writer * option error :=
  if broken w then (w, Some ErrClosedPipe)
  else (mkWriter (written w ++ p) false, None).

End Wire.

(** ** pkg/shared: control messages on the control stream *)

Module Control.
Import Wire.

Definition OpPing : Z := 1.
Definition OpPong : Z := 2.
Definition OpShutdown : Z := 3.

(** [writeByte(w, b)]. *)
Definition writeByte (w : Writer) (b : Z) : Writer * option error :=
Write w [b].

(** [writeUint64(w, v)]. *)
Definition writeUint64 (w : Writer) (v : Z) : Writer * option error :=
Write w (PutUint64 v).

(** [readByte(r)]: the byte read ([buf[0]], zero when nothing was read), the
    error of [io.ReadFull], and the rest of the input. *)
Definition readByte (r : Reader) : Z * option error * Reader :=
match ReadFull r 1 with
| (inl buf, r') => (nth 0 buf 0, None, r')
| (inr e, r') => (0, Some e, r')
end.

(** [readUint64(r)]. *)
Definition readUint64 (r : Reader) : Z * option error * Reader :=
match ReadFull r 8 with
| (inl buf, r') =>
    match Uint64 buf with
    | Some v => (v, None, r')
    | None => (0, Some ErrUnexpectedEOF, r')
    end
| (inr e, r') => (0, Some e, r')
end.

(** [WritePing(w, nonce)]. *)
Definition WritePing (w : Writer) (nonce : Z) : Writer * option error :=
match writeByte w OpPing with
| (w1, Some e) => (w1, Some (Wrapped "failed to write ping opcode" e))
| (w1, None) =>
    match writeUint64 w1 nonce with
    | (w2, Some e) => (w2, Some (Wrapped "failed to write ping nonce" e))
    | (w2, None) => (w2, None)
    end
end.

(** [WritePong(w, nonce)]. *)
Definition WritePong (w : Writer) (nonce : Z) : Writer * option error :=
match writeByte w OpPong with
| (w1, Some e) => (w1, Some (Wrapped "failed to write pong opcode" e))
| (w1, None) =>
    match writeUint64 w1 nonce with
    | (w2, Some e) => (w2, Some (Wrapped "failed to write pong nonce" e))
    | (w2, None) => (w2, None)
    end
end.

(** [WriteShutdown(w)]. *)
Definition WriteShutdown (w : Writer) : Writer * option error :=
writeByte w OpShutdown.

(** The three results of [ReadControlMessage] and the rest of the input. *)
Record ctl_result := mkCtl
  { ctl_opcode : Z; ctl_nonce : Z; ctl_err : option error; ctl_rest : Reader }.

(** [ReadControlMessage(r)]. *)
Definition ReadControlMessage (r : Reader) : ctl_result :=
match readByte r with
| (_, Some e, r1) => mkCtl 0 0 (Some (Wrapped "failed to read opcode" e)) r1
| (opcode, None, r1) =>
    if (opcode =? OpPing) || (opcode =? OpPong) then
      match readUint64 r1 with
      | (_, Some e, r2) =>
          mkCtl opcode 0 (Some (Wrapped "failed to read nonce" e)) r2
      | (nonce, None, r2) => mkCtl opcode nonce None r2
      end
    else if opcode =? OpShutdown then mkCtl opcode 0 None r1
    else mkCtl opcode 0 (Some (Errorf "unknown opcode")) r1
end.

End Control.

(** ** pkg/shared: the per-stream target request *)

Module Socks5Target.
Import Wire.

Definition MaxTargetAddressLength : Z := 1024.

(** [string(buf)]: a Go string holds the bytes of the slice. *)
Definition string_of_bytes (buf : list Z) : string :=
string_of_list_ascii (map (fun b => ascii_of_N (Z.to_N b)) buf).

(** [[]byte(s)]. *)
Definition bytes_of_string (s : string) : list Z :=
map (fun c => Z.of_N (N_of_ascii c)) (list_ascii_of_string s).

(** [ReadSOCKS5TargetAddress(stream)]: the target string or the error, and
    the rest of the stream. *)
Definition ReadSOCKS5TargetAddress (stream : Reader) : (string + error) * Reader :=
match ReadFull stream 4 with
| (inr e, r1) => (inr (Wrapped "failed to read target length" e), r1)
| (inl lengthBuf, r1) =>
    match Uint32 lengthBuf with
    | None => (inr (Errorf "short length buffer"), r1)
    | Some targetLen =>
        if targetLen >? MaxTargetAddressLength then
          (inr (Errorf "target address too long"), r1)
        else
          match ReadFull r1 (Z.to_nat targetLen) with
          | (inr e, r2) => (inr (Wrapped "failed to read target address" e), r2)
          | (inl targetBuf, r2) =>
              let target := string_of_bytes targetBuf in
              if String.eqb target "" then (inr (Errorf "empty target address"), r2)
              else (inl target, r2)
          end
    end
end.

(** [WriteSOCKS5TargetAddress(stream, target)]; [uint32(len(targetBytes))]
    truncates the length to 32 bits. *)
Definition WriteSOCKS5TargetAddress (stream : Writer) (target : string)
  : Writer * option error :=
let targetBytes := bytes_of_string target in
let targetLen := Z.land (Z.of_nat (List.length targetBytes)) (Z.ones 32) in
match Write stream (PutUint32 targetLen) with
| (w1, Some e) => (w1, Some (Wrapped "failed to write target length" e))
| (w1, None) =>
    match Write w1 targetBytes with
    | (w2, Some e) => (w2, Some (Wrapped "failed to write target address" e))
    | (w2, None) => (w2, None)
    end
end.

End Socks5Target.

(** ** pkg/shared: session identifiers *)

Module SessionID.
Import Wire Socks5Target.

(** [hextable] of encoding/hex. *)
Definition hextable : list ascii := list_ascii_of_string "0123456789abcdef".

Definition hexdigit (n : Z) : ascii := nth (Z.to_nat n) hextable "0"%char.

(** [hex.EncodeToString(src)]: two characters per byte,
    [hextable[v>>4]] and [hextable[v&0x0f]]. *)
Fixpoint EncodeToString (src : list Z) : string :=
match src with
| [] => EmptyString
| v :: rest =>
    String (hexdigit (Z.shiftr v 4))
      (String (hexdigit (Z.land v 15)) (EncodeToString rest))
end.

(** [fmt.Sprintf("%d", n)]. *)
Definition Sprintf_d (n : Z) : string := DecimalString.NilZero.string_of_int (Z.to_int n).

(** The result of [rand.Read(bytes)] on a buffer of eight bytes: the buffer
    filled, or an error. *)
Inductive rand_result : Type :=
| RandOk (bytes : list Z)
| RandErr.

(** [GenerateTimestampID()], [now] being [time.Now().UnixNano()]. *)
Definition GenerateTimestampID (now : Z) : string :=
EncodeToString (bytes_of_string (Sprintf_d now)).

(** [GenerateSessionID()], given what [rand.Read] did and the clock. *)
Definition GenerateSessionID (rnd : rand_result) (now : Z) : string :=
match rnd with
| RandErr => GenerateTimestampID now
| RandOk bytes => EncodeToString bytes
end.

Definition is_hex (c : ascii) : bool :=
existsb (Ascii.eqb c) hextable.

End SessionID.

(** ** internal/manager: sessions, launch state, the connection manager *)

Module Manager.

(** *** time

    A [time.Time] is its number of nanoseconds since the Unix epoch, a
    [time.Duration] a signed 64-bit number of nanoseconds. *)

Definition Millisecond : Z := 1000000.
Definition Second : Z := 1000 * Millisecond.

Definition minDuration : Z := - 2 ^ 63.
Definition maxDuration : Z := 2 ^ 63 - 1.

(** Arithmetic on [int64] wraps around. *)
Definition wrap64 (z : Z) : Z := (z + 2 ^ 63) mod 2 ^ 64 - 2 ^ 63.

(** The zero [time.Time{}]: January 1 of year 1, 00:00 UTC. *)
Definition zeroTime : Z := - 62135596800 * Second.

(** [t.Sub(u)]: the difference, saturated to the range of a Duration. *)
Definition Sub (t u : Z) : Z :=
if t - u >? maxDuration then maxDuration
else if t - u <? minDuration then minDuration
else t - u.

(** [time.Since(t)] when the clock reads [now]. *)
Definition Since (now t : Z) : Z := Sub now t.

(** *** Session *)

Definition RolePrimary : string := "primary".
Definition RoleSecondary : string := "secondary".
Definition RoleDraining : string := "draining".

(** The fields of [Session] the manager reads or writes.  [conn_done] says
    that [QuicConn.Context().Done()] is closed, [cancelled] that [Cancel]
    has been called. *)
Record Session := mkSession
  { ID : string;
    StartedAt : Z;
    Role : string;
    TTL : Z;
    healthy : bool;
    missedPings : Z;
    conn_done : bool;
    cancelled : bool }.

Definition IsHealthy (s : Session) : bool := healthy s.

Definition SetHealthy (s : Session) (h : bool) : Session :=
mkSession (ID s) (StartedAt s) (Role s) (TTL s) h (missedPings s)
          (conn_done s) (cancelled s).

(** [IncrementMissedPings]: the session and the new count. *)
Definition IncrementMissedPings (s : Session) : Session * Z :=
let n := wrap64 (missedPings s + 1) in
(mkSession (ID s) (StartedAt s) (Role s) (TTL s) (healthy s) n
           (conn_done s) (cancelled s), n).

Definition ResetMissedPings (s : Session) : Session :=
mkSession (ID s) (StartedAt s) (Role s) (TTL s) (healthy s) 0
          (conn_done s) (cancelled s).

Definition RemainingTTL (s : Session) (now : Z) : Z :=
let elapsed := Since now (StartedAt s) in
let remaining := wrap64 (TTL s - elapsed) in
if remaining <? 0 then 0 else remaining.

Definition IsPrimary (s : Session) : bool := String.eqb (Role s) RolePrimary.
Definition IsSecondary (s : Session) : bool := String.eqb (Role s) RoleSecondary.
Definition IsDraining (s : Session) : bool := String.eqb (Role s) RoleDraining.

(** [s.Role = r]. *)
Definition SetRole (s : Session) (r : string) : Session :=
mkSession (ID s) (StartedAt s) r (TTL s) (healthy s) (missedPings s)
          (conn_done s) (cancelled s).

(** [s.Cancel()]. *)
Definition Cancel (s : Session) : Session :=
mkSession (ID s) (StartedAt s) (Role s) (TTL s) (healthy s) (missedPings s)
          (conn_done s) true.

(** What [cleanupSession] does to the session: cancel it, close the control
    stream, close the transport. *)
Definition cleanup (s : Session) : Session :=
mkSession (ID s) (StartedAt s) (Role s) (TTL s) (healthy s) (missedPings s)
          true true.

(** The transport closes. *)
Definition closeConn (s : Session) : Session :=
mkSession (ID s) (StartedAt s) (Role s) (TTL s) (healthy s) (missedPings s)
          true (cancelled s).

(** *** LaunchState *)

Record LaunchState := mkLaunchState
  { launchingPrimary : bool;
    launchingSecondary : bool;
    lastLaunchAttempt : Z;
    failedAttempts : Z }.

(** [&LaunchState{}]. *)
Definition newLaunchState : LaunchState := mkLaunchState false false zeroTime 0.

(** [canLaunchPrimary()] when the clock reads [now]: the answer and the
    launch state left behind. *)
Definition canLaunchPrimary (ls : LaunchState) (now : Z) : bool * LaunchState :=
if launchingPrimary ls then (false, ls)
else
  let cooldown :=
    if failedAttempts ls >? 2
    then wrap64 (wrap64 (failedAttempts ls * 10) * Second)
    else 5 * Second in
  if Since now (lastLaunchAttempt ls) <? cooldown then (false, ls)
  else (true, mkLaunchState true (launchingSecondary ls) now (failedAttempts ls)).

(** [canLaunchSecondary()]. *)
Definition canLaunchSecondary (ls : LaunchState) (now : Z) : bool * LaunchState :=
if launchingSecondary ls then (false, ls)
else
  let cooldown :=
    if failedAttempts ls >? 2
    then wrap64 (wrap64 (failedAttempts ls * 5) * Second)
    else 2 * Second in
  if Since now (lastLaunchAttempt ls) <? cooldown then (false, ls)
  else (true, mkLaunchState (launchingPrimary ls) true now (failedAttempts ls)).

(** [clearLaunchState(isPrimary, success)]. *)
Definition clearLaunchState (ls : LaunchState) (isPrimary success : bool) : LaunchState :=
let lp := if isPrimary then false else launchingPrimary ls in
let lsec := if isPrimary then launchingSecondary ls else false in
let fa := if success then 0 else wrap64 (failedAttempts ls + 1) in
mkLaunchState lp lsec (lastLaunchAttempt ls) fa.

(** *** ConnManager *)

Record RotationConfig := mkRotation
  { OverlapWindow : Z; DrainTimeout : Z; SessionTTL : Z }.

(** A [*Session]. *)
Definition ptr := nat.

(** The manager: its configuration, the session objects it can reach
    ([heap]), the slice [sessions] of pointers, the launch state, and
    whether [shutdownCh] is closed. *)
Record ConnManager := mkConnManager
  { cfg : RotationConfig;
    heap : gmap ptr Session;
    sessions : list ptr;
    launchState : LaunchState;
    shutdownCh : bool }.

(** [for _, session := range l { if cond(session) { selected = session; break } }]:
    the first session of the slice that satisfies [cond].  Every pointer of
    the slice is allocated; an unallocated one is passed over. *)
Fixpoint first_session (h : gmap ptr Session) (cond : Session -> bool)
         (l : list ptr) : option ptr :=
match l with
| [] => None
| p :: rest =>
    match h !! p with
    | Some s => if cond s then Some p else first_session h cond rest
    | None => first_session h cond rest
    end
end.

(** [GetCurrent()]. *)
Definition GetCurrent (cm : ConnManager) : option ptr :=
let selectedSession :=
  first_session (heap cm) (fun s => IsPrimary s && IsHealthy s) (sessions cm) in
let selectedSession :=
  match selectedSession with
  | Some p => Some p
  | None =>
      first_session (heap cm) (fun s => IsSecondary s && IsHealthy s) (sessions cm)
  end in
match selectedSession with
| Some p => Some p
| None =>
    first_session (heap cm) (fun s => IsHealthy s && negb (IsDraining s)) (sessions cm)
end.

End Manager.

(** *** Predicates used to state the properties of the manager *)

Module ManagerProps.
Import Manager.

(** Some session of the slice satisfies [cond]. *)
Definition has_session (cm : ConnManager) (cond : Session -> bool) : Prop :=
exists p s, In p (sessions cm) /\ heap cm !! p = Some s /\ cond s = true.

(** [GetCurrent] returns a session of the slice that satisfies [cond]. *)
Definition current_is (cm : ConnManager) (cond : Session -> bool) : Prop :=
exists p s, GetCurrent cm = Some p /\ In p (sessions cm)
            /\ heap cm !! p = Some s /\ cond s = true.

Definition healthy_primary (s : Session) : bool := IsPrimary s && IsHealthy s.
Definition healthy_secondary (s : Session) : bool := IsSecondary s && IsHealthy s.
Definition healthy_not_draining (s : Session) : bool :=
IsHealthy s && negb (IsDraining s).

(** The number of sessions of the slice that satisfy [cond]. *)
Fixpoint count_sessions (h : gmap ptr Session) (cond : Session -> bool)
         (l : list ptr) : nat :=
match l with
| [] => 0
| p :: rest =>
    match h !! p with
    | Some s => if cond s then S (count_sessions h cond rest)
                else count_sessions h cond rest
    | None => count_sessions h cond rest
    end
end.

End ManagerProps.

(** ** internal: the launcher's health check loop *)

Module Keepalive.
Import Wire Control Manager.

(** What one round of the [select] in [startHealthCheck] meets. *)
Inductive event : Type :=
| CtxDone                       (* <-ctx.Done() *)
| ConnDone                      (* <-session.QuicConn.Context().Done() *)
| Tick (cancelled_before : bool) (* ctx is done when checked before the ping *)
       (write_err : option error) (* what WritePing returned *)
       (reply : ctl_result)       (* what ReadControlMessage returned *)
       (cancelled_after : bool).  (* ctx is done when checked after the read *)

(** The loop's state: the session, the local [nonce], and whether the loop
    is still running (it has not returned). *)
Record state := mkState
  { session : Session; nonce : Z; running : bool }.

(** [nonce++] on a [uint64]. *)
Definition next_nonce (n : Z) : Z := (n + 1) mod 2 ^ 64.

(** The state in which [Launch] starts the loop: the session marked healthy,
    no missed ping, [nonce] zero. *)
Definition start (s : Session) : state :=
mkState (SetHealthy s true) 0 true.

(** One round of the loop. *)
Definition step (st : state) (ev : event) : state :=
if negb (running st) then st
else
  match ev with
  | CtxDone => mkState (session st) (nonce st) false
  | ConnDone => mkState (session st) (nonce st) false
  | Tick cancelled_before write_err reply cancelled_after =>
      let nonce := next_nonce (nonce st) in
      if cancelled_before then mkState (session st) nonce false
      else
        match write_err with
        | Some _ => mkState (SetHealthy (session st) false) nonce false
        | None =>
            if cancelled_after then mkState (session st) nonce false
            else
              match ctl_err reply with
              | Some _ =>
                  let '(s1, missedCount) := IncrementMissedPings (session st) in
                  if missedCount >=? 3
                  then mkState (SetHealthy s1 false) nonce false
                  else mkState s1 nonce true
              | None =>
                  if (ctl_opcode reply =? OpPong) && (ctl_nonce reply =? nonce)
                  then mkState (SetHealthy (ResetMissedPings (session st)) true)
                               nonce true
                  else if ctl_opcode reply =? OpShutdown
                  then mkState (SetHealthy (session st) false) nonce false
                  else mkState (session st) nonce true
              end
        end
  end.

(** The loop over the events it meets. *)
Definition run (st : state) (evs : list event) : state :=
fold_left step evs st.

(** A round in which the ping is written and the read fails with [e]
    (a read error or the 3 s read deadline). *)
Definition miss (e : error) : event :=
Tick false None (mkCtl 0 0 (Some e) []) false.

(** A round in which the pong for the ping just sent is read. *)
Definition pong (st : state) : event :=
Tick false None (mkCtl OpPong (next_nonce (nonce st)) None []) false.

End Keepalive.

(** ** internal/s3: waiting for the worker's answer *)

Module Coordinator.
Import Manager.

Definition ResponsePollInterval : Z := 500 * Millisecond.

Definition CoordinationKeyPattern : string := "coordination/%s.json".
Definition ResponseKeyPattern : string := "punch-response/%s.json".

(** [fmt.Sprintf(pattern, arg)] for a pattern with one [%s] verb. *)
Fixpoint Sprintf_s (pattern arg : string) : string :=
match pattern with
| EmptyString => EmptyString
| String c rest =>
    match rest with
    | String c' rest' =>
        if Ascii.eqb c "%" && Ascii.eqb c' "s" then arg ++ rest'
        else String c (Sprintf_s rest arg)
    | EmptyString => String c EmptyString
    end
end.

Record LambdaResponse := mkLambdaResponse
  { SessionID : string;
    LambdaPublicIP : string;
    LambdaPublicPort : Z;
    Status : string;
    Timestamp : Z }.

(** What [GetObjectWithContext] gives back: an object, whose body decodes
    to a [LambdaResponse] or does not, or an error with its code. *)
Inductive get_result : Type :=
| GetObject (decoded : option LambdaResponse)
| GetError (code : string).

Inductive wait_result : Type :=
| Response (r : LambdaResponse)
| CtxErr
| TimeoutErr
| OutOfFuel.

(** One call of [GetObjectWithContext]: when it was made, for which key. *)
Record fetch := mkFetch { fetch_time : Z; fetch_key : string }.

Section Polling.

(** The object store: what a fetch of [key] started at time [t] returns, and
    how long the call takes. *)
Variable get : Z -> string -> get_result.
Variable latency : Z -> Z.

(** When [ctx] is cancelled, if ever. *)
Variable cancel : option Z.

Definition ctx_done (t : Z) : bool :=
match cancel with
| Some c => c <=? t
| None => false
end.

(** The loop of [WaitForLambdaResponse], entered when the clock reads
    [now]; [fetches] are the calls made so far.  A round that does not
    return sleeps [ResponsePollInterval] after its fetch. *)
Fixpoint poll (fuel : nat) (responseKey : string) (deadline now : Z)
         (fetches : list fetch) : wait_result * list fetch :=
match fuel with
| O => (OutOfFuel, fetches)
| S fuel' =>
    if negb (now <? deadline) then (TimeoutErr, fetches)
    else if ctx_done now then (CtxErr, fetches)
    else
      let fetches' := fetches ++ [mkFetch now responseKey] in
      let after := now + latency now in
      match get now responseKey with
      | GetObject (Some response) => (Response response, fetches')
      | _ =>
          if ctx_done (after + ResponsePollInterval) then (CtxErr, fetches')
          else poll fuel' responseKey deadline (after + ResponsePollInterval) fetches'
      end
end.

(** Rounds that suffice: every round that goes on moves the clock by at
    least the poll interval. *)
Definition rounds (timeout : Z) : nat :=
Z.to_nat (timeout / ResponsePollInterval) + 2.

(** [WaitForLambdaResponse(ctx, sessionID, timeout)] called when the clock
    reads [now]: the result and the fetches made. *)
Definition WaitForLambdaResponse (sessionID : string) (timeout now : Z)
  : wait_result * list fetch :=
let deadline := now + timeout in
let responseKey := Sprintf_s ResponseKeyPattern sessionID in
poll (rounds timeout) responseKey deadline now [].

End Polling.

(** The fetches are all for [key]; the first is made at time [t] and each
    next one a poll interval after the call before it has returned. *)
Fixpoint polled_from (latency : Z -> Z) (key : string) (t : Z)
         (fetches : list fetch) : Prop :=
match fetches with
| [] => True
| f :: rest =>
    f = mkFetch t key
    /\ polled_from latency key (t + latency t + ResponsePollInterval) rest
end.

(** The fetch found no object that decodes. *)
Definition undecoded (get : Z -> string -> get_result) (f : fetch) : Prop :=
forall r, get (fetch_time f) (fetch_key f) <> GetObject (Some r).

(** When the loop entered at [now] comes to its round number [k] (from 0),
    if it comes that far: each round takes the call's latency and the
    sleep. *)
Fixpoint poll_time (latency : Z -> Z) (now : Z) (k : nat) : Z :=
match k with
| O => now
| S k' => poll_time latency (now + latency now + ResponsePollInterval) k'
end.

(** The fetches of the first [n] rounds. *)
Definition polls (latency : Z -> Z) (key : string) (now : Z) (n : nat)
  : list fetch :=
map (fun k => mkFetch (poll_time latency now k) key) (seq 0 n).

(** What the result [res] says after [n] fetches, the rounds being timed by
    [t]: an answer is the answer the last fetch found, and no fetch before
    it found one; the timeout error means that round [n] started at or
    after the deadline and that no fetch found an answer; the context's
    error means the context was done when round [n] started and no fetch
    found an answer. *)
Definition returned_after (get : Z -> string -> get_result) (done : Z -> bool)
           (key : string) (deadline : Z) (t : nat -> Z)
           (res : wait_result) (n : nat) : Prop :=
match res with
| Response r =>
    exists m, n = S m /\ get (t m) key = GetObject (Some r)
              /\ forall j, (j < m)%nat -> undecoded get (mkFetch (t j) key)
| TimeoutErr =>
    deadline <= t n /\ (n = O \/ done (t n) = false)
    /\ forall j, (j < n)%nat -> undecoded get (mkFetch (t j) key)
| CtxErr =>
    done (t n) = true /\ (n = O -> t n < deadline)
    /\ forall j, (j < n)%nat -> undecoded get (mkFetch (t j) key)
| OutOfFuel => False
end.

(** *** Two object stores to run the loop on *)

Definition a_reply : LambdaResponse :=
mkLambdaResponse "0123456789abcdef" "198.51.100.5" 55555 "ready" 0.

(** A store in which the worker's answer appears under the key the code
    polls 1.2 s after the start. *)
Definition store_after_1200ms (t : Z) (key : string) : get_result :=
if String.eqb key "punch-response/0123456789abcdef.json"
   && (1200 * Millisecond <=? t)
then GetObject (Some a_reply) else GetError "NoSuchKey".

(** A store that holds the worker's answer under [reply/{session_id}.json]
    from the start, and nothing else. *)
Definition store_under_reply (t : Z) (key : string) : get_result :=
if String.eqb key "reply/0123456789abcdef.json"
then GetObject (Some a_reply) else GetError "NoSuchKey".

End Coordinator.

(** ** internal/socks5: the front-end's reading of the CONNECT request *)

Module Proxy.
Import Wire Socks5Target SessionID.

Definition OptimizedBufferSize : nat := 32 * 1024.

Definition SOCKS5Version : Z := 5.
Definition SOCKS5Connect : Z := 1.
Definition SOCKS5IPv4 : Z := 1.
Definition SOCKS5DomainName : Z := 3.

(** How a stretch of the handler ends: with a value, by returning (the
    deferred function closes the client connection), or by a run-time
    panic. *)
Inductive outcome (A : Type) : Type :=
| Ret (a : A)
| Closed
| Panic.
Arguments Ret {A} a.
Arguments Closed {A}.
Arguments Panic {A}.

Definition bind {A B : Type} (m : outcome A) (k : A -> outcome B) : outcome B :=
match m with
| Ret a => k a
| Closed => Closed
| Panic => Panic
end.

(** stdpp's monad notation [x ← m; k] for [bind m (fun x => k)]. *)
#[export] Instance outcome_bind : MBind outcome := fun _ _ k m => bind m k.

(** [make([]byte, n)]. *)
Definition make (n : nat) : list Z := repeat 0 n.

(** Arithmetic on [byte] operands is modulo 256. *)
Definition uint8 (z : Z) : Z := z mod 256.

(** [buf[i]]: an index out of range panics. *)
Definition index (buf : list Z) (i : Z) : outcome Z :=
if (0 <=? i) && (i <? Z.of_nat (List.length buf))
then Ret (nth (Z.to_nat i) buf 0) else Panic.

(** [buf[lo:hi]]: panics unless [0 <= lo <= hi <= cap(buf)]. *)
Definition slice (buf : list Z) (lo hi : Z) : outcome (list Z) :=
if (0 <=? lo) && (lo <=? hi) && (hi <=? Z.of_nat (List.length buf))
then Ret (firstn (Z.to_nat (hi - lo)) (skipn (Z.to_nat lo) buf)) else Panic.

(** [clientConn.Read(buf)] when the connection delivers [data] to this
    call: an error when it delivers nothing (the connection is closed),
    otherwise the buffer with its first bytes overwritten. *)
Definition Read (buf data : list Z) : outcome (list Z) :=
match data with
| [] => Closed
| _ => Ret (firstn (List.length buf) data ++ skipn (List.length data) buf)
end.

(** [binary.BigEndian.Uint16(b)]; a slice shorter than two bytes panics. *)
Definition Uint16 (b : list Z) : outcome Z :=
match Wire.Uint16 b with
| Some v => Ret v
| None => Panic
end.

(** The [switch buf[3]] of the handlers: the target address and port. *)
Definition parseTarget (buf : list Z) : outcome (string * Z) :=
atyp ← index buf 3;
if atyp =? SOCKS5IPv4 then
  b4 ← index buf 4;
  b5 ← index buf 5;
  b6 ← index buf 6;
  b7 ← index buf 7;
  p ← slice buf 8 10;
  targetPort ← Uint16 p;
  Ret ((Sprintf_d b4 ++ "." ++ Sprintf_d b5 ++ "." ++ Sprintf_d b6 ++ "."
        ++ Sprintf_d b7)%string, targetPort)
else if atyp =? SOCKS5DomainName then
  domainLen ← index buf 4;
  d ← slice buf 5 (uint8 (5 + domainLen));
  p ← slice buf (uint8 (5 + domainLen)) (uint8 (7 + domainLen));
  targetPort ← Uint16 p;
  Ret (string_of_bytes d, targetPort)
else Closed.

(** [handleSOCKS5Connection] and [handleSOCKS5ConnectionWithSessionAndContext]
    up to the composed target string: the two reads into the same buffer,
    the version and command checks, the parse.  [handshake] and [request]
    are what the client connection delivers to the first and to the second
    [Read]. *)
Definition handleRequest (handshake request : list Z) : outcome string :=
let buf := make OptimizedBufferSize in
buf ← Read buf handshake;
b0 ← index buf 0;
if negb (b0 =? SOCKS5Version) then Closed
else
  buf ← Read buf request;
  b0 ← index buf 0;
  if negb (b0 =? SOCKS5Version) then Closed
  else
    b1 ← index buf 1;
    if negb (b1 =? SOCKS5Connect) then Closed
    else
      t ← parseTarget buf;
      Ret (fst t ++ ":" ++ Sprintf_d (snd t))%string.

(** A CONNECT request for a domain name of [n] bytes [c], port 443. *)
Definition domain_request (n : nat) (c : Z) : list Z :=
[5; 1; 0; 3; Z.of_nat n] ++ repeat c n ++ [1; 187].

End Proxy.

(** ** pkg/shared: UDP hole punching *)

Module Punch.
Import Wire SessionID Manager.

Definition HolePunchInterval : Z := 100 * Millisecond.
Definition UDPReadTimeout : Z := 200 * Millisecond.
Definition HolePunchPacketCount : nat := 50.

(** [net.UDPAddr]: the IP as its bytes (4 or 16), and the port. *)
Record UDPAddr := mkUDPAddr { IP : list Z; Port : Z }.

Definition v4InV6Prefix : list Z := [0; 0; 0; 0; 0; 0; 0; 0; 0; 0; 255; 255].

Definition bytes_equal (a b : list Z) : bool :=
(List.length a =? List.length b)%nat && forallb (fun p => fst p =? snd p) (combine a b).

(** [ip.Equal(x)] of the net package: an IPv4 address and its IPv6 form are
    equal. *)
Definition IP_Equal (ip x : list Z) : bool :=
if (List.length ip =? List.length x)%nat then bytes_equal ip x
else if (List.length ip =? 4)%nat && (List.length x =? 16)%nat
then bytes_equal (firstn 12 x) v4InV6Prefix && bytes_equal ip (skipn 12 x)
else if (List.length ip =? 16)%nat && (List.length x =? 4)%nat
then bytes_equal (firstn 12 ip) v4InV6Prefix && bytes_equal (skipn 12 ip) x
else false.

(** What one [conn.ReadFromUDP(buf)] of the listening goroutine returns, and
    when: an error (the 200 ms read deadline, or another) or a datagram with
    its source address. *)
Inductive read_result : Type :=
| ReadErr (at_time : Z)
| Datagram (at_time : Z) (addr : UDPAddr) (data : string).

Definition read_time (r : read_result) : Z :=
match r with
| ReadErr t => t
| Datagram t _ _ => t
end.

(** The test of the listening goroutine:
    [err == nil && addr.IP.Equal(remoteAddr.IP) && addr.Port == remoteAddr.Port]
    and [strings.HasPrefix(data, "PUNCH:")]. *)
Definition is_punch (remoteAddr : UDPAddr) (r : read_result) : bool :=
match r with
| ReadErr _ => false
| Datagram _ addr data =>
    IP_Equal (IP addr) (IP remoteAddr) && (Port addr =? Port remoteAddr)
    && String.prefix "PUNCH:" data
end.

(** [fmt.Sprintf("PUNCH:%s:%d", sessionID, i)]. *)
Definition punch_message (sessionID : string) (i : nat) : string :=
("PUNCH:" ++ sessionID ++ ":" ++ Sprintf_d (Z.of_nat i))%string.

Inductive punch_error : Type :=
| PunchTimeout.   (* "NAT hole punching timeout" *)

(** What the caller sees when [PerformNATHolePunch] returns: the error, the
    time, the datagrams written to the peer so far, and the read deadline
    left on the socket ([None] is the zero time: no deadline). *)
Record punch_return := mkReturn
  { err : option punch_error;
    returned_at : Z;
    sent : list string;
    read_deadline : option Z }.

Section Schedule.

(** The sending goroutine writes datagram [i] at time [send_time i] and
    closes [punchDone] at time [send_time 50]: after each write it sleeps
    [HolePunchInterval]. *)
Variable send_time : nat -> Z.

(** What the reads of the listening goroutine return, in order. *)
Variable reads : list read_result.

(** When both the success channel and the timer are ready, [select] takes
    either. *)
Variable tie_success : bool.

(** The datagrams written by time [t]. *)
Definition sent_by (sessionID : string) (t : Z) : list string :=
map (punch_message sessionID)
    (List.filter (fun i => send_time i <=? t) (seq 0 HolePunchPacketCount)).

(** The listening goroutine: the read on which it sends on [successChan]. *)
Definition first_punch (remoteAddr : UDPAddr) : option read_result :=
find (is_punch remoteAddr) reads.

(** [PerformNATHolePunch(conn, sessionID, remoteAddr, timeout, isServer)]
    called at time [start]. *)
Definition PerformNATHolePunch (sessionID : string) (remoteAddr : UDPAddr)
           (timeout start : Z) : punch_return :=
let punchDone := send_time HolePunchPacketCount in
let timer := start + timeout in
let success (t : Z) :=
  (* case <-successChan: <-punchDone; conn.SetReadDeadline(time.Time{}) *)
  let ret := Z.max t punchDone in
  mkReturn None ret (sent_by sessionID ret) None in
let timed_out :=
  (* case <-time.After(timeout): conn.SetReadDeadline(time.Time{}) *)
  mkReturn (Some PunchTimeout) timer (sent_by sessionID timer) None in
match first_punch remoteAddr with
| Some r =>
    let t := read_time r in
    if t <? timer then success t
    else if (t =? timer) && tie_success then success t
    else timed_out
| None => timed_out
end.

End Schedule.

(** The sending goroutine sleeps at least [HolePunchInterval] after each
    write, and starts no sooner than the call. *)
Definition sender_schedule (start : Z) (send_time : nat -> Z) : Prop :=
start <= send_time 0%nat
/\ forall i, send_time i + HolePunchInterval <= send_time (S i).

(** A sender that writes at once and sleeps exactly the interval. *)
Definition regular_sends (i : nat) : Z := Z.of_nat i * HolePunchInterval.

(** The peer of the end-to-end scenario of the documentation. *)
Definition example_peer : UDPAddr := mkUDPAddr [198; 51; 100; 5] 55555.

(** A read that times out, a datagram from another port, then the peer's. *)
Definition example_reads : list read_result :=
[ ReadErr (200 * Millisecond);
  Datagram (220 * Millisecond) (mkUDPAddr [198; 51; 100; 5] 4444)
           "PUNCH:0123456789abcdef:0";
  Datagram (250 * Millisecond) example_peer "PUNCH:0123456789abcdef:1" ].

(** The burst of 50 datagrams. *)
Definition burst (sessionID : string) : list string :=
map (punch_message sessionID) (seq 0 HolePunchPacketCount).

End Punch.

(** ** internal/manager: the monitor, the launches and the promotion

    The manager's methods run in several goroutines.  Each stretch of
    code that runs under one lock is one step here; a goroutine is
    represented by the place it has reached, and the [World] holds the
    manager, the clock and the goroutines in flight. *)

Module Rotation.
Import Manager.

(** [f] applied to the session object at [p]. *)
Definition on_session (h : gmap ptr Session) (p : ptr) (f : Session -> Session)
  : gmap ptr Session :=
alter f p h.

(** [for _, session := range l { if session.IsPrimary() {...} }]. *)
Definition any_session (h : gmap ptr Session) (cond : Session -> bool)
           (l : list ptr) : bool :=
match first_session h cond l with
| Some _ => true
| None => false
end.

(** The first loop of [checkSessions]: sessions whose transport is closed
    are dropped, sessions that are unhealthy and not draining are cancelled
    and dropped, the others are appended to [activeSessions]; the last
    primary met is [primarySession]. *)
Fixpoint sweep (h : gmap ptr Session) (l : list ptr)
         (activeSessions : list ptr) (primarySession : option ptr)
  : gmap ptr Session * list ptr * option ptr :=
match l with
| [] => (h, activeSessions, primarySession)
| p :: rest =>
    match h !! p with
    | None => sweep h rest activeSessions primarySession
    | Some session =>
        if conn_done session then sweep h rest activeSessions primarySession
        else if negb (IsHealthy session) && negb (IsDraining session)
        then sweep (on_session h p Cancel) rest activeSessions primarySession
        else sweep h rest (activeSessions ++ [p])
                   (if IsPrimary session then Some p else primarySession)
    end
end.

(** Which launch [checkSessions] starts with a [go] statement, if any. *)
Inductive spawn : Type :=
| SpawnNothing
| SpawnPrimary
| SpawnSecondary.

(** [checkSessions(ctx)] when the clock reads [now]. *)
Definition checkSessions (cm : ConnManager) (now : Z) : ConnManager * spawn :=
let '(h, activeSessions, primarySession) := sweep (heap cm) (sessions cm) [] None in
let cm1 := mkConnManager (cfg cm) h activeSessions (launchState cm) (shutdownCh cm) in
match primarySession with
| None =>
    if (List.length activeSessions <? 2)%nat then
      let '(ok, ls) := canLaunchPrimary (launchState cm) now in
      (mkConnManager (cfg cm) h activeSessions ls (shutdownCh cm),
       if ok then SpawnPrimary else SpawnNothing)
    else (cm1, SpawnNothing)
| Some p =>
    match h !! p with
    | None => (cm1, SpawnNothing)
    | Some primary =>
        let remaining := RemainingTTL primary now in
        if remaining <=? OverlapWindow (cfg cm) then
          let hasSecondary := any_session h IsSecondary activeSessions in
          if negb hasSecondary && (List.length activeSessions <? 2)%nat then
            let '(ok, ls) := canLaunchSecondary (launchState cm) now in
            (mkConnManager (cfg cm) h activeSessions ls (shutdownCh cm),
             if ok then SpawnSecondary else SpawnNothing)
          else (cm1, SpawnNothing)
        else (cm1, SpawnNothing)
    end
end.

(** The session [launcher.Launch] returns at time [now]: healthy, started
    now, with the configured TTL and no role yet. *)
Definition launched (cm : ConnManager) (id : string) (now : Z) : Session :=
mkSession id now "" (SessionTTL (cfg cm)) true 0 false false.

(** The second locked stretch of [launchPrimarySession], entered with the
    new session at [p]: when a primary exists the new session is cleaned
    up, otherwise it is appended. *)
Definition addPrimary (cm : ConnManager) (p : ptr) (session : Session) : ConnManager :=
let session := SetRole session RolePrimary in
if any_session (heap cm) IsPrimary (sessions cm)
then mkConnManager (cfg cm) (<[p := cleanup session]> (heap cm)) (sessions cm)
                   (launchState cm) (shutdownCh cm)
else mkConnManager (cfg cm) (<[p := session]> (heap cm)) (sessions cm ++ [p])
                   (launchState cm) (shutdownCh cm).

(** The test of both locked stretches of [launchSecondarySession]:
    [hasSecondary || len(cm.sessions) >= 2]. *)
Definition secondary_redundant (cm : ConnManager) : bool :=
any_session (heap cm) IsSecondary (sessions cm)
|| (2 <=? List.length (sessions cm))%nat.

(** The second locked stretch of [launchSecondarySession]: the session is
    cancelled when redundant, appended otherwise; the boolean says whether
    it was appended (and [checkForPromotion] started). *)
Definition addSecondary (cm : ConnManager) (p : ptr) (session : Session)
  : ConnManager * bool :=
let session := SetRole session RoleSecondary in
if secondary_redundant cm
then (mkConnManager (cfg cm) (<[p := Cancel session]> (heap cm)) (sessions cm)
                    (launchState cm) (shutdownCh cm), false)
else (mkConnManager (cfg cm) (<[p := session]> (heap cm)) (sessions cm ++ [p])
                    (launchState cm) (shutdownCh cm), true).

(** The search of [promoteSecondary] for the current primary:
    [session != secondary && session.IsPrimary()]. *)
Fixpoint other_primary (h : gmap ptr Session) (secondary : ptr) (l : list ptr)
  : option ptr :=
match l with
| [] => None
| p :: rest =>
    match h !! p with
    | Some s =>
        if negb (p =? secondary)%nat && IsPrimary s then Some p
        else other_primary h secondary rest
    | None => other_primary h secondary rest
    end
end.

(** The critical section of [promoteSecondary(secondary)]: the manager
    after it, and the old primary that was demoted, if any. *)
Definition promoteSecondary (cm : ConnManager) (secondary : ptr)
  : ConnManager * option ptr :=
match heap cm !! secondary with
| None => (cm, None)
| Some s =>
    if negb (IsHealthy s) then (cm, None)
    else
      let oldPrimary := other_primary (heap cm) secondary (sessions cm) in
      let h1 := on_session (heap cm) secondary (fun s => SetRole s RolePrimary) in
      let h2 := match oldPrimary with
                | Some q => on_session h1 q (fun s => SetRole s RoleDraining)
                | None => h1
                end in
      (mkConnManager (cfg cm) h2 (sessions cm) (launchState cm) (shutdownCh cm),
       oldPrimary)
end.

(** [shutdown()]: the slice is emptied and every session it held is cleaned
    up. *)
Definition shutdown (cm : ConnManager) : ConnManager :=
mkConnManager (cfg cm)
  (fold_left (fun h p => on_session h p cleanup) (sessions cm) (heap cm))
  [] (launchState cm) true.

(** [clearLaunchState] on the manager. *)
Definition clear (cm : ConnManager) (isPrimary success : bool) : ConnManager :=
mkConnManager (cfg cm) (heap cm) (sessions cm)
  (clearLaunchState (launchState cm) isPrimary success) (shutdownCh cm).

(** *** Goroutines *)

(** Where a launch goroutine stands: before its first locked check, inside
    [cm.launchSession], before [clearLaunchState(_, true)], or returning
    (the deferred [clearLaunchState(_, false)] is still to run). *)
Inductive launch_pc : Type :=
| AtGuard
| InLaunch
| AtClearSuccess
| AtDeferredClear.

Inductive goroutine : Type :=
| LaunchPrimary (pc : launch_pc)
| LaunchSecondary (pc : launch_pc)
| CheckForPromotion (secondary : ptr) (healthCheckCount : Z)
                    (nextTick timeout : Z)
| PromoteSecondary (secondary : ptr)
| DrainCleanup (session : ptr) (timer : Z)
| DrainCancel (session : ptr) (wake : Z)
| Finished.

Record World := mkWorld
  { cm : ConnManager;
    now : Z;
    next : ptr;              (* the next session object to be allocated *)
    monitorTick : Z;         (* when the monitor's ticker fires next *)
    goroutines : list goroutine }.

(** What can happen next. *)
Inductive event : Type :=
| Advance (d : Z)                (* the clock moves on by d *)
| MonitorTick                    (* the monitor's ticker fires: checkSessions *)
| Step (i : nat)                 (* goroutine i runs its next locked stretch *)
| Launched (i : nat) (id : string)  (* launcher.Launch returns a session *)
| LaunchFailed (i : nat)         (* launcher.Launch returns an error *)
| PromotionTick (i : nat)        (* checkForPromotion takes its ticker case *)
| PromotionExit (i : nat)        (* checkForPromotion takes another case *)
| ConnClosed (p : ptr)           (* the transport of p closes *)
| MarkUnhealthy (p : ptr)        (* the health check marks p unhealthy *)
| Shutdown.                      (* Start's context is cancelled *)

Definition set_cm (w : World) (c : ConnManager) : World :=
mkWorld c (now w) (next w) (monitorTick w) (goroutines w).

Definition set_goroutine (w : World) (i : nat) (g : goroutine) : World :=
mkWorld (cm w) (now w) (next w) (monitorTick w) (<[i := g]> (goroutines w)).

Definition spawn_goroutine (w : World) (g : goroutine) : World :=
mkWorld (cm w) (now w) (next w) (monitorTick w) (goroutines w ++ [g]).

Definition session_done (w : World) (p : ptr) : bool :=
match heap (cm w) !! p with
| Some s => conn_done s
| None => false
end.

(** The next locked stretch of goroutine [g], number [i]. *)
Definition run_step (w : World) (i : nat) (g : goroutine) : option World :=
match g with
| LaunchPrimary AtGuard =>
    Some (set_goroutine w i
            (if any_session (heap (cm w)) IsPrimary (sessions (cm w))
             then LaunchPrimary AtClearSuccess else LaunchPrimary InLaunch))
| LaunchSecondary AtGuard =>
    Some (set_goroutine w i
            (if secondary_redundant (cm w)
             then LaunchSecondary AtClearSuccess else LaunchSecondary InLaunch))
| LaunchPrimary AtClearSuccess =>
    Some (set_goroutine (set_cm w (clear (cm w) true true)) i
            (LaunchPrimary AtDeferredClear))
| LaunchSecondary AtClearSuccess =>
    Some (set_goroutine (set_cm w (clear (cm w) false true)) i
            (LaunchSecondary AtDeferredClear))
| LaunchPrimary AtDeferredClear =>
    Some (set_goroutine (set_cm w (clear (cm w) true false)) i Finished)
| LaunchSecondary AtDeferredClear =>
    Some (set_goroutine (set_cm w (clear (cm w) false false)) i Finished)
| PromoteSecondary secondary =>
    let '(c, oldPrimary) := promoteSecondary (cm w) secondary in
    let w1 := set_goroutine (set_cm w c) i Finished in
    match oldPrimary with
    | Some q =>
        (* startGoroutine refuses once shutdownCh is closed *)
        if shutdownCh c then Some w1
        else Some (spawn_goroutine w1
                     (DrainCleanup q (now w + DrainTimeout (cfg c))))
    | None => Some w1
    end
| DrainCleanup session timer =>
    if session_done w session then Some (set_goroutine w i Finished)
    else if timer <=? now w
    then Some (set_goroutine w i (DrainCancel session (now w + 500 * Millisecond)))
    else None
| DrainCancel session wake =>
    if wake <=? now w
    then Some (set_goroutine
                 (set_cm w (mkConnManager (cfg (cm w))
                              (on_session (heap (cm w)) session Cancel)
                              (sessions (cm w)) (launchState (cm w))
                              (shutdownCh (cm w)))) i Finished)
    else None
| _ => None
end.

(** One event. *)
Definition step (w : World) (e : event) : option World :=
match e with
| Advance d =>
    if 0 <=? d
    then Some (mkWorld (cm w) (now w + d) (next w) (monitorTick w) (goroutines w))
    else None
| MonitorTick =>
    if monitorTick w <=? now w then
      let '(c, sp) := checkSessions (cm w) (now w) in
      let w1 := mkWorld c (now w) (next w) (monitorTick w + 1 * Second)
                        (goroutines w) in
      Some match sp with
           | SpawnNothing => w1
           | SpawnPrimary => spawn_goroutine w1 (LaunchPrimary AtGuard)
           | SpawnSecondary => spawn_goroutine w1 (LaunchSecondary AtGuard)
           end
    else None
| Step i =>
    match goroutines w !! i with
    | Some g => run_step w i g
    | None => None
    end
| Launched i id =>
    let p := next w in
    let session := launched (cm w) id (now w) in
    match goroutines w !! i with
    | Some (LaunchPrimary InLaunch) =>
        Some (mkWorld (addPrimary (cm w) p session) (now w) (S p)
                      (monitorTick w)
                      (<[i := LaunchPrimary AtClearSuccess]> (goroutines w)))
    | Some (LaunchSecondary InLaunch) =>
        let '(c, appended) := addSecondary (cm w) p session in
        let gs := <[i := LaunchSecondary AtClearSuccess]> (goroutines w) in
        Some (mkWorld c (now w) (S p) (monitorTick w)
                (if appended
                 then gs ++ [CheckForPromotion p 0 (now w + 5 * Second)
                                               (now w + 45 * Second)]
                 else gs))
    | _ => None
    end
| LaunchFailed i =>
    match goroutines w !! i with
    | Some (LaunchPrimary InLaunch) =>
        Some (set_goroutine w i (LaunchPrimary AtDeferredClear))
    | Some (LaunchSecondary InLaunch) =>
        Some (set_goroutine w i (LaunchSecondary AtDeferredClear))
    | _ => None
    end
| PromotionTick i =>
    match goroutines w !! i with
    | Some (CheckForPromotion secondary healthCheckCount nextTick timeout) =>
        if nextTick <=? now w then
          match heap (cm w) !! secondary with
          | Some s =>
              if IsHealthy s then
                let healthCheckCount := healthCheckCount + 1 in
                if healthCheckCount >=? 3
                then Some (set_goroutine w i (PromoteSecondary secondary))
                else Some (set_goroutine w i
                             (CheckForPromotion secondary healthCheckCount
                                (nextTick + 5 * Second) timeout))
              else Some (set_goroutine w i
                           (CheckForPromotion secondary 0
                              (nextTick + 5 * Second) timeout))
          | None => None
          end
        else None
    | _ => None
    end
| PromotionExit i =>
    match goroutines w !! i with
    | Some (CheckForPromotion secondary _ _ timeout) =>
        if (timeout <=? now w) || shutdownCh (cm w) || session_done w secondary
        then Some (set_goroutine w i Finished)
        else None
    | _ => None
    end
| ConnClosed p =>
    Some (set_cm w (mkConnManager (cfg (cm w))
                      (on_session (heap (cm w)) p closeConn)
                      (sessions (cm w)) (launchState (cm w)) (shutdownCh (cm w))))
| MarkUnhealthy p =>
    Some (set_cm w (mkConnManager (cfg (cm w))
                      (on_session (heap (cm w)) p (fun s => SetHealthy s false))
                      (sessions (cm w)) (launchState (cm w)) (shutdownCh (cm w))))
| Shutdown => Some (set_cm w (shutdown (cm w)))
end.

(** A sequence of events. *)
Fixpoint run (w : World) (es : list event) : option World :=
match es with
| [] => Some w
| e :: rest =>
    match step w e with
    | Some w' => run w' rest
    | None => None
    end
end.

(** [Start(ctx)] after its initial launch has returned the session [id] at
    time [t0]: the session is the primary and the only one, the monitor is
    running. *)
Definition started (c : RotationConfig) (id : string) (t0 : Z) : World :=
let session :=
  SetRole (mkSession id t0 "" (SessionTTL c) true 0 false false) RolePrimary in
mkWorld (mkConnManager c {[ 0%nat := session ]} [0%nat] newLaunchState false)
        t0 1%nat (t0 + 1 * Second) [].

(** The worlds the manager can be in. *)
Definition reachable (c : RotationConfig) (w : World) : Prop :=
exists id t0 es, 0 <= t0 /\ run (started c id t0) es = Some w.

End Rotation.

(** *** Predicates used to state the properties of the rotation *)

Module RotationProps.
Import Manager ManagerProps Rotation.

(** The session objects of [h'] have the roles they have in [h]. *)
Definition same_roles (h h' : gmap ptr Session) : Prop :=
forall p, Role <$> (h' !! p) = Role <$> (h !! p).

(** [h'] is [h] with some sessions cancelled. *)
Definition only_cancelled (h h' : gmap ptr Session) : Prop :=
forall p, h' !! p = h !! p
          \/ exists s, h !! p = Some s /\ h' !! p = Some (Cancel s).

(** A session the monitor keeps: its transport is open, and it is healthy
    or draining. *)
Definition kept_by_monitor (s : Session) : Prop :=
conn_done s = false /\ (healthy s = true \/ IsDraining s = true).

(** Why the monitor drops the session at [p]: its transport is closed, or
    it is unhealthy and not draining, and then it is cancelled in [h']. *)
Definition dropped_by_monitor (h h' : gmap ptr Session) (p : ptr) : Prop :=
exists s, h !! p = Some s
  /\ (conn_done s = true
      \/ (healthy s = false /\ IsDraining s = false
          /\ exists s', h' !! p = Some s' /\ cancelled s' = true)).

(** The slice [l] over the heap [h], [n] being the next object to allocate:
    no session occurs twice, every session is an allocated object, at most
    one is primary and at most one is secondary. *)
Definition roles_unique (h : gmap ptr Session) (l : list ptr) (n : ptr) : Prop :=
NoDup l
/\ (forall p, In p l -> (p < n)%nat /\ is_Some (h !! p))
/\ (count_sessions h IsPrimary l <= 1)%nat
/\ (count_sessions h IsSecondary l <= 1)%nat.

Definition world_roles_unique (w : World) : Prop :=
roles_unique (heap (cm w)) (sessions (cm w)) (next w).

(** The configuration of the normal mode. *)
Definition normal_mode : RotationConfig :=
mkRotation (90 * Second) (45 * Second) (480 * Second).

(** A manager with a healthy primary, a secondary that turned unhealthy and
    a draining session whose transport has closed. *)
Definition three_roles : ConnManager :=
mkConnManager normal_mode
  (<[2%nat := mkSession "c" 0 RoleDraining 0 true 0 true false]>
   (<[1%nat := mkSession "b" 0 RoleSecondary 0 false 3 false false]>
    (<[0%nat := mkSession "a" 0 RolePrimary (480 * Second) true 0 false false]> ∅)))
  [0%nat; 1%nat; 2%nat] newLaunchState false.

(** A manager with a healthy primary and a healthy secondary. *)
Definition primary_and_secondary : ConnManager :=
mkConnManager normal_mode
  (<[1%nat := mkSession "b" 0 RoleSecondary (480 * Second) true 0 false false]>
   (<[0%nat := mkSession "a" 0 RolePrimary (480 * Second) true 0 false false]> ∅))
  [0%nat; 1%nat] newLaunchState false.


(** A run in normal mode: the primary [a] reaches its overlap window after
    390 s and a secondary [x] is launched; [x] passes three health checks;
    its transport closes while its promotion waits for the manager's lock,
    and the monitor drops it and starts another secondary launch; the
    promotion of [x] then demotes [a]; the monitor finds no primary and
    starts a primary launch; both launches succeed. *)
Definition overlapping_launches : list event :=
[ Advance (390 * Second); MonitorTick; Step 0;
  Advance (10 * Second); Launched 0 "x"; Step 0; Step 0;
  Advance (5 * Second); PromotionTick 1;
  Advance (5 * Second); PromotionTick 1;
  Advance (5 * Second); PromotionTick 1;
  ConnClosed 1%nat; MonitorTick; Step 1; Step 2;
  Advance (5 * Second); MonitorTick; Step 4;
  Advance (5 * Second); Launched 2 "y";
  Advance (5 * Second); Launched 4 "z" ].

End RotationProps.

(** ** The worker: its control stream *)

Module Worker.
Import Wire Control.

(** [err == io.EOF || errors.Is(err, io.EOF)]: [err], or an error it wraps
    with [%w], is [io.EOF]. *)
Fixpoint is_EOF (e : error) : bool :=
match e with
| EOF => true
| Wrapped _ cause => is_EOF cause
| _ => false
end.

(** What [handleControlStream] sends on [done] before it returns:
    [done <- nil], [done <- err], or nothing. *)
Inductive signal : Type :=
| Done (err : option error)
| Silent.

(** How [handleControlStream] returns: what it has written to the stream,
    what it sent on [done], and the input it has not read. *)
Record control_result := mkControl
  { out : Writer; signalled : signal; unread : Reader }.

(** The [for] loop of [handleControlStream]; every round that does not
    return reads at least one byte, so [fuel] above the length of the input
    is never used up. *)
Fixpoint control_loop (fuel : nat) (r : Reader) (w : Writer)
  : option control_result :=
match fuel with
| O => None
| S fuel =>
    let m := ReadControlMessage r in
    match ctl_err m with
    | Some err =>
        if is_EOF err then Some (mkControl w (Done None) (ctl_rest m))
        else Some (mkControl w (Done (Some err)) (ctl_rest m))
    | None =>
        if ctl_opcode m =? OpPing then
          match WritePong w (ctl_nonce m) with
          | (w1, Some _) => Some (mkControl w1 Silent (ctl_rest m))
          | (w1, None) => control_loop fuel (ctl_rest m) w1
          end
        else if ctl_opcode m =? OpShutdown then
          Some (mkControl w (Done None) (ctl_rest m))
        else control_loop fuel (ctl_rest m) w
    end
end.

(** [handleControlStream(stream, done)]: [r] is what the stream delivers
    before it ends, [w] the stream's sending side. *)
Definition handleControlStream (r : Reader) (w : Writer) : option control_result :=
control_loop (S (List.length r)) r w.

(** The bytes of the pings with the nonces [ns], as [WritePing] writes them
    one after the other, and the stream after the pongs for [ns]. *)
Definition pings (ns : list Z) : Writer :=
fold_left (fun w n => fst (WritePing w n)) ns new_buffer.

Definition pongs (w : Writer) (ns : list Z) : Writer :=
fold_left (fun w n => fst (WritePong w n)) ns w.

End Worker.

(** ** The stream of one proxied connection, on both sides *)

Module Tunnel.
Import Wire Socks5Target Proxy.

Definition SOCKS5ResponseSuccess : Z := 0.
Definition SOCKS5ResponseError : Z := 1.

Definition SOCKS5Success : Z := 0.
Definition SOCKS5Failed : Z := 1.

Definition SOCKS5SuccessResponse : list Z :=
[SOCKS5Version; SOCKS5Success; 0; SOCKS5IPv4; 0; 0; 0; 0; 0; 0].

Definition SOCKS5FailureResponse : list Z :=
[SOCKS5Version; SOCKS5Failed; 0; SOCKS5IPv4; 0; 0; 0; 0; 0; 0].

(** [WriteSOCKS5Response(stream, response)]. *)
Definition WriteSOCKS5Response (stream : Writer) (response : Z)
  : Writer * option error :=
match Write stream [byte_of response] with
| (w, Some e) => (w, Some (Wrapped "failed to write SOCKS5 response" e))
| (w, None) => (w, None)
end.

(** How the worker's [handleSOCKS5Stream] ends. *)
Inductive stream_end : Type :=
| NoTarget (e : error)          (* the target could not be read *)
| NoConnection (target : string)  (* ConnectToTarget failed *)
| NoResponse (target : string)    (* the success response could not be written *)
| Forwarding (target : string).   (* ForwardData runs to the target *)

(** The worker's [handleSOCKS5Stream(stream)]: [dial target] says whether
    [ConnectToTarget] reaches the target; [r] is what the stream delivers,
    [w] its sending side.  The result holds what was written, how the
    handler went on, and the input left for the forwarding. *)
Definition handleSOCKS5Stream (dial : string -> bool) (r : Reader) (w : Writer)
  : Writer * stream_end * Reader :=
match ReadSOCKS5TargetAddress r with
| (inr e, r1) =>
    (fst (WriteSOCKS5Response w SOCKS5ResponseError), NoTarget e, r1)
| (inl target, r1) =>
    if negb (dial target)
    then (fst (WriteSOCKS5Response w SOCKS5ResponseError), NoConnection target, r1)
    else
      match WriteSOCKS5Response w SOCKS5ResponseSuccess with
      | (w1, Some _) => (w1, NoResponse target, r1)
      | (w1, None) => (w1, Forwarding target, r1)
      end
end.

(** The front-end's [handleSOCKS5Connection] from the opened stream to the
    two writes of the target: [uint32(len(targetBytes))] in big-endian
    order, then the bytes.  [None] when both writes went through, otherwise
    the failure response the client is sent. *)
Definition sendTarget (stream : Writer) (target : string)
  : Writer * option (list Z) :=
let targetBytes := bytes_of_string target in
let targetLenBytes :=
  PutUint32 (Z.land (Z.of_nat (List.length targetBytes)) (Z.ones 32)) in
match Write stream targetLenBytes with
| (w1, Some _) => (w1, Some SOCKS5FailureResponse)
| (w1, None) =>
    match Write w1 targetBytes with
    | (w2, Some _) => (w2, Some SOCKS5FailureResponse)
    | (w2, None) => (w2, None)
    end
end.

(** The front-end's reading of the worker's answer into a buffer of one
    byte, [response] being what the stream delivers: what the client is
    sent. *)
Definition awaitResponse (response : Reader) : list Z :=
match Read (make 1) response with
| Ret responseBuf =>
    if negb (nth 0 responseBuf 0 =? 0) then SOCKS5FailureResponse
    else SOCKS5SuccessResponse
| _ => SOCKS5FailureResponse
end.

End Tunnel.

(** * Theorems *)

(** ** Big-endian encoding *)

Section BigEndian.
Import Wire.

Lemma testbit_255 (m : Z) : 0 <= m -> Z.testbit 255 m = (m <? 8).
Proof.
  intros Hm. change 255 with (Z.ones 8).
  rewrite Z.testbit_ones by lia.
  destruct (Z.leb_spec 0 m); [reflexivity | lia].
Qed.

Lemma byte_of_range (v : Z) : is_byte (byte_of v).
Proof.
  unfold is_byte, byte_of. change 255 with (Z.ones 8).
  rewrite Z.land_ones by lia. apply Z.mod_pos_bound. lia.
Qed.

Lemma byte_slice_testbit (v k n : Z) :
  0 <= k -> 0 <= n ->
  Z.testbit (Z.shiftl (byte_of (Z.shiftr v k)) k) n
  = Z.testbit v n && ((k <=? n) && (n <? k + 8)).
Proof.
  intros Hk Hn. unfold byte_of.
  destruct (Z.leb_spec k n) as [Hle | Hlt].
  - rewrite Z.shiftl_spec by lia.
    rewrite Z.land_spec, Z.shiftr_spec by lia.
    rewrite testbit_255 by lia.
    replace (n - k + k) with n by lia.
    destruct (Z.ltb_spec (n - k) 8), (Z.ltb_spec n (k + 8)); try lia; reflexivity.
  - rewrite Z.shiftl_spec by lia.
    rewrite Z.testbit_neg_r by lia.
    simpl. rewrite andb_false_r. reflexivity.
Qed.

Lemma byte_low_testbit (v n : Z) :
  0 <= n -> Z.testbit (byte_of v) n = Z.testbit v n && ((0 <=? n) && (n <? 8)).
Proof.
  intros Hn.
  pose proof (byte_slice_testbit v 0 n ltac:(lia) Hn) as H.
  rewrite Z.shiftr_0_r, Z.shiftl_0_r in H. exact H.
Qed.

Lemma testbit_above (v w n : Z) :
  0 <= v < 2 ^ w -> w <= n -> Z.testbit v n = false.
Proof.
  intros [H0 Hlt] Hn.
  destruct (Z.eq_dec v 0) as [-> | Hne]; [apply Z.bits_0 |].
  apply Z.bits_above_log2; [lia |].
  assert (0 <= w) by (destruct (Z.le_gt_cases 0 w); [lia |];
                      rewrite Z.pow_neg_r in Hlt; lia).
  assert (Z.log2 v < w) by (apply Z.log2_lt_pow2; lia).
  lia.
Qed.

(** Settles the comparisons of a goal that the hypotheses decide. *)
Ltac decide_ranges :=
  repeat match goal with
         | |- context [?a <=? ?b] =>
             first [ rewrite (proj2 (Z.leb_le a b)) by lia
                   | rewrite (proj2 (Z.leb_gt a b)) by lia ]
         | |- context [?a <? ?b] =>
             first [ rewrite (proj2 (Z.ltb_lt a b)) by lia
                   | rewrite (proj2 (Z.ltb_ge a b)) by lia ]
         end.

Lemma Uint64_PutUint64 (v : Z) :
  0 <= v < 2 ^ 64 -> Uint64 (PutUint64 v) = Some v.
Proof.
  intros Hv. unfold PutUint64, Uint64. f_equal.
  apply Z.bits_inj'. intros n Hn.
  rewrite !Z.lor_spec.
  rewrite !byte_slice_testbit by lia.
  rewrite byte_low_testbit by lia.
  destruct (Z.lt_ge_cases n 64) as [Hlt | Hge].
  - destruct (Z.testbit v n); simpl; [| reflexivity].
    assert (n < 8 \/ 8 <= n < 16 \/ 16 <= n < 24 \/ 24 <= n < 32
            \/ 32 <= n < 40 \/ 40 <= n < 48 \/ 48 <= n < 56 \/ 56 <= n)
      as Hcase by lia.
    destruct Hcase as [H | [H | [H | [H | [H | [H | [H | H]]]]]]];
      decide_ranges; reflexivity.
  - rewrite (testbit_above v 64 n) by lia. reflexivity.
Qed.

Lemma Uint32_PutUint32 (v : Z) :
  0 <= v < 2 ^ 32 -> Uint32 (PutUint32 v) = Some v.
Proof.
  intros Hv. unfold PutUint32, Uint32. f_equal.
  apply Z.bits_inj'. intros n Hn.
  rewrite !Z.lor_spec.
  rewrite !byte_slice_testbit by lia.
  rewrite byte_low_testbit by lia.
  destruct (Z.lt_ge_cases n 32) as [Hlt | Hge].
  - destruct (Z.testbit v n); simpl; [| reflexivity].
    assert (n < 8 \/ 8 <= n < 16 \/ 16 <= n < 24 \/ 24 <= n) as Hcase by lia.
    destruct Hcase as [H | [H | [H | H]]]; decide_ranges; reflexivity.
  - rewrite (testbit_above v 32 n) by lia. reflexivity.
Qed.

End BigEndian.

(** ** Control frames *)

Section ControlCodec.
Import Wire Control.

Lemma ReadFull_app (p rest : list Z) (n : nat) :
  List.length p = n -> ReadFull (p ++ rest) n = (inl p, rest).
Proof.
  intros <-. unfold ReadFull.
  rewrite List.length_app.
  destruct (Nat.leb_spec (List.length p) (List.length p + List.length rest)); [| lia].
  rewrite firstn_app, Nat.sub_diag, firstn_all. simpl. rewrite app_nil_r.
  rewrite skipn_app, Nat.sub_diag, skipn_all. reflexivity.
Qed.

Lemma readUint64_PutUint64 (v : Z) (rest : Reader) :
  0 <= v < 2 ^ 64 -> readUint64 (PutUint64 v ++ rest) = (v, None, rest).
Proof.
  intros Hv. unfold readUint64.
  rewrite (ReadFull_app (PutUint64 v) rest 8) by reflexivity.
  rewrite Uint64_PutUint64 by exact Hv. reflexivity.
Qed.

Lemma read_nonce_frame (op v : Z) (rest : Reader) :
  0 <= v < 2 ^ 64 -> op = OpPing \/ op = OpPong ->
  ReadControlMessage (op :: PutUint64 v ++ rest) = mkCtl op v None rest.
Proof.
  intros Hv Hop. unfold ReadControlMessage, readByte.
  change (op :: PutUint64 v ++ rest) with ([op] ++ (PutUint64 v ++ rest)).
  rewrite (ReadFull_app [op] _ 1) by reflexivity.
  cbn [nth].
  assert ((op =? OpPing) || (op =? OpPong) = true) as ->.
  { destruct Hop as [-> | ->]; reflexivity. }
  rewrite readUint64_PutUint64 by exact Hv. reflexivity.
Qed.

(** C7. Writing [Ping{N}], [Pong{N}] or [Shutdown] to a working writer
    appends the opcode byte (0x01, 0x02, 0x03) followed, for ping and pong,
    by the big-endian eight bytes of the nonce; [ReadControlMessage] on those
    bytes returns the same opcode and nonce without error and leaves the
    rest of the input; and on any first byte other than 0x01, 0x02, 0x03 it
    returns the unknown-opcode error. *)
Theorem control_frame_roundtrip (N : Z) (w : Writer) (rest : Reader) :
  0 <= N < 2 ^ 64 -> broken w = false ->
  (WritePing w N = (mkWriter (written w ++ 1 :: PutUint64 N) false, None)
   /\ ReadControlMessage (1 :: PutUint64 N ++ rest) = mkCtl OpPing N None rest)
  /\ (WritePong w N = (mkWriter (written w ++ 2 :: PutUint64 N) false, None)
   /\ ReadControlMessage (2 :: PutUint64 N ++ rest) = mkCtl OpPong N None rest)
  /\ (WriteShutdown w = (mkWriter (written w ++ [3]) false, None)
   /\ ReadControlMessage (3 :: rest) = mkCtl OpShutdown 0 None rest)
  /\ (forall b : Z, b <> 1 -> b <> 2 -> b <> 3 ->
      ReadControlMessage (b :: rest)
      = mkCtl b 0 (Some (Errorf "unknown opcode")) rest).
Proof.
  intros HN Hw.
  repeat split.
  - unfold WritePing, writeByte, writeUint64, Write. rewrite Hw. cbn.
    rewrite <- app_assoc. reflexivity.
  - apply (read_nonce_frame OpPing); auto.
  - unfold WritePong, writeByte, writeUint64, Write. rewrite Hw. cbn.
    rewrite <- app_assoc. reflexivity.
  - apply (read_nonce_frame OpPong); auto.
  - unfold WriteShutdown, writeByte, Write. rewrite Hw. reflexivity.
  - intros b H1 H2 H3. unfold ReadControlMessage, readByte.
    change (b :: rest) with ([b] ++ rest).
    rewrite (ReadFull_app [b] rest 1) by reflexivity. cbn [nth].
    unfold OpPing, OpPong, OpShutdown.
    destruct (Z.eqb_spec b 1); [contradiction |].
    destruct (Z.eqb_spec b 2); [contradiction |].
    destruct (Z.eqb_spec b 3); [contradiction |]. reflexivity.
Qed.

(** The nonce of the repository's round-trip test, 0xDEADBEEFCAFEBABE,
    written to an empty buffer and read back. *)
Lemma control_frame_roundtrip_witness :
  WritePing new_buffer 16045690984503098046
  = (mkWriter (1 :: PutUint64 16045690984503098046) false, None)
  /\ ReadControlMessage (1 :: PutUint64 16045690984503098046 ++ [])
     = mkCtl OpPing 16045690984503098046 None [].
Proof.
  apply (control_frame_roundtrip 16045690984503098046 new_buffer []);
    [lia | reflexivity].
Defined.

End ControlCodec.

(** ** Target request on a flow stream *)

Section TargetAddress.
Import Wire Socks5Target.

Lemma ReadFull_short (r : Reader) (n : nat) :
  (List.length r < n)%nat -> exists e, ReadFull r n = (inr e, []).
Proof.
  intros Hlt. unfold ReadFull.
  destruct (Nat.leb_spec n (List.length r)); [lia |].
  destruct r; eauto.
Qed.

Lemma string_of_bytes_nonempty (buf : list Z) :
  buf <> [] -> String.eqb (string_of_bytes buf) "" = false.
Proof.
  destruct buf as [| b buf]; [congruence | intros _].
  reflexivity.
Qed.

(** C8. [ReadSOCKS5TargetAddress] returns an error when the stream ends
    before four length bytes were read, and when the big-endian length they
    encode is greater than 1024; a length of exactly 1024 followed by 1024
    bytes is accepted, and those bytes are the target. *)
Theorem read_target_length_bounds :
  (forall stream : Reader, (List.length stream < 4)%nat ->
     exists e, ReadSOCKS5TargetAddress stream
               = (inr (Wrapped "failed to read target length" e), []))
  /\ (forall (b0 b1 b2 b3 n : Z) (rest : Reader),
        Uint32 [b0; b1; b2; b3] = Some n -> n > 1024 ->
        ReadSOCKS5TargetAddress (b0 :: b1 :: b2 :: b3 :: rest)
        = (inr (Errorf "target address too long"), rest))
  /\ (forall (payload : list Z) (rest : Reader),
        List.length payload = 1024%nat ->
        ReadSOCKS5TargetAddress (PutUint32 1024 ++ payload ++ rest)
        = (inl (string_of_bytes payload), rest)).
Proof.
  split; [| split].
  - intros stream Hlt. unfold ReadSOCKS5TargetAddress.
    destruct (ReadFull_short stream 4 Hlt) as [e ->]. eauto.
  - intros b0 b1 b2 b3 n rest Hn Hgt. unfold ReadSOCKS5TargetAddress.
    change (b0 :: b1 :: b2 :: b3 :: rest) with ([b0; b1; b2; b3] ++ rest).
    rewrite (ReadFull_app [b0; b1; b2; b3] rest 4) by reflexivity.
    rewrite Hn. unfold MaxTargetAddressLength.
    destruct (Z.gtb_spec n 1024); [reflexivity | lia].
  - intros payload rest Hlen. unfold ReadSOCKS5TargetAddress.
    rewrite (ReadFull_app (PutUint32 1024) _ 4) by reflexivity.
    rewrite Uint32_PutUint32 by lia.
    unfold MaxTargetAddressLength.
    destruct (Z.gtb_spec 1024 1024); [lia |].
    rewrite (ReadFull_app payload rest (Z.to_nat 1024)) by (rewrite Hlen; reflexivity).
    rewrite string_of_bytes_nonempty; [reflexivity |].
    intros ->. discriminate Hlen.
Qed.

(** A declared length of 1025 (bytes 00 00 04 01) is refused. *)
Lemma read_target_length_bounds_witness :
  ReadSOCKS5TargetAddress [0; 0; 4; 1; 97]
  = (inr (Errorf "target address too long"), [97]).
Proof.
  apply (proj1 (proj2 read_target_length_bounds) 0 0 4 1 1025 [97]);
    [reflexivity | lia].
Defined.

End TargetAddress.

(** ** Session identifiers *)

Section SessionIdentifiers.
Import Wire Socks5Target SessionID.

Lemma hexdigit_is_hex (n : Z) : is_hex (hexdigit n) = true.
Proof.
  unfold hexdigit.
  destruct (Z.to_nat n) as [| k]; [reflexivity |].
  do 15 (destruct k as [| k]; [reflexivity |]).
  simpl. destruct k; reflexivity.
Qed.

Lemma EncodeToString_length (src : list Z) :
  String.length (EncodeToString src) = (2 * List.length src)%nat.
Proof.
  induction src as [| v rest IH]; simpl; [reflexivity |].
  rewrite IH. lia.
Qed.

Lemma EncodeToString_hex (src : list Z) :
  forallb is_hex (list_ascii_of_string (EncodeToString src)) = true.
Proof.
  induction src as [| v rest IH]; simpl; [reflexivity |].
  rewrite !hexdigit_is_hex. exact IH.
Qed.

Lemma bytes_of_string_length (s : string) :
  List.length (bytes_of_string s) = String.length s.
Proof.
  unfold bytes_of_string. rewrite List.length_map.
  induction s as [| c s IH]; simpl; [reflexivity | now rewrite IH].
Qed.

(** C9, as the code has it.  When [rand.Read] fills the eight bytes the
    identifier is their hexadecimal encoding, 16 hexadecimal characters;
    when [rand.Read] fails the identifier is the hexadecimal encoding of the
    decimal nanosecond timestamp, two hexadecimal characters per digit. *)
Theorem session_id_shape :
  (forall (bytes : list Z) (now : Z), List.length bytes = 8%nat ->
     GenerateSessionID (RandOk bytes) now = EncodeToString bytes
     /\ String.length (GenerateSessionID (RandOk bytes) now) = 16%nat
     /\ forallb is_hex
          (list_ascii_of_string (GenerateSessionID (RandOk bytes) now)) = true)
  /\ (forall now : Z,
     GenerateSessionID RandErr now = GenerateTimestampID now
     /\ String.length (GenerateSessionID RandErr now)
        = (2 * String.length (Sprintf_d now))%nat
     /\ forallb is_hex
          (list_ascii_of_string (GenerateSessionID RandErr now)) = true).
Proof.
  split.
  - intros bytes now Hlen. simpl.
    rewrite EncodeToString_length, Hlen, EncodeToString_hex. auto.
  - intros now. simpl. unfold GenerateTimestampID.
    rewrite EncodeToString_length, bytes_of_string_length, EncodeToString_hex.
    auto.
Qed.

(** Eight given bytes: the identifier has 16 characters. *)
Lemma session_id_shape_witness :
  GenerateSessionID (RandOk [222; 173; 190; 239; 202; 254; 186; 190]) 0
  = "deadbeefcafebabe"%string.
Proof.
  rewrite (proj1 (proj1 session_id_shape
             [222; 173; 190; 239; 202; 254; 186; 190] 0 eq_refl)).
  reflexivity.
Defined.

(** C9 as stated fails when [rand.Read] reports an error: with the clock at
    1700000000000000000 ns the identifier has 38 characters. *)
Lemma session_id_fallback_not_16 :
  GenerateSessionID RandErr 1700000000000000000
  = "31373030303030303030303030303030303030"%string
  /\ String.length (GenerateSessionID RandErr 1700000000000000000) = 38%nat.
Proof. split; reflexivity. Qed.

End SessionIdentifiers.

(** ** Dispatch policy *)

Section Dispatch.
Import Manager ManagerProps.

Lemma first_session_Some h cond l p :
  first_session h cond l = Some p ->
  In p l /\ exists s, h !! p = Some s /\ cond s = true.
Proof.
  induction l as [| q rest IH]; simpl; [discriminate |].
  destruct (h !! q) as [s |] eqn:Hq.
  - destruct (cond s) eqn:Hc.
    + intros [= <-]. split; [now left | eauto].
    + intros H. destruct (IH H) as [Hin Hs]. split; [now right | exact Hs].
  - intros H. destruct (IH H) as [Hin Hs]. split; [now right | exact Hs].
Qed.

Lemma first_session_None h cond l :
  first_session h cond l = None ->
  forall p s, In p l -> h !! p = Some s -> cond s = false.
Proof.
  induction l as [| q rest IH]; simpl; [intros _ p s [] |].
  destruct (h !! q) as [sq |] eqn:Hq.
  - destruct (cond sq) eqn:Hc; [discriminate |].
    intros H p s [<- | Hin] Hp.
    + rewrite Hq in Hp. now inversion Hp; subst.
    + eapply IH; eauto.
  - intros H p s [<- | Hin] Hp.
    + rewrite Hq in Hp. discriminate.
    + eapply IH; eauto.
Qed.

Lemma first_session_found h cond l :
  (exists p s, In p l /\ h !! p = Some s /\ cond s = true) ->
  exists q, first_session h cond l = Some q.
Proof.
  intros (p & s & Hin & Hp & Hc).
  destruct (first_session h cond l) as [q |] eqn:Hf; [eauto |].
  rewrite (first_session_None _ _ _ Hf p s Hin Hp) in Hc. discriminate.
Qed.

Lemma primary_not_draining s : IsPrimary s = true -> IsDraining s = false.
Proof.
  unfold IsPrimary, IsDraining. intros H.
  apply String.eqb_eq in H. rewrite H. reflexivity.
Qed.

Lemma secondary_not_draining s : IsSecondary s = true -> IsDraining s = false.
Proof.
  unfold IsSecondary, IsDraining. intros H.
  apply String.eqb_eq in H. rewrite H. reflexivity.
Qed.

Lemma no_session_first cm cond :
  ~ has_session cm cond -> first_session (heap cm) cond (sessions cm) = None.
Proof.
  intros Hno.
  destruct (first_session (heap cm) cond (sessions cm)) as [q |] eqn:Hf;
    [| reflexivity].
  destruct (first_session_Some _ _ _ _ Hf) as (Hin & s & Hs & Hc).
  exfalso. apply Hno. exists q, s. auto.
Qed.

Lemma GetCurrent_cases cm :
  GetCurrent cm =
  match first_session (heap cm) healthy_primary (sessions cm) with
  | Some p => Some p
  | None =>
      match first_session (heap cm) healthy_secondary (sessions cm) with
      | Some p => Some p
      | None => first_session (heap cm) healthy_not_draining (sessions cm)
      end
  end.
Proof.
  unfold GetCurrent.
  change (fun s => IsPrimary s && IsHealthy s) with healthy_primary.
  change (fun s => IsSecondary s && IsHealthy s) with healthy_secondary.
  change (fun s => IsHealthy s && negb (IsDraining s)) with healthy_not_draining.
  destruct (first_session (heap cm) healthy_primary (sessions cm)); [reflexivity |].
  destruct (first_session (heap cm) healthy_secondary (sessions cm)); reflexivity.
Qed.

(** C2. [GetCurrent] returns a healthy primary when the slice holds one;
    otherwise a healthy secondary when it holds one; otherwise a healthy
    session that is not draining when it holds one; otherwise nothing.
    Whatever it returns is a session of the slice that is healthy and not
    draining. *)
Theorem GetCurrent_policy (cm : ConnManager) :
  (has_session cm healthy_primary -> current_is cm healthy_primary)
  /\ (~ has_session cm healthy_primary -> has_session cm healthy_secondary ->
      current_is cm healthy_secondary)
  /\ (~ has_session cm healthy_primary -> ~ has_session cm healthy_secondary ->
      has_session cm healthy_not_draining ->
      current_is cm healthy_not_draining)
  /\ (~ has_session cm healthy_not_draining -> GetCurrent cm = None)
  /\ (forall p, GetCurrent cm = Some p ->
      exists s, In p (sessions cm) /\ heap cm !! p = Some s
                /\ IsHealthy s = true /\ IsDraining s = false).
Proof.
  unfold current_is. rewrite GetCurrent_cases.
  split; [| split; [| split; [| split]]].
  - intros Hp. destruct (first_session_found _ _ _ Hp) as [q Hq].
    rewrite Hq. destruct (first_session_Some _ _ _ _ Hq) as (Hin & s & Hs & Hc).
    exists q, s. auto.
  - intros Hnp Hs. rewrite (no_session_first _ _ Hnp).
    destruct (first_session_found _ _ _ Hs) as [q Hq].
    rewrite Hq. destruct (first_session_Some _ _ _ _ Hq) as (Hin & s & Hs' & Hc).
    exists q, s. auto.
  - intros Hnp Hns Hd.
    rewrite (no_session_first _ _ Hnp), (no_session_first _ _ Hns).
    destruct (first_session_found _ _ _ Hd) as [q Hq].
    destruct (first_session_Some _ _ _ _ Hq) as (Hin & s & Hs' & Hc).
    exists q, s. auto.
  - intros Hnone.
    assert (~ has_session cm healthy_primary) as Hnp.
    { intros (p & s & Hin & Hs & Hc). apply Hnone. exists p, s.
      unfold healthy_primary, healthy_not_draining in *.
      apply andb_prop in Hc as [Hr Hh].
      rewrite Hh, (primary_not_draining _ Hr). auto. }
    assert (~ has_session cm healthy_secondary) as Hns.
    { intros (p & s & Hin & Hs & Hc). apply Hnone. exists p, s.
      unfold healthy_secondary, healthy_not_draining in *.
      apply andb_prop in Hc as [Hr Hh].
      rewrite Hh, (secondary_not_draining _ Hr). auto. }
    rewrite (no_session_first _ _ Hnp), (no_session_first _ _ Hns).
    apply no_session_first. exact Hnone.
  - intros p Hp.
    destruct (first_session (heap cm) healthy_primary (sessions cm)) as [q |] eqn:H1.
    { inversion Hp; subst q.
      destruct (first_session_Some _ _ _ _ H1) as (Hin & s & Hs & Hc).
      apply andb_prop in Hc as [Hr Hh].
      exists s. auto using primary_not_draining. }
    destruct (first_session (heap cm) healthy_secondary (sessions cm)) as [q |] eqn:H2.
    { inversion Hp; subst q.
      destruct (first_session_Some _ _ _ _ H2) as (Hin & s & Hs & Hc).
      apply andb_prop in Hc as [Hr Hh].
      exists s. auto using secondary_not_draining. }
    destruct (first_session_Some _ _ _ _ Hp) as (Hin & s & Hs & Hc).
    apply andb_prop in Hc as [Hh Hd].
    exists s. repeat split; auto. now apply negb_true_iff in Hd.
Qed.

(** A draining session, a secondary and a primary, all healthy: the primary
    is the current session although it comes last in the slice. *)
Lemma GetCurrent_policy_witness :
  current_is
    (mkConnManager (mkRotation 0 0 0)
       (<[2%nat := mkSession "c" 0 RolePrimary 0 true 0 false false]>
        (<[1%nat := mkSession "b" 0 RoleSecondary 0 true 0 false false]>
         (<[0%nat := mkSession "a" 0 RoleDraining 0 true 0 false false]> ∅)))
       [0%nat; 1%nat; 2%nat] newLaunchState false)
    healthy_primary.
Proof.
  apply (proj1 (GetCurrent_policy _)).
  exists 2%nat, (mkSession "c" 0 RolePrimary 0 true 0 false false).
  repeat split; simpl; auto.
Defined.

End Dispatch.

(** ** Launch gating *)

Section LaunchGating.
Import Manager.

Lemma wrap64_small (z : Z) : - 2 ^ 63 <= z < 2 ^ 63 -> wrap64 z = z.
Proof.
  intros H. unfold wrap64.
  rewrite Z.mod_small by lia. lia.
Qed.

Lemma scaled_cooldown (f k : Z) :
  0 <= f <= 900000000 -> 0 <= k <= 10 ->
  wrap64 (wrap64 (f * k) * Second) = f * k * Second.
Proof.
  intros Hf Hk. unfold Second, Millisecond.
  assert (0 <= f * k <= 9000000000) by nia.
  rewrite (wrap64_small (f * k)) by lia.
  rewrite wrap64_small by lia. reflexivity.
Qed.

(** C4, as the code has it.  A primary launch is permitted exactly when none
    is in flight and the time since the last launch attempt is at least the
    cooldown: 5 s, or [failedAttempts] x 10 s once [failedAttempts] exceeds
    2.  A secondary launch likewise with 2 s and [failedAttempts] x 5 s.  A
    permitted launch marks its kind as in flight and records the attempt
    time; a refused one leaves the state alone.  [clearLaunchState] with
    success sets [failedAttempts] to 0, with failure adds 1 to it. *)
Theorem launch_gating (ls : LaunchState) (now : Z) :
  0 <= failedAttempts ls <= 900000000 ->
  let f := failedAttempts ls in
  let elapsed := Since now (lastLaunchAttempt ls) in
  (fst (canLaunchPrimary ls now) = true <->
     launchingPrimary ls = false
     /\ (if 2 <? f then f * 10 * Second else 5 * Second) <= elapsed)
  /\ (fst (canLaunchSecondary ls now) = true <->
     launchingSecondary ls = false
     /\ (if 2 <? f then f * 5 * Second else 2 * Second) <= elapsed)
  /\ snd (canLaunchPrimary ls now)
     = (if fst (canLaunchPrimary ls now)
        then mkLaunchState true (launchingSecondary ls) now f else ls)
  /\ snd (canLaunchSecondary ls now)
     = (if fst (canLaunchSecondary ls now)
        then mkLaunchState (launchingPrimary ls) true now f else ls)
  /\ (forall isPrimary, failedAttempts (clearLaunchState ls isPrimary true) = 0)
  /\ (forall isPrimary, failedAttempts (clearLaunchState ls isPrimary false) = f + 1).
Proof.
  intros Hf f elapsed. subst f elapsed.
  unfold canLaunchPrimary, canLaunchSecondary.
  rewrite Z.gtb_ltb.
  destruct (Z.ltb_spec 2 (failedAttempts ls)) as [Hgt | Hle].
  - rewrite !scaled_cooldown by lia.
    destruct (launchingPrimary ls), (launchingSecondary ls);
      repeat match goal with
             | |- context [?a <? ?b] => destruct (Z.ltb_spec a b)
             end; simpl;
      repeat split; intros; try discriminate; try lia; auto;
      try (destruct H1; first [discriminate | lia]);
      try (destruct H2; first [discriminate | lia]);
      try (destruct isPrimary; simpl; try reflexivity; apply wrap64_small; lia).
  - destruct (launchingPrimary ls), (launchingSecondary ls);
      repeat match goal with
             | |- context [?a <? ?b] => destruct (Z.ltb_spec a b)
             end; simpl;
      repeat split; intros; try discriminate; try lia; auto;
      try (destruct H1; first [discriminate | lia]);
      try (destruct H2; first [discriminate | lia]);
      try (destruct isPrimary; simpl; try reflexivity; apply wrap64_small; lia).
Qed.

(** Three failures, last attempt at time 0: at 30 s a primary launch is
    permitted, and the failure count after a failed attempt is 4. *)
Lemma launch_gating_witness :
  fst (canLaunchPrimary (mkLaunchState false false 0 3) (30 * Second)) = true
  /\ failedAttempts (clearLaunchState (mkLaunchState false false 0 3) true false) = 4.
Proof.
  pose proof (launch_gating (mkLaunchState false false 0 3) (30 * Second)
                ltac:(simpl; lia)) as H.
  simpl in H. destruct H as (Hp & _ & _ & _ & _ & Hfail).
  split.
  - apply Hp. split; [reflexivity |]. vm_compute. discriminate.
  - apply (Hfail true).
Defined.

(** C4 as stated fails: with three failures, 20 s after the last attempt
    the primary cooldown of 5 s x 3 has elapsed but the launch is refused;
    10 s after it the secondary cooldown of 2 s x 3 has elapsed but the
    launch is refused. *)
Lemma cooldown_is_not_base_times_failures :
  (5 * Second * 3 <= Since (20 * Second) 0
   /\ fst (canLaunchPrimary (mkLaunchState false false 0 3) (20 * Second)) = false)
  /\ (2 * Second * 3 <= Since (10 * Second) 0
   /\ fst (canLaunchSecondary (mkLaunchState false false 0 3) (10 * Second)) = false).
Proof.
  repeat split; vm_compute; try reflexivity; discriminate.
Qed.

End LaunchGating.

(** ** Keepalive *)

Section KeepaliveLoop.
Import Wire Control Manager Keepalive.





End KeepaliveLoop.

(** ** Waiting for the worker's answer *)

Section AwaitReply.
Import Manager Coordinator.

Variable get : Z -> string -> get_result.
Variable latency : Z -> Z.
Variable cancel : option Z.

Hypothesis latency_nonneg : forall t, 0 <= latency t.

Lemma response_key (sessionID : string) :
  Sprintf_s ResponseKeyPattern sessionID
  = ("punch-response/" ++ sessionID ++ ".json")%string.
Proof. reflexivity. Qed.

(** What one run of the loop adds to the fetches made before it. *)
Lemma poll_adds fuel key deadline : forall now fetches res out,
  poll get latency cancel fuel key deadline now fetches = (res, out) ->
  exists new,
    out = fetches ++ new
    /\ polled_from latency key now new
    /\ Forall (fun f => fetch_time f < deadline) new
    /\ (forall r, res = Response r ->
        exists t, last new = Some (mkFetch t key)
                  /\ get t key = GetObject (Some r))
    /\ (res = TimeoutErr -> Forall (undecoded get) new)
    /\ (cancel = None -> res <> CtxErr).
Proof.
  induction fuel as [| fuel IH]; intros now fetches res out; simpl.
  - intros [= <- <-]. exists []. rewrite app_nil_r.
    repeat split; auto; try discriminate.
  - destruct (Z.ltb_spec now deadline) as [Hlt | Hge]; simpl.
    2:{ intros [= <- <-]. exists []. rewrite app_nil_r.
        repeat split; auto; try discriminate. }
    destruct (ctx_done cancel now) eqn:Hc0.
    { intros [= <- <-]. exists []. rewrite app_nil_r.
      repeat split; auto; try discriminate.
      intros ->. discriminate Hc0. }
    assert (forall g, (forall r, g <> GetObject (Some r)) ->
              get now key = g ->
              (if ctx_done cancel (now + latency now + ResponsePollInterval)
               then (CtxErr, fetches ++ [mkFetch now key])
               else poll get latency cancel fuel key deadline
                      (now + latency now + ResponsePollInterval)
                      (fetches ++ [mkFetch now key])) = (res, out) ->
              exists new,
                out = fetches ++ new
                /\ polled_from latency key now new
                /\ Forall (fun f => fetch_time f < deadline) new
                /\ (forall r, res = Response r ->
                    exists t, last new = Some (mkFetch t key)
                              /\ get t key = GetObject (Some r))
                /\ (res = TimeoutErr -> Forall (undecoded get) new)
                /\ (cancel = None -> res <> CtxErr)) as Hgo.
    { intros g Hg Hget.
      destruct (ctx_done cancel (now + latency now + ResponsePollInterval)) eqn:Hc1.
      - intros [= <- <-]. exists [mkFetch now key].
        repeat split; auto; try discriminate.
        intros ->. discriminate Hc1.
      - intros Hp. destruct (IH _ _ _ _ Hp) as (new & -> & Hfrom & Hdl & Hresp & Hto & Hctx).
        exists (mkFetch now key :: new). rewrite <- app_assoc.
        repeat split; auto.
        + intros r Hr. destruct (Hresp r Hr) as (t & Hlast & Hgt).
          exists t. split; [| exact Hgt].
          destruct new as [| f new']; [discriminate Hlast | exact Hlast].
        + intros Hr. constructor; [| auto].
          intros r. cbn. rewrite Hget. apply Hg. }
    destruct (get now key) as [[response |] | code] eqn:Hget.
    + intros [= <- <-]. exists [mkFetch now key].
      repeat split; auto; try discriminate.
      intros r [= <-]. exists now. auto.
    + apply (Hgo (GetObject None)); [discriminate | reflexivity].
    + apply (Hgo (GetError code)); [discriminate | reflexivity].
Qed.

Lemma polls_succ (key : string) (now : Z) (n : nat) :
  polls latency key now (S n)
  = mkFetch now key
    :: polls latency key (now + latency now + ResponsePollInterval) n.
Proof.
  unfold polls. cbn [seq map poll_time]. f_equal.
  rewrite <- seq_shift, List.map_map. reflexivity.
Qed.

Lemma poll_time_mono (k : nat) : forall (now : Z) (j : nat),
  (j <= k)%nat -> poll_time latency now j <= poll_time latency now k.
Proof.
  assert (0 < ResponsePollInterval) as Hpos by reflexivity.
  assert (forall k now, now <= poll_time latency now k) as Hle.
  { clear k. induction k as [| k IH]; intros now; cbn [poll_time]; [lia |].
    pose proof (IH (now + latency now + ResponsePollInterval)).
    pose proof (latency_nonneg now). lia. }
  induction k as [| k IH]; intros now j Hj.
  - replace j with 0%nat by lia. lia.
  - destruct j as [| j]; cbn [poll_time].
    + pose proof (Hle k (now + latency now + ResponsePollInterval)).
      pose proof (latency_nonneg now). lia.
    + apply IH. lia.
Qed.

(** The loop, round by round: the fetches it adds are those of its first
    [n] rounds, each made before the deadline with the context not done,
    and the result is the one these rounds lead to. *)
Lemma poll_exact fuel key deadline : forall now fetches,
  let res := fst (poll get latency cancel fuel key deadline now fetches) in
  let out := snd (poll get latency cancel fuel key deadline now fetches) in
  exists n,
    out = fetches ++ polls latency key now n
    /\ (forall j, (j < n)%nat ->
          poll_time latency now j < deadline
          /\ ctx_done cancel (poll_time latency now j) = false)
    /\ (res = OutOfFuel
        \/ returned_after get (ctx_done cancel) key deadline
             (poll_time latency now) res n).
Proof.
  induction fuel as [| fuel IH]; intros now fetches; cbv zeta.
  - exists 0%nat. cbn. rewrite app_nil_r.
    split; [reflexivity |]. split; [intros j Hj; lia | left; reflexivity].
  - cbn [poll].
    destruct (Z.ltb_spec now deadline) as [Hlt | Hge]; cbn [negb].
    2:{ exists 0%nat. cbn. rewrite app_nil_r.
        split; [reflexivity |]. split; [intros j Hj; lia |].
        right. split; [exact Hge |]. split; [left; reflexivity |].
        intros j Hj; lia. }
    destruct (ctx_done cancel now) eqn:Hc0.
    { exists 0%nat. cbn. rewrite app_nil_r.
      split; [reflexivity |]. split; [intros j Hj; lia |].
      right. split; [exact Hc0 |]. split; [intros _; exact Hlt |].
      intros j Hj; lia. }
    cbv zeta.
    set (now' := now + latency now + ResponsePollInterval).
    assert ((forall r, get now key <> GetObject (Some r)) ->
            let p := if ctx_done cancel now'
                     then (CtxErr, fetches ++ [mkFetch now key])
                     else poll get latency cancel fuel key deadline now'
                            (fetches ++ [mkFetch now key]) in
            exists n,
              snd p = fetches ++ polls latency key now n
              /\ (forall j, (j < n)%nat ->
                    poll_time latency now j < deadline
                    /\ ctx_done cancel (poll_time latency now j) = false)
              /\ (fst p = OutOfFuel
                  \/ returned_after get (ctx_done cancel) key deadline
                       (poll_time latency now) (fst p) n)) as Hgo.
    { intros Hund. cbv zeta.
      assert (forall j, (j < 1)%nat ->
                poll_time latency now j < deadline
                /\ ctx_done cancel (poll_time latency now j) = false) as H1.
      { intros j Hj. replace j with 0%nat by lia. cbn. auto. }
      assert (undecoded get (mkFetch now key)) as Hu.
      { intros r. cbn. apply Hund. }
      destruct (ctx_done cancel now') eqn:Hc1.
      - exists 1%nat. cbn [fst snd]. split; [reflexivity |].
        split; [exact H1 |]. right.
        split; [exact Hc1 |]. split; [intros [=] |].
        intros j Hj. replace j with 0%nat by lia. exact Hu.
      - destruct (IH now' (fetches ++ [mkFetch now key])) as (n & Hout & Hbefore & Hres).
        exists (S n). split.
        + rewrite Hout, polls_succ, <- app_assoc. reflexivity.
        + split.
          * intros [| j] Hj; [apply (H1 0%nat); lia |].
            cbn [poll_time]. apply Hbefore. lia.
          * destruct Hres as [Hres | Hres]; [left; exact Hres | right].
            destruct (fst (poll get latency cancel fuel key deadline now'
                             (fetches ++ [mkFetch now key]))) as [r | | |];
              cbn [returned_after] in *.
            -- destruct Hres as (m & -> & Hget & Hbefore').
               exists (S m). split; [reflexivity |]. split; [exact Hget |].
               intros [| j] Hj; [exact Hu | apply Hbefore'; lia].
            -- destruct Hres as (Hc & Hlt' & Hbefore').
               split; [exact Hc |].
               split; [intros [=] |].
               intros [| j] Hj; [exact Hu | apply Hbefore'; lia].
            -- destruct Hres as (Hdl & Hc & Hbefore').
               split; [exact Hdl |].
               split.
               ++ right. destruct Hc as [-> | Hc]; [exact Hc1 | exact Hc].
               ++ intros [| j] Hj; [exact Hu | apply Hbefore'; lia].
            -- contradiction. }
    destruct (get now key) as [[response |] | code] eqn:Hget.
    + exists 1%nat. cbn [fst snd]. split; [reflexivity |].
      split.
      * intros j Hj. replace j with 0%nat by lia. cbn. auto.
      * right. exists 0%nat. split; [reflexivity |].
        split; [exact Hget |]. intros j Hj; lia.
    + apply Hgo. intros r. discriminate.
    + apply Hgo. intros r. discriminate.
Qed.

(** The loop returns within the rounds it is given. *)
Lemma poll_returns fuel key deadline : forall now fetches,
  (1 <= fuel)%nat ->
  deadline - now <= (Z.of_nat fuel - 1) * ResponsePollInterval ->
  fst (poll get latency cancel fuel key deadline now fetches) <> OutOfFuel.
Proof.
  induction fuel as [| fuel IH]; intros now fetches Hfuel Hbound; [lia |].
  simpl.
  destruct (Z.ltb_spec now deadline) as [Hlt | Hge]; simpl; [| discriminate].
  destruct (ctx_done cancel now); [discriminate |].
  assert (0 < ResponsePollInterval) as Hpos by reflexivity.
  assert (1 <= fuel)%nat as Hfuel'.
  { destruct fuel; [| lia]. simpl in Hbound. lia. }
  assert (fst (if ctx_done cancel (now + latency now + ResponsePollInterval)
               then (CtxErr, fetches ++ [mkFetch now key])
               else poll get latency cancel fuel key deadline
                      (now + latency now + ResponsePollInterval)
                      (fetches ++ [mkFetch now key])) <> OutOfFuel) as Hgo.
  { destruct (ctx_done cancel (now + latency now + ResponsePollInterval));
      [discriminate |].
    apply IH; [exact Hfuel' |].
    pose proof (latency_nonneg now). nia. }
  destruct (get now key) as [[response |] | code]; [discriminate | exact Hgo | exact Hgo].
Qed.

Lemma rounds_suffice (timeout : Z) :
  timeout <= (Z.of_nat (rounds timeout) - 1) * ResponsePollInterval.
Proof.
  unfold rounds.
  assert (0 < ResponsePollInterval) as Hpos by reflexivity.
  destruct (Z.le_gt_cases 0 timeout) as [Hnn | Hneg].
  - rewrite Nat2Z.inj_add, Z2Nat.id by (apply Z.div_pos; lia).
    pose proof (Z.mod_pos_bound timeout ResponsePollInterval Hpos).
    pose proof (Z.div_mod timeout ResponsePollInterval ltac:(lia)).
    nia.
  - assert (timeout / ResponsePollInterval < 0) by (apply Z.div_lt_upper_bound; lia).
    rewrite Z2Nat.nonpos by lia. simpl. lia.
Qed.

(** The fetches of a call and what its result says of them. *)
Lemma await_reply_fetches (sessionID : string) (timeout now : Z) :
  let res := fst (WaitForLambdaResponse get latency cancel sessionID timeout now) in
  let fetches := snd (WaitForLambdaResponse get latency cancel sessionID timeout now) in
  let key := ("punch-response/" ++ sessionID ++ ".json")%string in
  res <> OutOfFuel
  /\ polled_from latency key now fetches
  /\ ResponsePollInterval = 500 * Millisecond
  /\ Forall (fun f => fetch_time f < now + timeout) fetches
  /\ (forall r, res = Response r ->
      exists t, last fetches = Some (mkFetch t key)
                /\ get t key = GetObject (Some r))
  /\ (cancel = None -> (res = TimeoutErr <-> Forall (undecoded get) fetches)).
Proof.
  intros res fetches key. subst res fetches key.
  unfold WaitForLambdaResponse. rewrite response_key.
  set (key := ("punch-response/" ++ sessionID ++ ".json")%string).
  destruct (poll get latency cancel (rounds timeout) key (now + timeout) now [])
    as [res out] eqn:Hp.
  pose proof (poll_returns (rounds timeout) key (now + timeout) now []
                ltac:(unfold rounds; lia)
                ltac:(pose proof (rounds_suffice timeout); lia)) as Htotal.
  rewrite Hp in Htotal. simpl in Htotal.
  destruct (poll_adds _ _ _ _ _ _ _ Hp) as (new & Hout & Hfrom & Hdl & Hresp & Hto & Hctx).
  simpl in Hout. subst out. simpl.
  repeat split; auto.
  intros Hund.
  destruct res as [r | | |]; try reflexivity.
  - destruct (Hresp r eq_refl) as (t & Hlast & Hget).
    apply last_Some in Hlast as [pre ->].
    apply Forall_app in Hund as [_ Hund]. inversion Hund as [| ? ? Hf _]; subst.
    exfalso. apply (Hf r). exact Hget.
  - exfalso. apply Hctx; auto.
  - contradiction.
Qed.

(** The rounds of a call: the fetches are those of the first [n] rounds,
    and the result is the one these rounds lead to. *)
Lemma await_reply_exact (sessionID : string) (timeout now : Z) :
  let res := fst (WaitForLambdaResponse get latency cancel sessionID timeout now) in
  let fetches := snd (WaitForLambdaResponse get latency cancel sessionID timeout now) in
  let key := ("punch-response/" ++ sessionID ++ ".json")%string in
  exists n,
    fetches = polls latency key now n
    /\ (forall j, (j < n)%nat ->
          poll_time latency now j < now + timeout
          /\ ctx_done cancel (poll_time latency now j) = false)
    /\ returned_after get (ctx_done cancel) key (now + timeout)
         (poll_time latency now) res n.
Proof.
  cbv zeta.
  pose proof (proj1 (await_reply_fetches sessionID timeout now)) as Htotal.
  cbv zeta in Htotal. revert Htotal.
  unfold WaitForLambdaResponse. rewrite response_key.
  set (key := ("punch-response/" ++ sessionID ++ ".json")%string).
  intros Htotal.
  destruct (poll_exact (rounds timeout) key (now + timeout) now [])
    as (n & Hout & Hbefore & Hres).
  exists n. split; [exact Hout |]. split; [exact Hbefore |].
  destruct Hres as [Hres | Hres]; [contradiction | exact Hres].
Qed.

(** Two results that the same rounds lead to are the same result after the
    same number of fetches. *)
Lemma returned_unique (key : string) (deadline now : Z)
      (res1 res2 : wait_result) (n1 n2 : nat) :
  (forall j, (j < n1)%nat ->
     poll_time latency now j < deadline
     /\ ctx_done cancel (poll_time latency now j) = false) ->
  returned_after get (ctx_done cancel) key deadline (poll_time latency now) res1 n1 ->
  (forall j, (j < n2)%nat ->
     poll_time latency now j < deadline
     /\ ctx_done cancel (poll_time latency now j) = false) ->
  returned_after get (ctx_done cancel) key deadline (poll_time latency now) res2 n2 ->
  res1 = res2 /\ n1 = n2.
Proof.
  set (t := poll_time latency now).
  intros B1 R1 B2 R2.
  destruct res1 as [r1 | | |], res2 as [r2 | | |];
    cbn [returned_after] in R1, R2; try contradiction.
  - (* answer, answer *)
    destruct R1 as (m1 & -> & G1 & U1), R2 as (m2 & -> & G2 & U2).
    destruct (lt_eq_lt_dec m1 m2) as [[Hlt | ->] | Hgt].
    + exfalso. apply (U2 m1 Hlt r1). exact G1.
    + rewrite G1 in G2. injection G2 as ->. auto.
    + exfalso. apply (U1 m2 Hgt r2). exact G2.
  - (* answer, context *)
    exfalso. destruct R1 as (m1 & -> & G1 & U1), R2 as (D2 & _ & U2).
    destruct (Nat.lt_ge_cases m1 n2) as [Hlt | Hge].
    + apply (U2 m1 Hlt r1). exact G1.
    + destruct (B1 n2 ltac:(lia)) as [_ Hn]. fold t in Hn. congruence.
  - (* answer, timeout *)
    exfalso. destruct R1 as (m1 & -> & G1 & U1), R2 as (D2 & _ & U2).
    destruct (Nat.lt_ge_cases m1 n2) as [Hlt | Hge].
    + apply (U2 m1 Hlt r1). exact G1.
    + destruct (B1 n2 ltac:(lia)) as [Hn _]. fold t in Hn. lia.
  - (* context, answer *)
    exfalso. destruct R2 as (m2 & -> & G2 & U2), R1 as (D1 & _ & U1).
    destruct (Nat.lt_ge_cases m2 n1) as [Hlt | Hge].
    + apply (U1 m2 Hlt r2). exact G2.
    + destruct (B2 n1 ltac:(lia)) as [_ Hn]. fold t in Hn. congruence.
  - (* context, context *)
    destruct R1 as (D1 & _ & _), R2 as (D2 & _ & _).
    destruct (lt_eq_lt_dec n1 n2) as [[Hlt | ->] | Hgt]; [| auto |].
    + exfalso. destruct (B2 n1 Hlt) as [_ Hn]. fold t in Hn. congruence.
    + exfalso. destruct (B1 n2 Hgt) as [_ Hn]. fold t in Hn. congruence.
  - (* context, timeout *)
    exfalso. destruct R1 as (D1 & Z1 & _), R2 as (D2 & Z2 & _).
    destruct (lt_eq_lt_dec n1 n2) as [[Hlt | ->] | Hgt].
    + destruct (B2 n1 Hlt) as [_ Hn]. fold t in Hn. congruence.
    + destruct Z2 as [-> | Z2]; [specialize (Z1 eq_refl); lia | congruence].
    + destruct (B1 n2 Hgt) as [Hn _]. fold t in Hn. lia.
  - (* timeout, answer *)
    exfalso. destruct R2 as (m2 & -> & G2 & U2), R1 as (D1 & _ & U1).
    destruct (Nat.lt_ge_cases m2 n1) as [Hlt | Hge].
    + apply (U1 m2 Hlt r2). exact G2.
    + destruct (B2 n1 ltac:(lia)) as [Hn _]. fold t in Hn. lia.
  - (* timeout, context *)
    exfalso. destruct R2 as (D2 & Z2 & _), R1 as (D1 & Z1 & _).
    destruct (lt_eq_lt_dec n2 n1) as [[Hlt | ->] | Hgt].
    + destruct (B1 n2 Hlt) as [_ Hn]. fold t in Hn. congruence.
    + destruct Z1 as [-> | Z1]; [specialize (Z2 eq_refl); lia | congruence].
    + destruct (B2 n1 Hgt) as [Hn _]. fold t in Hn. lia.
  - (* timeout, timeout *)
    destruct R1 as (D1 & _ & _), R2 as (D2 & _ & _).
    destruct (lt_eq_lt_dec n1 n2) as [[Hlt | ->] | Hgt]; [| auto |].
    + exfalso. destruct (B2 n1 Hlt) as [Hn _]. fold t in Hn. lia.
    + exfalso. destruct (B1 n2 Hgt) as [Hn _]. fold t in Hn. lia.
Qed.

(** C5, as the code has it.  [WaitForLambdaResponse] always returns.  Every
    fetch it makes asks for the key [punch-response/{session_id}.json]; the
    first is made at once and each next one 500 ms after the call before it
    has returned, all before the deadline.  It returns the decoded answer of
    the first fetch that finds an object that decodes, and unless the
    context is cancelled it fails with the timeout error exactly when no
    fetch made before the deadline found one.

    Round by round, [t k] being the time at which round [k] starts: the
    fetches made are those of the rounds [0 .. n-1] for some [n], each
    started before the deadline with the context not done, and the result
    is an answer only if the last of them found it and none before did, the
    timeout error only if round [n] starts at or after the deadline, the
    context's error only if the context is done when round [n] starts.
    With the deadline ahead and the context not done, the first fetch is
    made at once.  Whenever round [k] starts before the deadline, the
    context is not done up to then, no earlier fetch found an answer and
    the fetch of round [k] finds one, that answer is returned after [k+1]
    fetches.  Whenever the first [n] fetches find no answer, round [n]
    starts at or after the deadline and the context is not done up to then,
    the timeout error is returned after [n] fetches.  Whenever the
    context is done at the start of round [n], and not before, and the
    first [n] fetches were made before the deadline and found no answer,
    the context's error is returned after [n] fetches. *)
Theorem await_reply_polls (sessionID : string) (timeout now : Z) :
  let res := fst (WaitForLambdaResponse get latency cancel sessionID timeout now) in
  let fetches := snd (WaitForLambdaResponse get latency cancel sessionID timeout now) in
  let key := ("punch-response/" ++ sessionID ++ ".json")%string in
  let t := poll_time latency now in
  let deadline := now + timeout in
  res <> OutOfFuel
  /\ polled_from latency key now fetches
  /\ ResponsePollInterval = 500 * Millisecond
  /\ Forall (fun f => fetch_time f < now + timeout) fetches
  /\ (forall r, res = Response r ->
      exists t, last fetches = Some (mkFetch t key)
                /\ get t key = GetObject (Some r))
  /\ (cancel = None -> (res = TimeoutErr <-> Forall (undecoded get) fetches))
  /\ (exists n,
        fetches = polls latency key now n
        /\ (forall j, (j < n)%nat ->
              t j < deadline /\ ctx_done cancel (t j) = false)
        /\ returned_after get (ctx_done cancel) key deadline t res n)
  /\ (0 < timeout -> ctx_done cancel now = false ->
      exists rest, fetches = mkFetch now key :: rest)
  /\ (forall (k : nat) (r : LambdaResponse),
        t k < deadline ->
        (forall j, (j <= k)%nat -> ctx_done cancel (t j) = false) ->
        (forall j, (j < k)%nat -> undecoded get (mkFetch (t j) key)) ->
        get (t k) key = GetObject (Some r) ->
        res = Response r /\ fetches = polls latency key now (S k))
  /\ (forall n : nat,
        deadline <= t n ->
        (forall j, (j < n)%nat ->
           t j < deadline /\ undecoded get (mkFetch (t j) key)) ->
        (forall j, (j <= n)%nat -> ctx_done cancel (t j) = false) ->
        res = TimeoutErr /\ fetches = polls latency key now n)
  /\ (forall n : nat,
        ctx_done cancel (t n) = true ->
        (n = O -> now < deadline) ->
        (forall j, (j < n)%nat ->
           t j < deadline /\ ctx_done cancel (t j) = false
           /\ undecoded get (mkFetch (t j) key)) ->
        res = CtxErr /\ fetches = polls latency key now n).
Proof.
  intros res fetches key t deadline.
  destruct (await_reply_fetches sessionID timeout now)
    as (H1 & H2 & H3 & H4 & H5 & H6).
  destruct (await_reply_exact sessionID timeout now) as (n0 & Hout & Hbefore & Hres).
  fold res fetches key in H1, H2, H4, H5, H6, Hout, Hres.
  fold key t deadline in Hbefore. fold t deadline in Hres.
  assert (forall j k : nat, (j <= k)%nat -> t j <= t k) as Hmono.
  { intros j k Hjk. apply poll_time_mono. exact Hjk. }
  split; [exact H1 |]. split; [exact H2 |]. split; [exact H3 |].
  split; [exact H4 |]. split; [exact H5 |]. split; [exact H6 |].
  split; [exists n0; auto |].
  split; [| split; [| split]].
  - (* the first fetch *)
    intros Htimeout Hc.
    destruct n0 as [| n0].
    + exfalso. destruct res as [r | | |]; cbn [returned_after] in Hres.
      * destruct Hres as (m & [=] & _).
      * destruct Hres as (Hd & _). change (t 0%nat) with now in Hd. congruence.
      * destruct Hres as (Hd & _). change (t 0%nat) with now in Hd.
        unfold deadline in Hd. lia.
      * contradiction.
    + rewrite Hout, polls_succ. eauto.
  - (* an answer within the deadline *)
    intros k r Hk Hc Hu Hget.
    destruct (returned_unique key deadline now res (Response r) n0 (S k)
                Hbefore Hres) as [-> ->].
    + intros j Hj. split; [| apply Hc; lia].
      pose proof (Hmono j k ltac:(lia)). fold t. lia.
    + exists k. auto.
    + split; [reflexivity | exact Hout].
  - (* the deadline *)
    intros n Hd Hu Hc.
    destruct (returned_unique key deadline now res TimeoutErr n0 n
                Hbefore Hres) as [-> ->].
    + intros j Hj. split; [apply Hu; exact Hj | apply Hc; lia].
    + split; [exact Hd |]. split; [right; apply Hc; lia |].
      intros j Hj. apply Hu. exact Hj.
    + split; [reflexivity | exact Hout].
  - (* the context *)
    intros n Hc H0 Hu.
    destruct (returned_unique key deadline now res CtxErr n0 n
                Hbefore Hres) as [-> ->].
    + intros j Hj. destruct (Hu j Hj) as (? & ? & ?). auto.
    + split; [exact Hc |]. split; [intros ->; apply H0; reflexivity |].
      intros j Hj. apply Hu. exact Hj.
    + split; [reflexivity | exact Hout].
Qed.

End AwaitReply.

Section AwaitReplyExamples.
Import Manager Coordinator.

(** The answer is found by the third fetch, at 1.2 s. *)
Lemma await_reply_polls_witness :
  WaitForLambdaResponse store_after_1200ms (fun _ => 100 * Millisecond) None
    "0123456789abcdef" (10 * Second) 0
  = (Response a_reply,
     map (fun t => mkFetch t "punch-response/0123456789abcdef.json")
         [0; 600 * Millisecond; 1200 * Millisecond])
  /\ fst (WaitForLambdaResponse store_after_1200ms (fun _ => 100 * Millisecond)
            None "0123456789abcdef" (10 * Second) 0) <> OutOfFuel.
Proof.
  split; [vm_compute; reflexivity |].
  apply (proj1 (await_reply_polls store_after_1200ms (fun _ => 100 * Millisecond)
                  None ltac:(intros; vm_compute; discriminate)
                  "0123456789abcdef" (10 * Second) 0)).
Defined.

(** C5 as stated fails: the key fetched is not [reply/{session_id}.json],
    and an answer stored under that key is never found. *)
Lemma reply_key_is_not_polled :
  snd (WaitForLambdaResponse store_after_1200ms (fun _ => 100 * Millisecond)
         None "0123456789abcdef" (1 * Second) 0)
  = [mkFetch 0 "punch-response/0123456789abcdef.json";
     mkFetch (600 * Millisecond) "punch-response/0123456789abcdef.json"]
  /\ fst (WaitForLambdaResponse store_under_reply (fun _ => 0) None
            "0123456789abcdef" (10 * Second) 0) = TimeoutErr.
Proof. split; vm_compute; reflexivity. Qed.

End AwaitReplyExamples.

(** ** Reading the CONNECT request *)

Section ConnectRequest.
Import Wire Socks5Target SessionID Proxy.

Lemma buffer_size : Z.of_nat OptimizedBufferSize = 32768.
Proof. reflexivity. Qed.

Lemma Read_length (buf data buf' : list Z) :
  Read buf data = Ret buf' -> List.length buf' = List.length buf.
Proof.
  unfold Read. destruct data as [| b data]; [discriminate |].
  intros [= <-]. rewrite List.length_app, List.length_firstn, List.length_skipn.
  cbn [List.length]. lia.
Qed.

Lemma Read_not_panic (buf data : list Z) : Read buf data <> Panic.
Proof. unfold Read. destruct data; discriminate. Qed.

Lemma index_ok (buf : list Z) (i : Z) :
  0 <= i < Z.of_nat (List.length buf) ->
  index buf i = Ret (nth (Z.to_nat i) buf 0).
Proof.
  intros H. unfold index.
  destruct (Z.leb_spec 0 i); [| lia].
  destruct (Z.ltb_spec i (Z.of_nat (List.length buf))); [reflexivity | lia].
Qed.

Lemma slice_ok (buf : list Z) (lo hi : Z) :
  0 <= lo <= hi -> hi <= Z.of_nat (List.length buf) ->
  slice buf lo hi = Ret (firstn (Z.to_nat (hi - lo)) (skipn (Z.to_nat lo) buf)).
Proof.
  intros H1 H2. unfold slice.
  destruct (Z.leb_spec 0 lo); [| lia].
  destruct (Z.leb_spec lo hi); [| lia].
  destruct (Z.leb_spec hi (Z.of_nat (List.length buf))); [reflexivity | lia].
Qed.

Lemma slice_reversed (buf : list Z) (lo hi : Z) :
  hi < lo -> slice buf lo hi = Panic.
Proof.
  intros H. unfold slice.
  destruct (Z.leb_spec lo hi); [lia |].
  rewrite andb_false_r. reflexivity.
Qed.

Lemma Uint16_of_two (buf : list Z) (lo : Z) :
  0 <= lo -> lo + 2 <= Z.of_nat (List.length buf) ->
  exists v, Uint16 (firstn (Z.to_nat (lo + 2 - lo)) (skipn (Z.to_nat lo) buf)) = Ret v.
Proof.
  intros H0 H2.
  replace (lo + 2 - lo) with 2 by lia.
  assert (2 <= List.length (skipn (Z.to_nat lo) buf))%nat as Hlen
    by (rewrite List.length_skipn; lia).
  destruct (skipn (Z.to_nat lo) buf) as [| a [| b rest]]; simpl in Hlen; try lia.
  unfold Uint16. simpl. eauto.
Qed.

(** On a buffer of the handlers' size holding bytes, the parse panics
    exactly for a domain-name request whose length byte is 249 or more. *)
Lemma parseTarget_panics (buf : list Z) :
  List.length buf = OptimizedBufferSize -> Forall is_byte buf ->
  (parseTarget buf = Panic <-> nth 3 buf 0 = 3 /\ 249 <= nth 4 buf 0).
Proof.
  intros Hlen Hbytes.
  assert (Z.of_nat (List.length buf) = 32768) as HlenZ
    by (rewrite Hlen; apply buffer_size).
  assert (0 <= nth 4 buf 0 < 256) as Hd.
  { rewrite List.Forall_forall in Hbytes. apply Hbytes, nth_In.
    rewrite Hlen. unfold OptimizedBufferSize. lia. }
  unfold parseTarget.
  rewrite !index_ok by lia.
  change (Z.to_nat 3) with 3%nat. change (Z.to_nat 4) with 4%nat.
  unfold mbind, outcome_bind, bind at 1.
  unfold SOCKS5IPv4, SOCKS5DomainName.
  destruct (Z.eqb_spec (nth 3 buf 0) 1) as [H1 | H1].
  - (* IPv4 *)
    unfold bind.
    rewrite (slice_ok buf 8 10) by lia.
    destruct (Uint16_of_two buf 8 ltac:(lia) ltac:(lia)) as [v Hv].
    change (8 + 2 - 8) with (10 - 8) in Hv. rewrite Hv.
    split; [discriminate | lia].
  - destruct (Z.eqb_spec (nth 3 buf 0) 3) as [H3 | H3].
    2:{ split; [discriminate | intros [? _]; contradiction]. }
    unfold bind at 1. set (d := nth 4 buf 0) in *.
    unfold uint8.
    destruct (Z.le_gt_cases 249 d) as [Hbig | Hsmall].
    + split; [auto |]. intros _.
      destruct (Z.le_gt_cases 251 d) as [H251 | H250].
      * (* the address slice is reversed *)
        rewrite (slice_reversed buf 5 ((5 + d) mod 256)); [reflexivity |].
        replace (5 + d) with (d - 251 + 1 * 256) by lia.
        rewrite Z.mod_add, Z.mod_small by lia. lia.
      * (* the port slice is reversed *)
        assert ((5 + d) mod 256 = 5 + d) as -> by (apply Z.mod_small; lia).
        assert ((7 + d) mod 256 = d - 249) as ->.
        { replace (7 + d) with (d - 249 + 1 * 256) by lia.
          rewrite Z.mod_add, Z.mod_small by lia. reflexivity. }
        rewrite (slice_ok buf 5 (5 + d)) by lia. unfold bind at 1.
        rewrite (slice_reversed buf (5 + d) (d - 249)) by lia. reflexivity.
    + assert ((5 + d) mod 256 = 5 + d) as -> by (apply Z.mod_small; lia).
      assert ((7 + d) mod 256 = 5 + d + 2) as ->
        by (rewrite Z.mod_small by lia; lia).
      rewrite (slice_ok buf 5 (5 + d)) by lia. unfold bind at 1.
      rewrite (slice_ok buf (5 + d) (5 + d + 2)) by lia. unfold bind at 1.
      destruct (Uint16_of_two buf (5 + d) ltac:(lia) ltac:(lia)) as [v Hv].
      rewrite Hv. unfold bind.
      split; [discriminate | lia].
Qed.

Lemma make_bytes (n : nat) : Forall is_byte (make n).
Proof.
  unfold make. induction n; simpl; constructor; auto. unfold is_byte. lia.
Qed.

Lemma Read_bytes (buf data buf' : list Z) :
  Forall is_byte buf -> Forall is_byte data ->
  Read buf data = Ret buf' -> Forall is_byte buf'.
Proof.
  intros Hb Hd. unfold Read. destruct data as [| b data]; [discriminate |].
  intros [= <-]. apply Forall_app. split.
  - apply Forall_take. exact Hd.
  - apply Forall_drop. exact Hb.
Qed.

(** The handlers panic exactly when the buffer, after the two reads, holds a
    SOCKS5 CONNECT request with address type 3 and a length byte of 249 or
    more. *)
Lemma handleRequest_panics (handshake request : list Z) :
  Forall is_byte handshake -> Forall is_byte request ->
  (handleRequest handshake request = Panic <->
   exists buf1 buf2,
     Read (make OptimizedBufferSize) handshake = Ret buf1
     /\ nth 0 buf1 0 = 5
     /\ Read buf1 request = Ret buf2
     /\ nth 0 buf2 0 = 5 /\ nth 1 buf2 0 = 1
     /\ nth 3 buf2 0 = 3 /\ 249 <= nth 4 buf2 0).
Proof.
  intros Hhs Hrq. unfold handleRequest. cbv zeta.
  split.
  - (* a panic comes from the parse *)
    destruct (Read (make OptimizedBufferSize) handshake) as [buf1 | |] eqn:HR1;
      [| discriminate | destruct (Read_not_panic _ _ HR1)].
    assert (List.length buf1 = OptimizedBufferSize) as Hlen1.
    { rewrite (Read_length _ _ _ HR1). unfold make. apply List.repeat_length. }
    pose proof (Read_bytes _ _ _ (make_bytes _) Hhs HR1) as Hb1.
    unfold mbind, outcome_bind. unfold bind at 1.
    rewrite index_ok by (rewrite Hlen1, buffer_size; lia).
    unfold bind at 1. change (Z.to_nat 0) with 0%nat.
    unfold SOCKS5Version, SOCKS5Connect.
    destruct (Z.eqb_spec (nth 0 buf1 0) 5) as [H15 | H15]; cbn [negb];
      [| discriminate].
    destruct (Read buf1 request) as [buf2 | |] eqn:HR2;
      [| discriminate | destruct (Read_not_panic _ _ HR2)].
    assert (List.length buf2 = OptimizedBufferSize) as Hlen2
      by (rewrite (Read_length _ _ _ HR2); exact Hlen1).
    pose proof (Read_bytes _ _ _ Hb1 Hrq HR2) as Hb2.
    unfold bind at 1.
    rewrite !index_ok by (rewrite Hlen2, buffer_size; lia).
    change (Z.to_nat 0) with 0%nat. change (Z.to_nat 1) with 1%nat.
    unfold bind at 1.
    destruct (Z.eqb_spec (nth 0 buf2 0) 5) as [H25 | H25]; cbn [negb];
      [| discriminate].
    unfold bind at 1.
    destruct (Z.eqb_spec (nth 1 buf2 0) 1) as [H21 | H21]; cbn [negb];
      [| discriminate].
    destruct (parseTarget buf2) as [t | |] eqn:HP; unfold bind;
      [discriminate | discriminate |].
    intros _.
    destruct (proj1 (parseTarget_panics buf2 Hlen2 Hb2) HP) as [H3 H4].
    exists buf1, buf2. auto 10.
  - (* such a request makes the parse panic *)
    intros (buf1 & buf2 & HR1 & H15 & HR2 & H25 & H21 & H3 & H4).
    assert (List.length buf1 = OptimizedBufferSize) as Hlen1.
    { rewrite (Read_length _ _ _ HR1). unfold make. apply List.repeat_length. }
    pose proof (Read_bytes _ _ _ (make_bytes _) Hhs HR1) as Hb1.
    assert (List.length buf2 = OptimizedBufferSize) as Hlen2
      by (rewrite (Read_length _ _ _ HR2); exact Hlen1).
    pose proof (Read_bytes _ _ _ Hb1 Hrq HR2) as Hb2.
    rewrite HR1. unfold mbind, outcome_bind. unfold bind at 1.
    rewrite index_ok by (rewrite Hlen1, buffer_size; lia).
    unfold bind at 1. change (Z.to_nat 0) with 0%nat.
    rewrite H15, HR2. cbn [negb Z.eqb SOCKS5Version Pos.eqb].
    unfold bind at 1.
    rewrite !index_ok by (rewrite Hlen2, buffer_size; lia).
    change (Z.to_nat 0) with 0%nat. change (Z.to_nat 1) with 1%nat.
    unfold bind at 1. rewrite H25. cbn [negb Z.eqb SOCKS5Version Pos.eqb].
    unfold bind at 1. rewrite H21. cbn [negb Z.eqb SOCKS5Connect Pos.eqb].
    rewrite (proj2 (parseTarget_panics buf2 Hlen2 Hb2) (conj H3 H4)).
    reflexivity.
Qed.

Lemma domain_request_bytes (n : nat) (c : Z) :
  (n < 256)%nat -> is_byte c -> Forall is_byte (domain_request n c).
Proof.
  intros Hn Hc. unfold domain_request.
  repeat (apply Forall_app; split).
  - repeat constructor; unfold is_byte; lia.
  - clear Hn. induction n as [| n IH]; cbn [repeat]; constructor; auto.
  - repeat constructor; unfold is_byte; lia.
Qed.

(** A domain name of 250 bytes. *)
Lemma handleRequest_panics_witness :
  handleRequest [5; 1; 0] (domain_request 250 97) = Panic.
Proof.
  apply (proj2 (handleRequest_panics [5; 1; 0] (domain_request 250 97)
                  ltac:(repeat constructor; unfold is_byte; lia)
                  (domain_request_bytes 250 97 ltac:(lia)
                     ltac:(unfold is_byte; lia)))).
  do 2 eexists.
  split; [reflexivity |]. split; [reflexivity |].
  split; [reflexivity |]. split; [reflexivity |].
  split; [reflexivity |]. split; [reflexivity |].
  vm_compute. discriminate.
Defined.

(** C10 fails on the code.  A CONNECT request for a domain name whose
    length byte is 255, complete with its 255 name bytes and its port,
    makes the handlers panic: [5+domainLen] is computed on bytes and wraps
    to 4, and [buf[5:4]] is out of range.  So does a length byte of 249,
    where [7+domainLen] wraps to 0.  With a length byte of 248 the request
    is parsed. *)
Theorem connect_request_panics :
  handleRequest [5; 1; 0] (domain_request 255 97) = Panic
  /\ handleRequest [5; 1; 0] (domain_request 249 97) = Panic
  /\ handleRequest [5; 1; 0] (domain_request 248 97)
     = Ret (string_of_bytes (repeat 97 248) ++ ":443")%string
  /\ handleRequest [5; 1; 0] [5; 1; 0; 1; 203; 0; 113; 10; 1; 187]
     = Ret "203.0.113.10:443"%string.
Proof. repeat split; vm_compute; reflexivity. Qed.

End ConnectRequest.

(** ** UDP hole punching *)

Section HolePunch.
Import Wire SessionID Manager Punch.

Variable send_time : nat -> Z.
Variable reads : list read_result.
Variable tie_success : bool.
Variable start : Z.

Hypothesis schedule : sender_schedule start send_time.

Lemma send_time_lower (n : nat) :
  start + Z.of_nat n * HolePunchInterval <= send_time n.
Proof.
  destruct schedule as [H0 Hstep].
  induction n as [| n IH]; [simpl; lia |].
  specialize (Hstep n). lia.
Qed.

Lemma send_time_mono (i j : nat) : (i <= j)%nat -> send_time i <= send_time j.
Proof.
  destruct schedule as [_ Hstep].
  induction 1 as [| j Hle IH]; [lia |].
  specialize (Hstep j). unfold HolePunchInterval, Millisecond in Hstep. lia.
Qed.

Lemma filter_all {A : Type} (f : A -> bool) (l : list A) :
  (forall x, In x l -> f x = true) -> List.filter f l = l.
Proof.
  induction l as [| a l IH]; simpl; intros H; [reflexivity |].
  rewrite (H a) by now left. f_equal. apply IH. intros x Hx. apply H. now right.
Qed.

Lemma sent_by_after_burst (sessionID : string) (t : Z) :
  send_time HolePunchPacketCount <= t ->
  sent_by send_time sessionID t = burst sessionID.
Proof.
  intros Ht. unfold sent_by, burst. f_equal.
  apply filter_all.
  intros i Hi. apply in_seq in Hi.
  pose proof (send_time_mono i HolePunchPacketCount ltac:(lia)).
  apply Z.leb_le. lia.
Qed.

Lemma find_first {A : Type} (f : A -> bool) (l : list A) (x : A) :
  find f l = Some x <->
  exists pre post, l = pre ++ x :: post /\ f x = true
                   /\ Forall (fun y => f y = false) pre.
Proof.
  induction l as [| a l IH]; cbn [find].
  - split; [discriminate |]. intros (pre & post & H & _). destruct pre; discriminate H.
  - destruct (f a) eqn:Hfa.
    + split.
      * intros [= ->]. exists [], l. auto.
      * intros (pre & post & H & Hx & Hpre).
        destruct pre as [| b pre]; cbn in H; injection H as -> ->; [reflexivity |].
        inversion Hpre; congruence.
    + rewrite IH. split.
      * intros (pre & post & -> & Hx & Hpre). exists (a :: pre), post. auto.
      * intros (pre & post & H & Hx & Hpre).
        destruct pre as [| b pre]; cbn in H; injection H as -> ->; [congruence |].
        exists pre, post. inversion Hpre; auto.
Qed.

(** C6, as the code has it.  The listening goroutine reports the first read
    that returns a datagram whose source has the peer's IP (in the sense of
    [net.IP.Equal]) and the peer's port and whose payload begins with
    PUNCH:.  When that read comes before the deadline the function returns
    without error, but not at once: it first waits for the sending
    goroutine to close [punchDone], so it returns at the later of the read
    and the end of the burst, no sooner than 5 s after the call, with all
    50 datagrams written.  It fails with the timeout error exactly when no
    read returns such a datagram or the first such read comes after the
    deadline (or at the deadline, the [select] taking the timer), and it
    then returns at the deadline.  On both paths the read deadline is
    cleared. *)
Theorem hole_punch_outcome
        (sessionID : string) (remoteAddr : UDPAddr) (timeout : Z) :
  let r := PerformNATHolePunch send_time reads tie_success sessionID remoteAddr
             timeout start in
  let deadline := start + timeout in
  (HolePunchPacketCount = 50%nat /\ HolePunchInterval = 100 * Millisecond)
  /\ (forall rd, first_punch reads remoteAddr = Some rd <->
     exists pre post, reads = pre ++ rd :: post
                      /\ is_punch remoteAddr rd = true
                      /\ Forall (fun x => is_punch remoteAddr x = false) pre)
  /\ (forall t addr data,
        is_punch remoteAddr (Datagram t addr data) = true <->
        IP_Equal (IP addr) (IP remoteAddr) = true
        /\ Port addr = Port remoteAddr
        /\ String.prefix "PUNCH:" data = true)
  /\ (forall t, is_punch remoteAddr (ReadErr t) = false)
  /\ (forall rd, first_punch reads remoteAddr = Some rd ->
        read_time rd < deadline ->
        err r = None
        /\ returned_at r = Z.max (read_time rd) (send_time HolePunchPacketCount)
        /\ sent r = burst sessionID)
  /\ (err r = None ->
        sent r = burst sessionID
        /\ List.length (sent r) = 50%nat
        /\ start + 50 * HolePunchInterval <= returned_at r
        /\ exists rd, first_punch reads remoteAddr = Some rd
                      /\ read_time rd <= deadline
                      /\ read_time rd <= returned_at r)
  /\ (err r = Some PunchTimeout <->
        first_punch reads remoteAddr = None
        \/ exists rd, first_punch reads remoteAddr = Some rd
                      /\ (deadline < read_time rd
                          \/ (read_time rd = deadline /\ tie_success = false)))
  /\ (err r = Some PunchTimeout -> returned_at r = deadline)
  /\ read_deadline r = None.
Proof.
  intros r deadline.
  split; [split; reflexivity |].
  split; [intros rd; apply find_first |].
  split.
  { intros t addr data. unfold is_punch. rewrite !andb_true_iff, Z.eqb_eq.
    tauto. }
  split; [reflexivity |].
  pose proof (send_time_lower HolePunchPacketCount) as Hlow.
  change (Z.of_nat HolePunchPacketCount) with 50 in Hlow.
  subst r deadline. unfold PerformNATHolePunch.
  destruct (first_punch reads remoteAddr) as [rd |] eqn:Hfirst.
  - assert (forall t,
              sent_by send_time sessionID
                (Z.max t (send_time HolePunchPacketCount)) = burst sessionID)
      as Hburst by (intros t; apply sent_by_after_burst; lia).
    destruct (Z.ltb_spec (read_time rd) (start + timeout)) as [Hlt | Hge].
    + cbn [err returned_at sent read_deadline]. rewrite Hburst.
      split; [intros rd' [= <-] _; auto |].
      split; [intros _; repeat split; try lia; exists rd; repeat split; lia |].
      split; [| split; [discriminate | reflexivity]].
      split; [discriminate |].
      intros [[=] | (rd' & [= <-] & [H | [H _]])]; lia.
    + destruct (Z.eqb_spec (read_time rd) (start + timeout)) as [Heq | Hne];
        cbn [andb].
      * destruct tie_success; cbn [err returned_at sent read_deadline].
        -- rewrite Hburst.
           split; [intros rd' [= <-] H; lia |].
           split; [intros _; repeat split; try lia; exists rd; repeat split; lia |].
           split; [| split; [discriminate | reflexivity]].
           split; [discriminate |].
           intros [[=] | (rd' & [= <-] & [H | [_ [=]]])]; lia.
        -- split; [intros rd' [= <-] H; lia |].
           split; [discriminate |].
           split; [| split; reflexivity].
           split; [| reflexivity].
           intros _. right. exists rd. auto.
      * cbn [err returned_at sent read_deadline].
        split; [intros rd' [= <-] H; lia |].
        split; [discriminate |].
        split; [| split; reflexivity].
        split; [| reflexivity].
        intros _. right. exists rd. split; [reflexivity |]. left. lia.
  - cbn [err returned_at sent read_deadline].
    split; [intros rd' [=] |].
    split; [discriminate |].
    split; [| split; reflexivity].
    split; [auto | reflexivity].
Qed.

End HolePunch.

Section PunchDatagrams.
Import Wire SessionID Manager Punch.

Lemma regular_sends_schedule : sender_schedule 0 regular_sends.
Proof.
  unfold sender_schedule, regular_sends. split; [simpl; lia |].
  intros i. rewrite Nat2Z.inj_succ. lia.
Qed.

(** The peer's first datagram is read 250 ms after the call, after a read
    that timed out and a datagram from another port: the function returns
    without error, 5 s after the call, the whole burst written. *)
Lemma hole_punch_outcome_witness :
  let r := PerformNATHolePunch regular_sends example_reads
             false "0123456789abcdef" example_peer (6 * Second) 0 in
  err r = None
  /\ returned_at r = 5 * Second
  /\ sent r = burst "0123456789abcdef".
Proof.
  cbv zeta.
  destruct (hole_punch_outcome regular_sends example_reads false 0
              regular_sends_schedule "0123456789abcdef" example_peer (6 * Second))
    as (_ & _ & _ & _ & Hok & _).
  exact (Hok (Datagram (250 * Millisecond) example_peer "PUNCH:0123456789abcdef:1")
             eq_refl eq_refl).
Defined.

(** C6 as stated fails: success does not win at once, and the sender is
    not stopped.  The peer's datagram is the third read, 250 ms after the
    call, when three datagrams of the burst have been written; the function
    returns without error only at 5 s, and by then all 50 datagrams have
    been written. *)
Lemma success_waits_for_the_burst :
  first_punch example_reads example_peer
  = Some (Datagram (250 * Millisecond) example_peer "PUNCH:0123456789abcdef:1")
  /\ sent_by regular_sends "0123456789abcdef" (250 * Millisecond)
     = ["PUNCH:0123456789abcdef:0"; "PUNCH:0123456789abcdef:1";
        "PUNCH:0123456789abcdef:2"]%string
  /\ err (PerformNATHolePunch regular_sends example_reads false
            "0123456789abcdef" example_peer (6 * Second) 0) = None
  /\ returned_at (PerformNATHolePunch regular_sends example_reads false
                    "0123456789abcdef" example_peer (6 * Second) 0)
     = 5 * Second
  /\ List.length (sent (PerformNATHolePunch regular_sends example_reads false
                          "0123456789abcdef" example_peer (6 * Second) 0))
     = 50%nat.
Proof. repeat split; vm_compute; reflexivity. Qed.

Lemma bytes_equal_refl (a : list Z) : bytes_equal a a = true.
Proof.
  unfold bytes_equal. rewrite Nat.eqb_refl. simpl.
  induction a as [| b a IH]; simpl; [reflexivity |].
  rewrite Z.eqb_refl. exact IH.
Qed.

Lemma IP_Equal_refl (ip : list Z) : IP_Equal ip ip = true.
Proof.
  unfold IP_Equal. rewrite Nat.eqb_refl. apply bytes_equal_refl.
Qed.

Lemma string_prefix_app (p s : string) : String.prefix p (p ++ s) = true.
Proof.
  induction p as [| c p IH]; simpl; [now destruct s |].
  destruct (ascii_dec c c); [exact IH | contradiction].
Qed.

(** The listening goroutine accepts every datagram of a burst that comes
    from the peer's address, whatever session id the datagram carries: the
    payload is only tested for the prefix PUNCH:. *)
Theorem burst_datagram_accepted
        (remoteAddr : UDPAddr) (t : Z) (anySession : string) (i : nat) :
  is_punch remoteAddr (Datagram t remoteAddr (punch_message anySession i)) = true.
Proof.
  unfold is_punch. rewrite IP_Equal_refl, Z.eqb_refl.
  unfold punch_message. apply string_prefix_app.
Qed.

End PunchDatagrams.

(** ** Rotation: roles in the session slice *)

Section RoleCounting.
Import Manager ManagerProps Rotation RotationProps.

Implicit Types (h : gmap ptr Session) (l : list ptr) (p : ptr).

Lemma count_ext h h' cond l :
  (forall p, In p l -> h' !! p = h !! p) ->
  count_sessions h' cond l = count_sessions h cond l.
Proof.
  induction l as [| q l IH]; simpl; intros H; [reflexivity |].
  rewrite (H q) by now left.
  rewrite IH by (intros p Hp; apply H; now right). reflexivity.
Qed.

Lemma count_app h cond l1 l2 :
  count_sessions h cond (l1 ++ l2)
  = (count_sessions h cond l1 + count_sessions h cond l2)%nat.
Proof.
  induction l1 as [| q l1 IH]; simpl; [reflexivity |].
  destruct (h !! q) as [s |]; [destruct (cond s) |]; rewrite IH; reflexivity.
Qed.

Lemma count_none h cond l :
  any_session h cond l = false -> count_sessions h cond l = 0%nat.
Proof.
  unfold any_session. induction l as [| q l IH]; simpl; [reflexivity |].
  destruct (h !! q) as [s |]; [destruct (cond s); [discriminate |] |]; exact IH.
Qed.

Lemma count_sublist h cond l l' :
  sublist l' l -> (count_sessions h cond l' <= count_sessions h cond l)%nat.
Proof.
  induction 1 as [| q l1 l2 Hs IH | q l1 l2 Hs IH]; simpl; [lia | |].
  - destruct (h !! q) as [s |]; [destruct (cond s) |]; lia.
  - destruct (h !! q) as [s |]; [destruct (cond s) |]; lia.
Qed.

(** A count of sessions by role only depends on the roles. *)
Lemma count_same_roles h h' (r : string) l :
  same_roles h h' ->
  count_sessions h' (fun s => String.eqb (Role s) r) l
  = count_sessions h (fun s => String.eqb (Role s) r) l.
Proof.
  intros Hsame. induction l as [| q l IH]; simpl; [reflexivity |].
  specialize (Hsame q).
  destruct (h' !! q) as [s' |], (h !! q) as [s |]; simpl in Hsame;
    try discriminate; [| exact IH].
  injection Hsame as ->. rewrite IH. reflexivity.
Qed.

(** Sessions satisfying [cond] that are all the same session: at most one. *)
Lemma count_at_most_one h cond l (x : ptr) :
  NoDup l ->
  (forall p s, In p l -> h !! p = Some s -> cond s = true -> p = x) ->
  (count_sessions h cond l <= 1)%nat.
Proof.
  induction l as [| q l IH]; simpl; intros Hnd Hx; [lia |].
  apply NoDup_cons in Hnd as [Hq Hnd].
  destruct (h !! q) as [s |] eqn:Hs.
  2:{ apply IH; [exact Hnd |]. intros p s' Hp. apply Hx. now right. }
  destruct (cond s) eqn:Hc.
  2:{ apply IH; [exact Hnd |]. intros p s' Hp. apply Hx. now right. }
  assert (q = x) as -> by (apply (Hx q s); auto).
  assert (count_sessions h cond l = 0%nat) as ->; [| lia].
  clear IH Hs Hc. induction l as [| p l IH]; simpl; [reflexivity |].
  apply not_elem_of_cons in Hq as [Hne Hq].
  apply NoDup_cons in Hnd as [_ Hnd].
  assert (forall s', h !! p = Some s' -> cond s' = false) as Hp.
  { intros s' Hs'. destruct (cond s') eqn:Hc'; [| reflexivity].
    exfalso. apply Hne. symmetry. apply (Hx p s'); auto. right. now left. }
  destruct (h !! p) as [s' |]; [rewrite (Hp s' eq_refl) |];
    apply IH; auto; intros p' s'' Hin; apply Hx;
    destruct Hin as [-> | Hin]; [now left | right; now right | now left | right; now right].
Qed.

Lemma count_mono h h' cond l :
  (forall p s', In p l -> h' !! p = Some s' -> cond s' = true ->
     exists s, h !! p = Some s /\ cond s = true) ->
  (count_sessions h' cond l <= count_sessions h cond l)%nat.
Proof.
  induction l as [| q l IH]; simpl; intros H; [lia |].
  assert (count_sessions h' cond l <= count_sessions h cond l)%nat as Hl
    by (apply IH; intros p s' Hp; apply H; now right).
  destruct (h' !! q) as [s' |] eqn:Hs'.
  - destruct (cond s') eqn:Hc'.
    + destruct (H q s' ltac:(now left) Hs' Hc') as (s & -> & ->). lia.
    + destruct (h !! q) as [s |]; [destruct (cond s) |]; lia.
  - destruct (h !! q) as [s |]; [destruct (cond s) |]; lia.
Qed.

Lemma same_roles_refl h : same_roles h h.
Proof. intros p. reflexivity. Qed.

Lemma same_roles_trans h1 h2 h3 :
  same_roles h1 h2 -> same_roles h2 h3 -> same_roles h1 h3.
Proof. intros H12 H23 p. rewrite H23. apply H12. Qed.

Lemma same_roles_on_session h p (f : Session -> Session) :
  (forall s, Role (f s) = Role s) -> same_roles h (on_session h p f).
Proof.
  intros Hf q. unfold on_session.
  destruct (decide (p = q)) as [-> | Hne].
  - rewrite lookup_alter_eq. destruct (h !! q) as [s |]; simpl; [| reflexivity].
    now rewrite Hf.
  - rewrite lookup_alter_ne by exact Hne. reflexivity.
Qed.

Lemma same_roles_allocated h h' p :
  same_roles h h' -> is_Some (h !! p) -> is_Some (h' !! p).
Proof.
  intros Hsame [s Hs]. specialize (Hsame p). rewrite Hs in Hsame.
  destruct (h' !! p); [eauto | discriminate].
Qed.

(** Dropping sessions from the slice and changing anything but roles keeps
    the roles unique. *)
Lemma roles_unique_sublist h h' l l' (n n' : ptr) :
  roles_unique h l n -> sublist l' l -> same_roles h h' -> (n <= n')%nat ->
  roles_unique h' l' n'.
Proof.
  intros (Hnd & Halloc & Hprim & Hsec) Hsub Hsame Hn.
  split; [| split; [| split]].
  - eapply sublist_NoDup; eauto.
  - intros p Hp.
    assert (In p l) as Hin.
    { apply list_elem_of_In. apply (sublist_subseteq _ _ Hsub).
      apply list_elem_of_In. exact Hp. }
    destruct (Halloc p Hin) as [Hlt Hsome].
    split; [lia | eapply same_roles_allocated; eauto].
  - unfold IsPrimary. rewrite (count_same_roles h h' RolePrimary l' Hsame).
    etransitivity; [apply count_sublist; exact Hsub | exact Hprim].
  - unfold IsSecondary. rewrite (count_same_roles h h' RoleSecondary l' Hsame).
    etransitivity; [apply count_sublist; exact Hsub | exact Hsec].
Qed.

End RoleCounting.

(** ** Rotation: what each locked stretch does to the slice *)

Section LockedStretches.
Import Manager ManagerProps Rotation RotationProps.

Implicit Types (h : gmap ptr Session) (l : list ptr) (p : ptr).

Lemma only_cancelled_refl h : only_cancelled h h.
Proof. intros p. now left. Qed.

Lemma Cancel_idem (s : Session) : Cancel (Cancel s) = Cancel s.
Proof. reflexivity. Qed.

Lemma only_cancelled_step h h' p :
  only_cancelled (on_session h p Cancel) h' -> only_cancelled h h'.
Proof.
  intros H q. specialize (H q). unfold on_session in H.
  destruct (decide (p = q)) as [-> | Hne].
  - rewrite lookup_alter_eq in H.
    destruct (h !! q) as [s |] eqn:Hs; simpl in H.
    + right. exists s. split; [reflexivity |].
      destruct H as [H | (s' & [= <-] & H)]; exact H.
    + left. destruct H as [H | (s' & [=] & _)]; exact H.
  - rewrite lookup_alter_ne in H by exact Hne. exact H.
Qed.

Lemma only_cancelled_same_roles h h' : only_cancelled h h' -> same_roles h h'.
Proof.
  intros H p. destruct (H p) as [-> | (s & -> & ->)]; reflexivity.
Qed.

Lemma kept_only_cancelled h h' p :
  only_cancelled h h' ->
  (exists s, h !! p = Some s /\ kept_by_monitor s) ->
  exists s', h' !! p = Some s' /\ kept_by_monitor s'.
Proof.
  intros H (s & Hs & Hk). destruct (H p) as [-> | (s0 & Hs0 & ->)].
  - eauto.
  - rewrite Hs in Hs0. injection Hs0 as <-. exists (Cancel s). split; auto.
Qed.

(** The first loop of [checkSessions]. *)
Lemma sweep_spec l : forall h acc prim h' active prim',
  sweep h l acc prim = (h', active, prim') ->
  exists kept,
    active = acc ++ kept
    /\ sublist kept l
    /\ only_cancelled h h'
    /\ (forall p, In p kept -> exists s, h' !! p = Some s /\ kept_by_monitor s).
Proof.
  induction l as [| q l IH]; intros h acc prim h' active prim'; simpl.
  - intros [= <- <- <-]. exists []. rewrite app_nil_r.
    repeat split; auto using only_cancelled_refl. intros p [].
  - destruct (h !! q) as [s |] eqn:Hs.
    2:{ intros H. destruct (IH _ _ _ _ _ _ H) as (kept & -> & Hsub & Hc & Hk).
        exists kept. repeat split; auto. now apply sublist_cons. }
    destruct (conn_done s) eqn:Hdone.
    { intros H. destruct (IH _ _ _ _ _ _ H) as (kept & -> & Hsub & Hc & Hk).
      exists kept. repeat split; auto. now apply sublist_cons. }
    destruct (negb (IsHealthy s) && negb (IsDraining s)) eqn:Hbad.
    { intros H. destruct (IH _ _ _ _ _ _ H) as (kept & -> & Hsub & Hc & Hk).
      exists kept. repeat split; auto; [now apply sublist_cons |].
      eapply only_cancelled_step; eauto. }
    intros H. destruct (IH _ _ _ _ _ _ H) as (kept & -> & Hsub & Hc & Hk).
    exists (q :: kept). rewrite <- app_assoc. repeat split; auto.
    + now apply sublist_skip.
    + intros p [<- | Hp]; [| auto].
      apply (kept_only_cancelled h h' q Hc).
      exists s. split; [exact Hs |]. split; [exact Hdone |].
      unfold IsHealthy in Hbad.
      destruct (healthy s); [now left |].
      destruct (IsDraining s); [now right | discriminate].
Qed.

(** [checkSessions] leaves in the slice, in their order, sessions that were
    in it, and changes no role. *)
Lemma checkSessions_spec (c c' : ConnManager) (t : Z) (sp : spawn) :
  checkSessions c t = (c', sp) ->
  sublist (sessions c') (sessions c)
  /\ only_cancelled (heap c) (heap c')
  /\ (forall p, In p (sessions c') ->
        exists s, heap c' !! p = Some s /\ kept_by_monitor s)
  /\ cfg c' = cfg c /\ shutdownCh c' = shutdownCh c.
Proof.
  unfold checkSessions.
  destruct (sweep (heap c) (sessions c) [] None) as [[h active] prim] eqn:Hsw.
  destruct (sweep_spec _ _ _ _ _ _ _ Hsw) as (kept & Hact & Hsub & Hc & Hk).
  simpl in Hact. subst active.
  assert (forall ls, let c1 := mkConnManager (cfg c) h kept ls (shutdownCh c) in
            sublist (sessions c1) (sessions c)
            /\ only_cancelled (heap c) (heap c1)
            /\ (forall p, In p (sessions c1) ->
                  exists s, heap c1 !! p = Some s /\ kept_by_monitor s)
            /\ cfg c1 = cfg c /\ shutdownCh c1 = shutdownCh c) as Hany
    by (intros ls; simpl; auto).
  destruct prim as [p |].
  - destruct (h !! p) as [primary |]; [| intros [= <- <-]; apply Hany].
    destruct (RemainingTTL primary t <=? OverlapWindow (cfg c));
      [| intros [= <- <-]; apply Hany].
    destruct (negb (any_session h IsSecondary kept) && (List.length kept <? 2)%nat);
      [| intros [= <- <-]; apply Hany].
    destruct (canLaunchSecondary (launchState c) t) as [ok ls].
    intros [= <- <-]. apply Hany.
  - destruct (List.length kept <? 2)%nat; [| intros [= <- <-]; apply Hany].
    destruct (canLaunchPrimary (launchState c) t) as [ok ls].
    intros [= <- <-]. apply Hany.
Qed.

Lemma roles_unique_checkSessions (c c' : ConnManager) (t : Z) (sp : spawn) (n : ptr) :
  checkSessions c t = (c', sp) ->
  roles_unique (heap c) (sessions c) n ->
  roles_unique (heap c') (sessions c') n.
Proof.
  intros Hcs Hu. destruct (checkSessions_spec _ _ _ _ Hcs) as (Hsub & Hc & _).
  eapply roles_unique_sublist; eauto using only_cancelled_same_roles.
Qed.

(** A fresh session object does not change what is counted in the slice. *)
Lemma count_insert_fresh h cond l p (s : Session) :
  ~ In p l ->
  count_sessions (<[p := s]> h) cond l = count_sessions h cond l.
Proof.
  intros Hp. apply count_ext. intros q Hq.
  apply lookup_insert_ne. intros ->. contradiction.
Qed.

Lemma fresh_not_in h l (n : ptr) : roles_unique h l n -> ~ In n l.
Proof.
  intros (_ & Halloc & _) Hin. destruct (Halloc n Hin). lia.
Qed.

Lemma roles_unique_insert_unused h l (n : ptr) (s : Session) :
  roles_unique h l n -> roles_unique (<[n := s]> h) l (S n).
Proof.
  intros Hu. pose proof (fresh_not_in _ _ _ Hu) as Hfresh.
  destruct Hu as (Hnd & Halloc & Hprim & Hsec).
  split; [exact Hnd | split; [| split]].
  - intros p Hp. destruct (Halloc p Hp) as [Hlt Hsome].
    split; [lia |]. rewrite lookup_insert_ne by lia. exact Hsome.
  - rewrite count_insert_fresh by exact Hfresh. exact Hprim.
  - rewrite count_insert_fresh by exact Hfresh. exact Hsec.
Qed.

Lemma roles_unique_append h l (n : ptr) (s : Session) :
  roles_unique h l n ->
  (IsPrimary s = true -> any_session h IsPrimary l = false) ->
  (IsSecondary s = true -> any_session h IsSecondary l = false) ->
  roles_unique (<[n := s]> h) (l ++ [n]) (S n).
Proof.
  intros Hu Hp Hs. pose proof (fresh_not_in _ _ _ Hu) as Hfresh.
  destruct Hu as (Hnd & Halloc & Hprim & Hsec).
  split; [| split; [| split]].
  - apply NoDup_app. split; [exact Hnd | split].
    + intros x Hx Hx'. apply list_elem_of_singleton in Hx'. subst x.
      apply Hfresh. now apply list_elem_of_In.
    + apply NoDup_singleton.
  - intros p Hin. apply in_app_or in Hin as [Hin | [<- | []]].
    + destruct (Halloc p Hin) as [Hlt Hsome].
      split; [lia |]. rewrite lookup_insert_ne by lia. exact Hsome.
    + split; [lia |]. rewrite lookup_insert_eq. eauto.
  - rewrite count_app, count_insert_fresh by exact Hfresh. simpl.
    rewrite lookup_insert_eq.
    destruct (IsPrimary s) eqn:Hrole; [| lia].
    rewrite (count_none _ _ _ (Hp eq_refl)). lia.
  - rewrite count_app, count_insert_fresh by exact Hfresh. simpl.
    rewrite lookup_insert_eq.
    destruct (IsSecondary s) eqn:Hrole; [| lia].
    rewrite (count_none _ _ _ (Hs eq_refl)). lia.
Qed.

Lemma roles_unique_addPrimary (c : ConnManager) (n : ptr) (s : Session) :
  roles_unique (heap c) (sessions c) n ->
  roles_unique (heap (addPrimary c n s)) (sessions (addPrimary c n s)) (S n).
Proof.
  intros Hu. unfold addPrimary.
  destruct (any_session (heap c) IsPrimary (sessions c)) eqn:Hany; simpl.
  - now apply roles_unique_insert_unused.
  - apply roles_unique_append; auto. discriminate.
Qed.

Lemma roles_unique_addSecondary (c : ConnManager) (n : ptr) (s : Session) :
  roles_unique (heap c) (sessions c) n ->
  roles_unique (heap (addSecondary c n s).1) (sessions (addSecondary c n s).1) (S n).
Proof.
  intros Hu. unfold addSecondary, secondary_redundant.
  destruct (any_session (heap c) IsSecondary (sessions c)) eqn:Hany;
    destruct (2 <=? List.length (sessions c))%nat;
    cbn [orb fst heap sessions];
    try (now apply roles_unique_insert_unused).
  apply roles_unique_append; auto. discriminate.
Qed.

End LockedStretches.

(** ** Rotation: at most one primary and one secondary, in every run *)

Section RolesUnique.
Import Manager ManagerProps Rotation RotationProps.

Implicit Types (h : gmap ptr Session) (l : list ptr) (p : ptr).

Lemma other_primary_Some h (sec : ptr) l q :
  other_primary h sec l = Some q ->
  In q l /\ q <> sec /\ exists s, h !! q = Some s /\ IsPrimary s = true.
Proof.
  induction l as [| p l IH]; simpl; [discriminate |].
  destruct (h !! p) as [s |] eqn:Hs.
  - destruct (negb (p =? sec)%nat && IsPrimary s) eqn:Hc.
    + intros [= <-]. apply andb_prop in Hc as [Hne Hp].
      apply negb_true_iff, Nat.eqb_neq in Hne. eauto 6.
    + intros H. destruct (IH H) as (? & ? & ?). auto.
  - intros H. destruct (IH H) as (? & ? & ?). auto.
Qed.

Lemma other_primary_None h (sec : ptr) l :
  other_primary h sec l = None ->
  forall p s, In p l -> p <> sec -> h !! p = Some s -> IsPrimary s = false.
Proof.
  induction l as [| q l IH]; simpl; [intros _ p s [] |].
  destruct (h !! q) as [sq |] eqn:Hq.
  - destruct (negb (q =? sec)%nat && IsPrimary sq) eqn:Hc; [discriminate |].
    intros H p s [<- | Hin] Hne Hp; [| eapply IH; eauto].
    rewrite Hq in Hp. injection Hp as <-.
    apply Nat.eqb_neq in Hne. rewrite Hne in Hc. exact Hc.
  - intros H p s [<- | Hin] Hne Hp; [congruence | eapply IH; eauto].
Qed.

Lemma count_positive h cond l p (s : Session) :
  In p l -> h !! p = Some s -> cond s = true ->
  (1 <= count_sessions h cond l)%nat.
Proof.
  induction l as [| q l IH]; simpl; [intros [] |].
  intros [-> | Hin] Hs Hc.
  - rewrite Hs, Hc. lia.
  - specialize (IH Hin Hs Hc).
    destruct (h !! q) as [sq |]; [destruct (cond sq) |]; lia.
Qed.

Lemma count_two h cond l p q (sp sq : Session) :
  In p l -> In q l -> p <> q ->
  h !! p = Some sp -> cond sp = true ->
  h !! q = Some sq -> cond sq = true ->
  (2 <= count_sessions h cond l)%nat.
Proof.
  induction l as [| x l IH]; simpl; [intros [] |].
  intros [-> | Hp] [-> | Hq] Hne Hsp Hcp Hsq Hcq; try congruence.
  - rewrite Hsp, Hcp.
    pose proof (count_positive h cond l q sq Hq Hsq Hcq). lia.
  - rewrite Hsq, Hcq.
    pose proof (count_positive h cond l p sp Hp Hsp Hcp). lia.
  - specialize (IH Hp Hq Hne Hsp Hcp Hsq Hcq).
    destruct (h !! x) as [sx |]; [destruct (cond sx) |]; lia.
Qed.

(** The heap after the critical section of [promoteSecondary], at each
    session. *)
Lemma promoted_lookup h (sec : ptr) (old : option ptr) p :
  old <> Some sec ->
  (match old with
   | Some q => on_session (on_session h sec (fun s => SetRole s RolePrimary)) q
                          (fun s => SetRole s RoleDraining)
   | None => on_session h sec (fun s => SetRole s RolePrimary)
   end) !! p
  = if decide (old = Some p) then (fun s => SetRole s RoleDraining) <$> h !! p
    else if decide (p = sec) then (fun s => SetRole s RolePrimary) <$> h !! p
    else h !! p.
Proof.
  intros Hold. unfold on_session. destruct old as [q |].
  - destruct (decide (Some q = Some p)) as [[= ->] | Hne].
    + rewrite lookup_alter_eq.
      rewrite lookup_alter_ne by (intros ->; now apply Hold). reflexivity.
    + rewrite lookup_alter_ne by congruence.
      destruct (decide (p = sec)) as [-> | Hps].
      * now rewrite lookup_alter_eq.
      * now rewrite lookup_alter_ne by congruence.
  - destruct (decide (None = Some p)); [discriminate |].
    destruct (decide (p = sec)) as [-> | Hps].
    + now rewrite lookup_alter_eq.
    + now rewrite lookup_alter_ne by congruence.
Qed.

Lemma roles_unique_promote (c c' : ConnManager) (sec : ptr) (old : option ptr)
      (n : ptr) :
  promoteSecondary c sec = (c', old) ->
  roles_unique (heap c) (sessions c) n ->
  roles_unique (heap c') (sessions c') n.
Proof.
  unfold promoteSecondary.
  destruct (heap c !! sec) as [s |] eqn:Hsec; [| intros [= <- <-]; auto].
  destruct (negb (IsHealthy s)); [intros [= <- <-]; auto |].
  intros [= <- <-]. intros (Hnd & Halloc & Hprim & Hsec1). cbn [heap sessions].
  set (old := other_primary (heap c) sec (sessions c)).
  assert (old <> Some sec) as Hold.
  { intros Ho. destruct (other_primary_Some _ _ _ _ Ho) as (_ & Hne & _).
    now apply Hne. }
  split; [exact Hnd | split; [| split]].
  - intros p Hp. destruct (Halloc p Hp) as [Hlt [sp Hsp]]. split; [exact Hlt |].
    rewrite (promoted_lookup _ _ _ _ Hold), Hsp.
    destruct (decide (old = Some p)); [simpl; eauto |].
    destruct (decide (p = sec)); simpl; eauto.
  - (* every primary of the slice is the promoted session *)
    apply (count_at_most_one _ _ _ sec Hnd).
    intros p s' Hp Hs' Hrole.
    rewrite (promoted_lookup _ _ _ _ Hold) in Hs'.
    destruct (decide (old = Some p)) as [Ho | Ho].
    { destruct (heap c !! p); simpl in Hs'; [| discriminate].
      injection Hs' as <-. discriminate Hrole. }
    destruct (decide (p = sec)) as [-> | Hne]; [reflexivity |].
    exfalso. destruct old as [q |] eqn:Hq.
    + destruct (other_primary_Some _ _ _ _ Hq) as (Hqin & Hqne & sq & Hsq & Hqrole).
      assert (p <> q) by congruence.
      pose proof (count_two _ IsPrimary _ p q s' sq Hp Hqin ltac:(auto)
                    Hs' Hrole Hsq Hqrole). lia.
    + rewrite (other_primary_None _ _ _ Hq p s' Hp Hne Hs') in Hrole.
      discriminate.
  - (* no session became secondary *)
    etransitivity; [| exact Hsec1]. apply count_mono.
    intros p s' Hp Hs' Hrole.
    rewrite (promoted_lookup _ _ _ _ Hold) in Hs'.
    destruct (decide (old = Some p)) as [Ho | Ho].
    { destruct (heap c !! p); simpl in Hs'; [| discriminate].
      injection Hs' as <-. discriminate Hrole. }
    destruct (decide (p = sec)) as [-> | Hne]; [| eauto].
    rewrite Hsec in Hs'. simpl in Hs'. injection Hs' as <-. discriminate Hrole.
Qed.

Lemma roles_unique_on_session (c : ConnManager) p (f : Session -> Session) (n : ptr) :
  (forall s, Role (f s) = Role s) ->
  roles_unique (heap c) (sessions c) n ->
  roles_unique (on_session (heap c) p f) (sessions c) n.
Proof.
  intros Hf Hu.
  eapply roles_unique_sublist; eauto using same_roles_on_session.
Qed.

Lemma roles_unique_run_step (w w' : World) (i : nat) (g : goroutine) :
  run_step w i g = Some w' -> world_roles_unique w -> world_roles_unique w'.
Proof.
  unfold world_roles_unique.
  destruct g as [pc | pc | sec k nt tmo | sec | s timer | s wake |]; simpl;
    try discriminate.
  - destruct pc; intros [= <-]; auto.
  - destruct pc; intros [= <-]; auto.
  - destruct (promoteSecondary (cm w) sec) as [c old] eqn:Hprom.
    intros Hw' Hu.
    pose proof (roles_unique_promote _ _ _ _ _ Hprom Hu) as Hu'.
    destruct old as [q |]; [destruct (shutdownCh c) |];
      injection Hw' as <-; exact Hu'.
  - destruct (session_done w s); [intros [= <-]; auto |].
    destruct (timer <=? now w); [intros [= <-]; auto | discriminate].
  - destruct (wake <=? now w); [| discriminate].
    intros [= <-] Hu. cbn [cm heap sessions next set_goroutine set_cm].
    now apply roles_unique_on_session.
Qed.

Lemma roles_unique_step (w w' : World) (e : event) :
  step w e = Some w' -> world_roles_unique w -> world_roles_unique w'.
Proof.
  unfold world_roles_unique.
  destruct e as [d | | i | i id | i | i | i | p | p |]; simpl.
  - destruct (0 <=? d); [intros [= <-]; auto | discriminate].
  - destruct (monitorTick w <=? now w); [| discriminate].
    destruct (checkSessions (cm w) (now w)) as [c sp] eqn:Hcs.
    intros [= <-] Hu.
    pose proof (roles_unique_checkSessions _ _ _ _ _ Hcs Hu).
    destruct sp; assumption.
  - destruct (goroutines w !! i) as [g |]; [| discriminate].
    apply roles_unique_run_step.
  - destruct (goroutines w !! i) as [[[] | [] | | | | |] |]; try discriminate.
    + intros [= <-] Hu. now apply roles_unique_addPrimary.
    + destruct (addSecondary (cm w) (next w) (launched (cm w) id (now w)))
        as [c appended] eqn:Hadd.
      intros [= <-] Hu.
      pose proof (roles_unique_addSecondary (cm w) (next w)
                    (launched (cm w) id (now w)) Hu) as Hu'.
      rewrite Hadd in Hu'. exact Hu'.
  - destruct (goroutines w !! i) as [[[] | [] | | | | |] |]; try discriminate;
      intros [= <-]; auto.
  - destruct (goroutines w !! i) as [[| | sec k nt tmo | | | |] |];
      try discriminate.
    destruct (nt <=? now w); [| discriminate].
    destruct (heap (cm w) !! sec) as [s |]; [| discriminate].
    destruct (IsHealthy s); [destruct (k + 1 >=? 3) |]; intros [= <-]; auto.
  - destruct (goroutines w !! i) as [[| | sec k nt tmo | | | |] |];
      try discriminate.
    destruct ((tmo <=? now w) || shutdownCh (cm w) || session_done w sec);
      [intros [= <-]; auto | discriminate].
  - intros [= <-] Hu. cbn [cm heap sessions next set_cm].
    now apply roles_unique_on_session.
  - intros [= <-] Hu. cbn [cm heap sessions next set_cm].
    now apply roles_unique_on_session.
  - intros [= <-] _. cbn.
    split; [apply NoDup_nil_2 | split; [intros p [] | split; simpl; lia]].
Qed.

Lemma roles_unique_run (es : list event) : forall w w',
  run w es = Some w' -> world_roles_unique w -> world_roles_unique w'.
Proof.
  induction es as [| e es IH]; simpl; intros w w'.
  - intros [= <-]. auto.
  - destruct (step w e) as [w1 |] eqn:Hstep; [| discriminate].
    intros Hrun Hu. eapply IH; eauto using roles_unique_step.
Qed.

Lemma roles_unique_started (c : RotationConfig) (id : string) (t0 : Z) :
  world_roles_unique (started c id t0).
Proof.
  unfold world_roles_unique, started. cbn.
  split; [| split; [| split]].
  - apply NoDup_singleton.
  - intros p [<- | []]. split; [lia |]. eexists. apply lookup_singleton_eq.
  - unfold count_sessions. erewrite lookup_singleton_eq. simpl. lia.
  - unfold count_sessions. erewrite lookup_singleton_eq. simpl. lia.
Qed.

(** In every world the manager can reach, by any interleaving of the
    monitor, the launches with their guards, the promotions, the drain
    clean-ups, transports closing, sessions turning unhealthy and the
    shutdown, the session slice holds no session twice, holds only
    allocated sessions, and holds at most one primary and at most one
    secondary. *)
Theorem at_most_one_primary_and_secondary (c : RotationConfig) (w : World) :
  reachable c w ->
  NoDup (sessions (cm w))
  /\ (forall p, In p (sessions (cm w)) -> is_Some (heap (cm w) !! p))
  /\ (count_sessions (heap (cm w)) IsPrimary (sessions (cm w)) <= 1)%nat
  /\ (count_sessions (heap (cm w)) IsSecondary (sessions (cm w)) <= 1)%nat.
Proof.
  intros (id & t0 & es & _ & Hrun).
  pose proof (roles_unique_run es _ _ Hrun (roles_unique_started c id t0))
    as (Hnd & Halloc & Hprim & Hsec).
  repeat split; auto. intros p Hp. apply (Halloc p Hp).
Qed.

End RolesUnique.

(** ** Rotation: the monitor, the promotion, the launches *)

Section MonitorAndPromotion.
Import Manager ManagerProps Rotation RotationProps.

Implicit Types (h : gmap ptr Session) (l : list ptr) (p : ptr).

Lemma dropped_before_cancel h h' p q :
  dropped_by_monitor (on_session h q Cancel) h' p -> dropped_by_monitor h h' p.
Proof.
  intros (s1 & Hs1 & Hwhy). unfold on_session in Hs1.
  destruct (decide (q = p)) as [-> | Hne].
  - rewrite lookup_alter_eq in Hs1.
    destruct (h !! p) as [s |] eqn:Hs; [| discriminate].
    injection Hs1 as <-. exists s. split; [exact Hs | exact Hwhy].
  - rewrite lookup_alter_ne in Hs1 by exact Hne. exists s1. auto.
Qed.

(** Every allocated session of the slice is kept or dropped for a reason. *)
Lemma sweep_dropped l : forall h acc prim h' active prim',
  sweep h l acc prim = (h', active, prim') ->
  forall p, In p l -> is_Some (h !! p) ->
            In p active \/ dropped_by_monitor h h' p.
Proof.
  induction l as [| q l IH]; intros h acc prim h' active prim'; simpl;
    [intros _ p [] |].
  destruct (h !! q) as [s |] eqn:Hs.
  2:{ intros H p [<- | Hp] Hal; [rewrite Hs in Hal; now destruct Hal |].
      eapply IH; eauto. }
  destruct (conn_done s) eqn:Hdone.
  { intros H p [<- | Hp] Hal; [| eapply IH; eauto].
    right. exists s. auto. }
  destruct (negb (IsHealthy s) && negb (IsDraining s)) eqn:Hbad.
  { intros H p Hin Hal.
    destruct (sweep_spec _ _ _ _ _ _ _ H) as (kept & _ & _ & Hc & _).
    destruct Hin as [<- | Hp].
    - right. exists s. split; [exact Hs |]. right.
      apply andb_prop in Hbad as [Hh Hd].
      apply negb_true_iff in Hh, Hd. unfold IsHealthy in Hh.
      repeat split; auto.
      destruct (Hc q) as [Hq | (s0 & Hs0 & Hq)]; rewrite Hq.
      + unfold on_session. rewrite lookup_alter_eq, Hs. simpl. eauto.
      + eauto.
    - assert (is_Some (on_session h q Cancel !! p)) as Hal'.
      { unfold on_session. destruct (decide (q = p)) as [-> | Hne].
        - rewrite lookup_alter_eq, Hs. simpl. eauto.
        - now rewrite lookup_alter_ne. }
      destruct (IH _ _ _ _ _ _ H p Hp Hal') as [Hk | Hd]; [now left |].
      right. eapply dropped_before_cancel; eauto. }
  intros H p Hin Hal.
  destruct (sweep_spec _ _ _ _ _ _ _ H) as (kept & -> & _).
  destruct Hin as [<- | Hp].
  - left. apply in_or_app. left. apply in_or_app. right. now left.
  - destruct (IH _ _ _ _ _ _ H p Hp Hal) as [Hk | Hd]; [| now right].
    destruct (sweep_spec _ _ _ _ _ _ _ H) as (kept' & Heq & _).
    left. exact Hk.
Qed.

(** One pass of the monitor ([checkSessions]).  The sessions left in the
    slice were in it before, in the same order; each has its transport open
    and is healthy or draining; a session dropped from the slice had its
    transport closed, or was unhealthy and not draining and has been
    cancelled; no role is changed. *)
Theorem monitor_keeps_live_sessions (c c' : ConnManager) (t : Z) (sp : spawn) :
  checkSessions c t = (c', sp) ->
  (forall p, In p (sessions c) -> is_Some (heap c !! p)) ->
  sublist (sessions c') (sessions c)
  /\ (forall p, In p (sessions c') ->
        exists s, heap c' !! p = Some s /\ conn_done s = false
                  /\ (healthy s = true \/ IsDraining s = true))
  /\ (forall p, In p (sessions c) -> ~ In p (sessions c') ->
        dropped_by_monitor (heap c) (heap c') p)
  /\ same_roles (heap c) (heap c').
Proof.
  intros Hcs Halloc.
  destruct (checkSessions_spec _ _ _ _ Hcs) as (Hsub & Hc & Hk & _).
  split; [exact Hsub | split; [| split]].
  - intros p Hp. destruct (Hk p Hp) as (s & Hs & Hdone & Hok). eauto.
  - intros p Hp Hnot.
    unfold checkSessions in Hcs.
    destruct (sweep (heap c) (sessions c) [] None) as [[h active] prim] eqn:Hsw.
    assert (heap c' = h /\ sessions c' = active) as [Hh Hl].
    { destruct prim as [q |].
      - destruct (h !! q) as [primary |]; [| injection Hcs as <- _; auto].
        destruct (RemainingTTL primary t <=? OverlapWindow (cfg c));
          [| injection Hcs as <- _; auto].
        destruct (negb (any_session h IsSecondary active)
                  && (List.length active <? 2)%nat);
          [| injection Hcs as <- _; auto].
        destruct (canLaunchSecondary (launchState c) t).
        injection Hcs as <- _; auto.
      - destruct (List.length active <? 2)%nat; [| injection Hcs as <- _; auto].
        destruct (canLaunchPrimary (launchState c) t).
        injection Hcs as <- _; auto. }
    destruct (sweep_dropped _ _ _ _ _ _ _ Hsw p Hp (Halloc p Hp)) as [Hin | Hd].
    + exfalso. apply Hnot. rewrite Hl. exact Hin.
    + rewrite Hh. exact Hd.
  - now apply only_cancelled_same_roles.
Qed.

(** Of a healthy primary, an unhealthy secondary and a draining session
    with a closed transport, the monitor keeps the primary only. *)
Lemma monitor_keeps_live_sessions_witness :
  sublist (sessions (checkSessions three_roles 0).1) [0%nat; 1%nat; 2%nat]
  /\ sessions (checkSessions three_roles 0).1 = [0%nat].
Proof.
  split; [| vm_compute; reflexivity].
  apply (monitor_keeps_live_sessions three_roles _ 0 _ (surjective_pairing _)).
  intros p [<- | [<- | [<- | []]]]; vm_compute; eauto.
Defined.

(** The sessions of the slice that are primary after the critical section
    of [promoteSecondary] has promoted [sec]: only [sec]. *)
Lemma promoted_is_only_primary (c c' : ConnManager) (sec : ptr)
      (old : option ptr) (n : ptr) (s : Session) :
  roles_unique (heap c) (sessions c) n ->
  heap c !! sec = Some s -> IsHealthy s = true ->
  promoteSecondary c sec = (c', old) ->
  forall p s', In p (sessions c') -> heap c' !! p = Some s' ->
               IsPrimary s' = true -> p = sec.
Proof.
  intros (Hnd & Halloc & Hprim & Hsec1) Hsec Hh.
  unfold promoteSecondary. rewrite Hsec, Hh. cbn [negb].
  intros [= <- <-]. cbn [heap sessions].
  set (old := other_primary (heap c) sec (sessions c)).
  assert (old <> Some sec) as Hold.
  { intros Ho. destruct (other_primary_Some _ _ _ _ Ho) as (_ & Hne & _).
    now apply Hne. }
  intros p s' Hp Hs' Hrole.
  rewrite (promoted_lookup _ _ _ _ Hold) in Hs'.
  destruct (decide (old = Some p)) as [Ho | Ho].
  { destruct (heap c !! p); simpl in Hs'; [| discriminate].
    injection Hs' as <-. discriminate Hrole. }
  destruct (decide (p = sec)) as [-> | Hne]; [reflexivity |].
  exfalso. destruct old as [q |] eqn:Hq.
  - destruct (other_primary_Some _ _ _ _ Hq) as (Hqin & Hqne & sq & Hsq & Hqrole).
    assert (p <> q) by congruence.
    pose proof (count_two _ IsPrimary _ p q s' sq Hp Hqin ltac:(auto)
                  Hs' Hrole Hsq Hqrole). lia.
  - rewrite (other_primary_None _ _ _ Hq p s' Hp Hne Hs') in Hrole.
    discriminate.
Qed.

(** The promotion, as one step.  When the secondary is unhealthy nothing
    changes.  When it is healthy and in the slice, the critical section of
    [promoteSecondary] makes it the primary, turns the primary found in the
    slice into a draining session, leaves exactly one primary in the slice,
    and [GetCurrent] returns the promoted session from then on. *)
Theorem promotion_swaps_roles (c : ConnManager) (sec : ptr) (s : Session) (n : ptr) :
  roles_unique (heap c) (sessions c) n ->
  In sec (sessions c) -> heap c !! sec = Some s ->
  let c' := (promoteSecondary c sec).1 in
  let old := (promoteSecondary c sec).2 in
  (IsHealthy s = false -> c' = c /\ old = None)
  /\ (IsHealthy s = true ->
      sessions c' = sessions c
      /\ heap c' !! sec = Some (SetRole s RolePrimary)
      /\ (forall q, old = Some q ->
            q <> sec /\ In q (sessions c)
            /\ exists sq, heap c !! q = Some sq /\ IsPrimary sq = true
                          /\ heap c' !! q = Some (SetRole sq RoleDraining))
      /\ count_sessions (heap c') IsPrimary (sessions c') = 1%nat
      /\ GetCurrent c' = Some sec).
Proof.
  intros Hu Hin Hsec c' old. subst c' old. split.
  - intros Hh. unfold promoteSecondary. rewrite Hsec, Hh. auto.
  - intros Hh.
    destruct (promoteSecondary c sec) as [c' old] eqn:Hprom. cbn [fst snd].
    pose proof (promoted_is_only_primary _ _ _ _ _ _ Hu Hsec Hh Hprom) as Honly.
    pose proof (roles_unique_promote _ _ _ _ _ Hprom Hu) as (_ & _ & Hle & _).
    assert (old = other_primary (heap c) sec (sessions c)
            /\ sessions c' = sessions c
            /\ forall p, heap c' !! p
                 = if decide (old = Some p)
                   then (fun s => SetRole s RoleDraining) <$> heap c !! p
                   else if decide (p = sec)
                        then (fun s => SetRole s RolePrimary) <$> heap c !! p
                        else heap c !! p) as (Hold & Hl & Hlook).
    { unfold promoteSecondary in Hprom. rewrite Hsec, Hh in Hprom.
      cbn [negb] in Hprom. injection Hprom as <- <-. cbn [heap sessions].
      repeat split. intros p. apply promoted_lookup.
      intros Ho. destruct (other_primary_Some _ _ _ _ Ho) as (_ & Hne & _).
      now apply Hne. }
    assert (old <> Some sec) as Hns.
    { rewrite Hold. intros Ho.
      destruct (other_primary_Some _ _ _ _ Ho) as (_ & Hne & _). now apply Hne. }
    assert (heap c' !! sec = Some (SetRole s RolePrimary)) as Hsec'.
    { rewrite Hlook. destruct (decide (old = Some sec)); [contradiction |].
      destruct (decide (sec = sec)); [| contradiction]. now rewrite Hsec. }
    split; [exact Hl | split; [exact Hsec' | split; [| split]]].
    + intros q Hq. rewrite Hold in Hq.
      destruct (other_primary_Some _ _ _ _ Hq) as (Hqin & Hqne & sq & Hsq & Hrole).
      repeat split; auto. exists sq. repeat split; auto.
      rewrite Hlook, Hold, Hq.
      destruct (decide (Some q = Some q)); [| contradiction]. now rewrite Hsq.
    + assert (1 <= count_sessions (heap c') IsPrimary (sessions c'))%nat; [| lia].
      apply (count_positive _ _ _ sec (SetRole s RolePrimary)); auto.
      rewrite Hl. exact Hin.
    + rewrite GetCurrent_cases.
      assert (has_session c' healthy_primary) as Hhas.
      { exists sec, (SetRole s RolePrimary). rewrite Hl.
        repeat split; auto. }
      destruct (first_session_found _ _ _ Hhas) as [q Hq]. rewrite Hq.
      destruct (first_session_Some _ _ _ _ Hq) as (Hqin & sq & Hsq & Hc).
      apply andb_prop in Hc as [Hrole _].
      f_equal. eapply Honly; eauto.
Qed.

(** The healthy secondary of a slice with a primary is promoted. *)
Lemma promotion_swaps_roles_witness :
  GetCurrent (promoteSecondary primary_and_secondary 1%nat).1 = Some 1%nat
  /\ (promoteSecondary primary_and_secondary 1%nat).2 = Some 0%nat.
Proof.
  split; [| vm_compute; reflexivity].
  apply (promotion_swaps_roles primary_and_secondary 1%nat
           (mkSession "b" 0 RoleSecondary (480 * Second) true 0 false false)
           2%nat);
    [| right; now left | vm_compute; reflexivity | reflexivity].
  split; [| split; [| split; vm_compute; lia]].
  { apply NoDup_cons. split; [| apply NoDup_singleton].
    intros H%list_elem_of_singleton. discriminate H. }
  intros p [<- | [<- | []]]; split; try lia; vm_compute; eauto.
Defined.

End MonitorAndPromotion.

(** ** Rotation: particular runs *)

Section Runs.
Import Manager ManagerProps Rotation RotationProps.

(** After the run [overlapping_launches] the roles are still unique. *)
Lemma at_most_one_primary_and_secondary_witness :
  match run (started normal_mode "a" 0) overlapping_launches with
  | Some w =>
      (count_sessions (heap (cm w)) IsPrimary (sessions (cm w)) <= 1)%nat
      /\ (count_sessions (heap (cm w)) IsSecondary (sessions (cm w)) <= 1)%nat
  | None => False
  end.
Proof.
  destruct (run (started normal_mode "a" 0) overlapping_launches) as [w |] eqn:Hrun.
  - apply (at_most_one_primary_and_secondary normal_mode w).
    exists "a"%string, 0, overlapping_launches. split; [lia | exact Hrun].
  - vm_compute in Hrun. discriminate Hrun.
Defined.

(** C1: the slice can hold three sessions.  In normal mode (TTL 480 s,
    overlap window 90 s) the run [overlapping_launches] is possible and ends,
    430 s after the start, with three live sessions in [cm.sessions]: the
    first session [a], draining, the secondary [y] and the primary [z].

    The run: at 390 s the monitor starts a secondary launch, which appends
    [x] at 400 s; [x] is healthy at the ticks of [checkForPromotion] at
    405 s, 410 s and 415 s, so the third tick calls [promoteSecondary(x)];
    before that call gets the manager's lock the transport of [x] closes
    and the monitor runs: it drops [x] and, the primary [a] being alone
    again, starts another secondary launch, which passes its first check.
    [promoteSecondary(x)] then runs: [x] is still marked healthy, so [a]
    is demoted to draining, though [x] is no longer in the slice.  At 420 s
    the monitor finds no primary and one session, and starts a primary
    launch, which passes its first check.  At 425 s the secondary launch
    returns [y]: there is no secondary and one session, so [y] is appended.
    At 430 s the primary launch returns [z]: its second check only looks
    for a primary, finds none, and appends [z] to a slice of two.
    [launchPrimarySession] does not test the length of the slice, as
    [launchSecondarySession] does, and [promoteSecondary] does not test that
    the secondary is still in the slice. *)
Theorem three_sessions_reachable :
  exists w, run (started normal_mode "a" 0) overlapping_launches = Some w
            /\ reachable normal_mode w
            /\ List.length (sessions (cm w)) = 3%nat
            /\ now w = 430 * Second
            /\ map (fun p => Role <$> heap (cm w) !! p) (sessions (cm w))
               = [Some RoleDraining; Some RoleSecondary; Some RolePrimary]
            /\ map (fun p => ID <$> heap (cm w) !! p) (sessions (cm w))
               = [Some "a"; Some "y"; Some "z"]%string
            /\ Forall (fun p => exists s, heap (cm w) !! p = Some s
                                          /\ healthy s = true
                                          /\ conn_done s = false
                                          /\ cancelled s = false)
                      (sessions (cm w)).
Proof.
  destruct (run (started normal_mode "a" 0) overlapping_launches) as [w |] eqn:Hrun.
  - exists w. split; [reflexivity |]. split.
    + exists "a"%string, 0, overlapping_launches. split; [lia | exact Hrun].
    + vm_compute in Hrun. injection Hrun as <-.
      split; [reflexivity |]. split; [reflexivity |].
      split; [vm_compute; reflexivity |]. split; [vm_compute; reflexivity |].
      repeat constructor; eexists; (split; [vm_compute; reflexivity |]);
        repeat split.
  - vm_compute in Hrun. discriminate Hrun.
Qed.



End Runs.

(** ** The worker's control stream *)

Section WorkerControl.
Import Wire Control Manager Keepalive Worker.

Lemma readUint64_rest (r : Reader) :
  snd (fst (readUint64 r)) = None ->
  (List.length (snd (readUint64 r)) <= List.length r)%nat.
Proof.
  unfold readUint64, ReadFull.
  destruct (Nat.leb_spec 8 (List.length r)) as [H8 | H8].
  - destruct (Uint64 (firstn 8 r)); [| discriminate].
    intros _. cbn [snd]. rewrite List.length_skipn. lia.
  - destruct r; discriminate.
Qed.

Lemma ReadControlMessage_consumes (r : Reader) :
  ctl_err (ReadControlMessage r) = None ->
  (List.length (ctl_rest (ReadControlMessage r)) < List.length r)%nat.
Proof.
  destruct r as [| b r]; [discriminate |].
  unfold ReadControlMessage, readByte.
  change (b :: r) with ([b] ++ r) at 1 2.
  rewrite (ReadFull_app [b] r 1) by reflexivity. cbn [nth].
  destruct ((b =? OpPing) || (b =? OpPong)).
  - pose proof (readUint64_rest r) as Hr.
    destruct (readUint64 r) as [[v [e |]] r2]; [discriminate |].
    intros _. specialize (Hr eq_refl). cbn [snd ctl_rest] in *.
    cbn [List.length]. lia.
  - destruct (b =? OpShutdown); [| discriminate].
    intros _. cbn [ctl_rest List.length]. lia.
Qed.

Lemma control_loop_total (fuel : nat) :
  forall (r : Reader) (w : Writer),
    (List.length r < fuel)%nat -> exists res, control_loop fuel r w = Some res.
Proof.
  induction fuel as [| fuel IH]; intros r w Hlen; [lia |].
  cbn [control_loop]. cbv zeta.
  pose proof (ReadControlMessage_consumes r) as Hc.
  destruct (ctl_err (ReadControlMessage r)) as [err |].
  - destruct (is_EOF err); eauto.
  - specialize (Hc eq_refl).
    destruct (ctl_opcode (ReadControlMessage r) =? OpPing).
    + destruct (WritePong w (ctl_nonce (ReadControlMessage r))) as [w1 [e |]];
        [eauto | apply IH; lia].
    + destruct (ctl_opcode (ReadControlMessage r) =? OpShutdown);
        [eauto | apply IH; lia].
Qed.

Lemma control_loop_more (fuel : nat) :
  forall (fuel' : nat) (r : Reader) (w : Writer) (res : control_result),
    control_loop fuel r w = Some res -> (fuel <= fuel')%nat ->
    control_loop fuel' r w = Some res.
Proof.
  induction fuel as [| fuel IH]; intros fuel' r w res H Hle; [discriminate |].
  destruct fuel' as [| fuel']; [lia |].
  cbn [control_loop] in *. cbv zeta in *.
  destruct (ctl_err (ReadControlMessage r)) as [err |]; [exact H |].
  destruct (ctl_opcode (ReadControlMessage r) =? OpPing).
  - destruct (WritePong w (ctl_nonce (ReadControlMessage r))) as [w1 [e |]];
      [exact H | apply IH; [exact H | lia]].
  - destruct (ctl_opcode (ReadControlMessage r) =? OpShutdown);
      [exact H | apply IH; [exact H | lia]].
Qed.

Lemma WritePong_ok (w : Writer) (n : Z) :
  broken w = false ->
  WritePong w n = (mkWriter (written w ++ OpPong :: PutUint64 n) false, None).
Proof.
  intros Hw. unfold WritePong, writeByte, writeUint64, Write. rewrite Hw. cbn.
  rewrite <- app_assoc. reflexivity.
Qed.

Lemma WritePing_ok (w : Writer) (n : Z) :
  broken w = false ->
  WritePing w n = (mkWriter (written w ++ OpPing :: PutUint64 n) false, None).
Proof.
  intros Hw. unfold WritePing, writeByte, writeUint64, Write. rewrite Hw. cbn.
  rewrite <- app_assoc. reflexivity.
Qed.

Lemma control_loop_ping (fuel : nat) (n : Z) (tail : Reader) (w : Writer) :
  0 <= n < 2 ^ 64 -> broken w = false ->
  control_loop (S fuel) (OpPing :: PutUint64 n ++ tail) w
  = control_loop fuel tail (fst (WritePong w n)).
Proof.
  intros Hn Hw. cbn [control_loop]. cbv zeta.
  rewrite (read_nonce_frame OpPing n tail Hn (or_introl eq_refl)).
  cbn [ctl_err ctl_opcode ctl_nonce ctl_rest]. rewrite Z.eqb_refl.
  rewrite (WritePong_ok w n Hw). reflexivity.
Qed.

Lemma pings_from (ns : list Z) :
  forall w : Writer, broken w = false ->
    fold_left (fun w n => fst (WritePing w n)) ns w
    = mkWriter (written w ++ flat_map (fun n => OpPing :: PutUint64 n) ns) false.
Proof.
  induction ns as [| n ns IH]; intros w Hw.
  - cbn. rewrite app_nil_r. destruct w as [wr br]. cbn in Hw. now subst br.
  - cbn [fold_left flat_map]. rewrite (WritePing_ok w n Hw). cbn [fst].
    rewrite IH by reflexivity. cbn [written]. rewrite <- app_assoc. reflexivity.
Qed.

Lemma pongs_from (ns : list Z) :
  forall w : Writer, broken w = false ->
    pongs w ns
    = mkWriter (written w ++ flat_map (fun n => OpPong :: PutUint64 n) ns) false.
Proof.
  unfold pongs.
  induction ns as [| n ns IH]; intros w Hw.
  - cbn. rewrite app_nil_r. destruct w as [wr br]. cbn in Hw. now subst br.
  - cbn [fold_left flat_map]. rewrite (WritePong_ok w n Hw). cbn [fst].
    rewrite IH by reflexivity. cbn [written]. rewrite <- app_assoc. reflexivity.
Qed.

Lemma control_loop_pings (ns : list Z) :
  forall (fuel : nat) (tail : Reader) (w : Writer),
    Forall (fun n => 0 <= n < 2 ^ 64) ns -> broken w = false ->
    control_loop (List.length ns + fuel)
                 (flat_map (fun n => OpPing :: PutUint64 n) ns ++ tail) w
    = control_loop fuel tail (pongs w ns).
Proof.
  induction ns as [| n ns IH]; intros fuel tail w Hns Hw; [reflexivity |].
  inversion Hns as [| ? ? Hn Hns']; subst.
  cbn [List.length flat_map Nat.add].
  change ((OpPing :: PutUint64 n) ++ flat_map (fun n => OpPing :: PutUint64 n) ns)
    with (OpPing :: PutUint64 n ++ flat_map (fun n => OpPing :: PutUint64 n) ns).
  rewrite <- app_comm_cons, <- app_assoc.
  rewrite control_loop_ping by assumption.
  rewrite IH; [reflexivity | exact Hns' |].
  rewrite (WritePong_ok w n Hw). reflexivity.
Qed.

(** The worker returns on every input that ends. *)
Lemma handleControlStream_returns (r : Reader) (w : Writer) :
  exists res, handleControlStream r w = Some res.
Proof. apply control_loop_total. lia. Qed.

Lemma handleControlStream_from (fuel : nat) (r : Reader) (w : Writer)
      (res : control_result) :
  control_loop fuel r w = Some res -> handleControlStream r w = Some res.
Proof.
  intros H. unfold handleControlStream.
  destruct (Nat.le_gt_cases fuel (S (List.length r))) as [Hle | Hgt].
  - apply (control_loop_more fuel); assumption.
  - destruct (control_loop_total (S (List.length r)) r w) as [res' Hres']; [lia |].
    rewrite Hres'.
    rewrite (control_loop_more _ fuel r w res' Hres') in H by lia.
    exact H.
Qed.

(** The worker answers every ping with the pong of the same nonce, in
    order.  When the stream delivers the pings with the nonces [ns] and then
    ends, or delivers them followed by a shutdown frame, the worker has
    written exactly the pong frames for [ns] after what the stream held,
    and it reports a normal end ([done <- nil]); what follows the shutdown
    frame is not read. *)
Theorem worker_answers_pings (ns : list Z) (w : Writer) (rest : Reader) :
  Forall (fun n => 0 <= n < 2 ^ 64) ns -> broken w = false ->
  handleControlStream (written (pings ns)) w
  = Some (mkControl (pongs w ns) (Done None) [])
  /\ handleControlStream (written (fst (WriteShutdown (pings ns))) ++ rest) w
     = Some (mkControl (pongs w ns) (Done None) rest)
  /\ written (pongs w ns)
     = written w ++ flat_map (fun n => OpPong :: PutUint64 n) ns.
Proof.
  intros Hns Hw. unfold pings.
  rewrite (pings_from ns new_buffer eq_refl). cbn [written new_buffer app].
  split; [| split].
  - apply (handleControlStream_from (List.length ns + 1)).
    rewrite <- (app_nil_r (flat_map _ ns)).
    rewrite control_loop_pings by assumption. reflexivity.
  - apply (handleControlStream_from (List.length ns + 1)).
    unfold WriteShutdown, writeByte, Write. cbn [broken written fst].
    rewrite <- app_assoc.
    rewrite control_loop_pings by assumption. reflexivity.
  - rewrite (pongs_from ns w Hw). reflexivity.
Qed.

(** Three pings on a fresh stream. *)
Lemma worker_answers_pings_witness :
  handleControlStream (written (pings [1; 2; 3])) new_buffer
  = Some (mkControl (pongs new_buffer [1; 2; 3]) (Done None) [])
  /\ written (pongs new_buffer [1; 2; 3])
     = [2; 0; 0; 0; 0; 0; 0; 0; 1;
        2; 0; 0; 0; 0; 0; 0; 0; 2;
        2; 0; 0; 0; 0; 0; 0; 0; 3].
Proof.
  destruct (worker_answers_pings [1; 2; 3] new_buffer []) as (H1 & _ & H3).
  - repeat constructor; lia.
  - reflexivity.
  - split; [exact H1 | rewrite H3; reflexivity].
Defined.

Lemma ReadControlMessage_unknown (b : Z) (tail : Reader) :
  b <> 1 -> b <> 2 -> b <> 3 ->
  ReadControlMessage (b :: tail) = mkCtl b 0 (Some (Errorf "unknown opcode")) tail.
Proof.
  intros H1 H2 H3. unfold ReadControlMessage, readByte.
  change (b :: tail) with ([b] ++ tail).
  rewrite (ReadFull_app [b] tail 1) by reflexivity. cbn [nth].
  unfold OpPing, OpPong, OpShutdown.
  destruct (Z.eqb_spec b 1); [contradiction |].
  destruct (Z.eqb_spec b 2); [contradiction |].
  destruct (Z.eqb_spec b 3); [contradiction |]. reflexivity.
Qed.

(** How the worker's control loop ends otherwise.  A pong frame is read and
    ignored.  A first byte that is no opcode ends the loop with the
    unknown-opcode error sent on [done].  A stream that ends right after a
    ping opcode counts as a normal end, since the error wraps [io.EOF]; a
    stream that ends inside the nonce is reported as an error.  When the
    pong cannot be written the loop returns and sends nothing on [done]. *)
Theorem worker_control_stream_ends (w : Writer) :
  (forall (n : Z) (tail : Reader), 0 <= n < 2 ^ 64 ->
     handleControlStream (OpPong :: PutUint64 n ++ tail) w
     = handleControlStream tail w)
  /\ (forall (b : Z) (tail : Reader), b <> 1 -> b <> 2 -> b <> 3 ->
     handleControlStream (b :: tail) w
     = Some (mkControl w (Done (Some (Errorf "unknown opcode"))) tail))
  /\ handleControlStream [OpPing] w = Some (mkControl w (Done None) [])
  /\ (forall partial : list Z, (0 < List.length partial < 8)%nat ->
     handleControlStream (OpPing :: partial) w
     = Some (mkControl w
               (Done (Some (Wrapped "failed to read nonce" ErrUnexpectedEOF))) []))
  /\ (forall (n : Z) (tail : Reader), 0 <= n < 2 ^ 64 -> broken w = true ->
     handleControlStream (OpPing :: PutUint64 n ++ tail) w
     = Some (mkControl w Silent tail)).
Proof.
  split; [| split; [| split; [| split]]].
  - intros n tail Hn.
    destruct (handleControlStream_returns tail w) as [res Hres].
    rewrite Hres. apply (handleControlStream_from (S (S (List.length tail)))).
    cbn [control_loop]. cbv zeta.
    rewrite (read_nonce_frame OpPong n tail Hn (or_intror eq_refl)).
    cbn [ctl_err ctl_opcode ctl_rest].
    change (OpPong =? OpPing) with false. change (OpPong =? OpShutdown) with false.
    cbv iota. exact Hres.
  - intros b tail H1 H2 H3. apply (handleControlStream_from 1).
    cbn [control_loop]. cbv zeta.
    rewrite (ReadControlMessage_unknown b tail H1 H2 H3). reflexivity.
  - reflexivity.
  - intros partial Hlen. apply (handleControlStream_from 1).
    cbn [control_loop]. cbv zeta.
    unfold ReadControlMessage, readByte.
    change (OpPing :: partial) with ([OpPing] ++ partial).
    rewrite (ReadFull_app [OpPing] partial 1) by reflexivity. cbn [nth].
    change ((OpPing =? OpPing) || (OpPing =? OpPong)) with true. cbv iota.
    unfold readUint64, ReadFull.
    destruct (Nat.leb_spec 8 (List.length partial)) as [H8 | H8]; [lia |].
    destruct partial as [| b partial]; [cbn in Hlen; lia |].
    reflexivity.
  - intros n tail Hn Hw. apply (handleControlStream_from 1).
    cbn [control_loop]. cbv zeta.
    rewrite (read_nonce_frame OpPing n tail Hn (or_introl eq_refl)).
    cbn [ctl_err ctl_opcode ctl_nonce ctl_rest]. rewrite Z.eqb_refl.
    unfold WritePong, writeByte, Write. rewrite Hw. reflexivity.
Qed.

Lemma WritePong_extends (w : Writer) (n : Z) :
  exists more, written (fst (WritePong w n)) = written w ++ more.
Proof.
  unfold WritePong, writeByte, writeUint64, Write.
  destruct (broken w); cbn.
  - exists []. now rewrite app_nil_r.
  - eexists. rewrite <- app_assoc. reflexivity.
Qed.

Lemma control_loop_extends (fuel : nat) :
  forall (r : Reader) (w : Writer) (res : control_result),
    control_loop fuel r w = Some res ->
    exists more, written (out res) = written w ++ more.
Proof.
  induction fuel as [| fuel IH]; intros r w res H; [discriminate |].
  cbn [control_loop] in H. cbv zeta in H.
  assert (exists more, written w = written w ++ more) as Hsame
    by (exists []; now rewrite app_nil_r).
  destruct (ctl_err (ReadControlMessage r)) as [err |].
  - destruct (is_EOF err); injection H as <-; exact Hsame.
  - destruct (ctl_opcode (ReadControlMessage r) =? OpPing).
    + destruct (WritePong_extends w (ctl_nonce (ReadControlMessage r)))
        as [m1 Hm1].
      destruct (WritePong w (ctl_nonce (ReadControlMessage r))) as [w1 [e |]];
        cbn [fst] in Hm1.
      * injection H as <-. cbn [out]. eauto.
      * destruct (IH _ _ _ H) as [m2 Hm2]. exists (m1 ++ m2).
        rewrite Hm2, Hm1, <- app_assoc. reflexivity.
    + destruct (ctl_opcode (ReadControlMessage r) =? OpShutdown).
      * injection H as <-. exact Hsame.
      * apply (IH _ _ _ H).
Qed.

(** One round of the keepalive against the worker.  When the launcher's
    loop runs and writes its next ping, the worker's control loop, whatever
    the stream delivers to it afterwards, writes first the pong of that
    nonce; on reading it the launcher's round sets the missed-ping counter
    to 0, marks the session healthy and keeps the loop running. *)
Theorem keepalive_round_with_worker (st : state) (later : Reader) :
  running st = true ->
  let n := next_nonce (nonce st) in
  let ping := WritePing new_buffer n in
  exists res,
    handleControlStream (written (fst ping) ++ later) new_buffer = Some res
    /\ step st (Tick false (snd ping) (ReadControlMessage (written (out res))) false)
       = mkState (SetHealthy (ResetMissedPings (session st)) true) n true.
Proof.
  intros Hrun n ping. subst ping.
  assert (0 <= n < 2 ^ 64) as Hn by (apply Z.mod_pos_bound; lia).
  rewrite (WritePing_ok new_buffer n eq_refl). cbn [fst snd written new_buffer app].
  destruct (handleControlStream_returns (OpPing :: PutUint64 n ++ later) new_buffer)
    as [res Hres].
  exists res. split.
  - exact Hres.
  - unfold handleControlStream in Hres.
    cbn [List.length] in Hres.
    rewrite control_loop_ping in Hres by (exact Hn || reflexivity).
    destruct (control_loop_extends _ _ _ _ Hres) as [more Hmore].
    rewrite (WritePong_ok new_buffer n eq_refl) in Hmore.
    cbn [fst written new_buffer app] in Hmore. rewrite Hmore.
    rewrite (read_nonce_frame OpPong n more Hn (or_intror eq_refl)).
    unfold step. rewrite Hrun. cbn [negb ctl_err ctl_opcode ctl_nonce].
    fold n. rewrite !Z.eqb_refl. reflexivity.
Qed.

(** The first round of a fresh session's loop. *)
Lemma keepalive_round_with_worker_witness :
  let st := start (mkSession "ab" 0 RolePrimary 0 false 2 false false) in
  exists res,
    handleControlStream (written (fst (WritePing new_buffer 1)) ++ []) new_buffer
    = Some res
    /\ step st (Tick false None (ReadControlMessage (written (out res))) false)
       = mkState (mkSession "ab" 0 RolePrimary 0 true 0 false false) 1 true.
Proof.
  exact (keepalive_round_with_worker
           (start (mkSession "ab" 0 RolePrimary 0 false 2 false false)) []
           eq_refl).
Defined.

End WorkerControl.

(** ** The target request between the front-end and the worker *)

Section TargetRequest.
Import Wire Socks5Target SessionID Proxy Tunnel.

Lemma string_of_bytes_of_string (s : string) :
  string_of_bytes (bytes_of_string s) = s.
Proof.
  unfold string_of_bytes, bytes_of_string. rewrite List.map_map.
  rewrite (List.map_ext _ (fun c => c)).
  - rewrite List.map_id. apply string_of_list_ascii_of_string.
  - intros c. rewrite N2Z.id. apply ascii_N_embedding.
Qed.

Lemma string_of_bytes_length (buf : list Z) :
  String.length (string_of_bytes buf) = List.length buf.
Proof.
  unfold string_of_bytes.
  induction buf as [| b buf IH]; simpl; [reflexivity | now rewrite IH].
Qed.

Lemma length_too_long (n : Z) :
  0 <= n < 2 ^ 32 -> Z.land n (Z.ones 32) = n.
Proof.
  intros Hn. rewrite Z.land_ones by lia. apply Z.mod_small. exact Hn.
Qed.

(** What is written for a target and what is read back.  On a working
    stream [WriteSOCKS5TargetAddress], like the two writes of the
    front-end, appends the length of the target as four big-endian bytes
    and then the target's bytes, whatever the length.
    [ReadSOCKS5TargetAddress] on these bytes returns the target and leaves
    what follows, unless the target is empty or longer than 1024 bytes:
    the reader then fails, and for a long target it leaves the target's
    bytes unread. *)
Theorem target_address_roundtrip (target : string) (w : Writer) (rest : Reader) :
  broken w = false -> Z.of_nat (String.length target) < 2 ^ 32 ->
  let sent := PutUint32 (Z.of_nat (String.length target))
              ++ bytes_of_string target in
  WriteSOCKS5TargetAddress w target = (mkWriter (written w ++ sent) false, None)
  /\ sendTarget w target = (mkWriter (written w ++ sent) false, None)
  /\ ReadSOCKS5TargetAddress (sent ++ rest)
     = if (String.length target =? 0)%nat
       then (inr (Errorf "empty target address"), rest)
       else if (1024 <? String.length target)%nat
       then (inr (Errorf "target address too long"),
             bytes_of_string target ++ rest)
       else (inl target, rest).
Proof.
  intros Hw Hlen sent. subst sent.
  assert (Z.land (Z.of_nat (List.length (bytes_of_string target))) (Z.ones 32)
          = Z.of_nat (String.length target)) as Hland.
  { rewrite bytes_of_string_length. apply length_too_long. lia. }
  split; [| split].
  - unfold WriteSOCKS5TargetAddress. cbv zeta. rewrite Hland.
    unfold Write. rewrite Hw. cbn [broken written].
    rewrite <- app_assoc. reflexivity.
  - unfold sendTarget. cbv zeta. rewrite Hland.
    unfold Write. rewrite Hw. cbn [broken written].
    rewrite <- app_assoc. reflexivity.
  - unfold ReadSOCKS5TargetAddress. rewrite <- app_assoc.
    rewrite (ReadFull_app (PutUint32 _) _ 4) by reflexivity.
    rewrite Uint32_PutUint32 by lia. unfold MaxTargetAddressLength.
    destruct (Nat.eqb_spec (String.length target) 0) as [H0 | H0].
    + destruct target as [| c target]; [| discriminate H0]. reflexivity.
    + destruct (Nat.ltb_spec 1024 (String.length target)) as [Hbig | Hsmall].
      * destruct (Z.gtb_spec (Z.of_nat (String.length target)) 1024); [| lia].
        reflexivity.
      * destruct (Z.gtb_spec (Z.of_nat (String.length target)) 1024); [lia |].
        rewrite Nat2Z.id.
        rewrite (ReadFull_app (bytes_of_string target) rest)
          by apply bytes_of_string_length.
        rewrite string_of_bytes_of_string.
        destruct (String.eqb_spec target "") as [-> | _];
          [contradiction H0; reflexivity | reflexivity].
Qed.

(** A target of the usual form. *)
Lemma target_address_roundtrip_witness :
  ReadSOCKS5TargetAddress
    ((PutUint32 16 ++ bytes_of_string "example.test:443") ++ [0; 1])
  = (inl "example.test:443"%string, [0; 1]).
Proof.
  exact (proj2 (proj2 (target_address_roundtrip "example.test:443" new_buffer
                         [0; 1] eq_refl ltac:(vm_compute; reflexivity)))).
Defined.

End TargetRequest.

(** ** From the client's request to the worker's dial *)

Section TunnelSetup.
Import Wire Socks5Target SessionID Proxy Tunnel.

Lemma double_digits (d : Decimal.uint) :
  (Decimal.nb_digits (Decimal.Little.double d) <= S (Decimal.nb_digits d))%nat
  /\ (Decimal.nb_digits (Decimal.Little.succ_double d)
      <= S (Decimal.nb_digits d))%nat.
Proof.
  induction d as [| d [IH1 IH2] | d [IH1 IH2] | d [IH1 IH2] | d [IH1 IH2]
                  | d [IH1 IH2] | d [IH1 IH2] | d [IH1 IH2] | d [IH1 IH2]
                  | d [IH1 IH2] | d [IH1 IH2]];
    cbn [Decimal.Little.double Decimal.Little.succ_double Decimal.nb_digits];
    lia.
Qed.

Lemma to_little_uint_digits (p : positive) :
  (Decimal.nb_digits (Pos.to_little_uint p) <= Pos.size_nat p)%nat.
Proof.
  induction p as [p IH | p IH |]; cbn [Pos.to_little_uint Pos.size_nat].
  - pose proof (proj2 (double_digits (Pos.to_little_uint p))). lia.
  - pose proof (proj1 (double_digits (Pos.to_little_uint p))). lia.
  - cbn. lia.
Qed.

Lemma string_of_uint_length (d : Decimal.uint) :
  String.length (NilEmpty.string_of_uint d) = Decimal.nb_digits d.
Proof.
  induction d; cbn [NilEmpty.string_of_uint String.length Decimal.nb_digits];
    congruence.
Qed.

Lemma size_nat_bound (p : positive) :
  forall k : nat, Z.pos p < 2 ^ Z.of_nat k -> (Pos.size_nat p <= k)%nat.
Proof.
  induction p as [p IH | p IH |]; intros k Hk; cbn [Pos.size_nat].
  - destruct k as [| k]; [cbn in Hk; lia |].
    rewrite Nat2Z.inj_succ, Z.pow_succ_r in Hk by lia.
    specialize (IH k). lia.
  - destruct k as [| k]; [cbn in Hk; lia |].
    rewrite Nat2Z.inj_succ, Z.pow_succ_r in Hk by lia.
    specialize (IH k). lia.
  - destruct k as [| k]; [cbn in Hk; lia | lia].
Qed.

(** [%d] of a number below [2^k] has at most [k] characters, and at least
    one. *)
Lemma Sprintf_d_length (n : Z) (k : nat) :
  0 <= n < 2 ^ Z.of_nat k -> (0 < k)%nat ->
  (0 < String.length (Sprintf_d n) <= k)%nat.
Proof.
  intros Hn Hk. unfold Sprintf_d.
  destruct n as [| p | p]; [cbn; lia | | lia].
  cbn [Z.to_int NilZero.string_of_int]. unfold Pos.to_uint.
  pose proof (to_little_uint_digits p) as Hd.
  pose proof (size_nat_bound p k ltac:(lia)) as Hs.
  rewrite <- DecimalFacts.nb_digits_rev in Hd.
  unfold NilZero.string_of_uint.
  pose proof (string_of_uint_length (Decimal.rev (Pos.to_little_uint p))) as Hl.
  destruct (Decimal.rev (Pos.to_little_uint p)) eqn:Hrev;
    [cbn; lia | rewrite Hl; cbn [Decimal.nb_digits] in *; lia ..].
Qed.

Lemma string_length_append (s t : string) :
  String.length (s ++ t) = (String.length s + String.length t)%nat.
Proof.
  induction s as [| c s IH]; simpl; [reflexivity |].
  f_equal. exact IH.
Qed.

Lemma Uint16_range (b : list Z) (v : Z) :
  Forall is_byte b -> Uint16 b = Ret v -> 0 <= v < 2 ^ 16.
Proof.
  intros Hb. unfold Uint16, Wire.Uint16.
  destruct b as [| b0 [| b1 rest]]; try discriminate.
  intros [= <-].
  inversion Hb as [| ? ? H0 Hb']; subst. inversion Hb' as [| ? ? H1 _]; subst.
  unfold is_byte in *.
  pose proof (Z.add_lor_land b1 (Z.shiftl b0 8)) as Hadd.
  assert (0 <= Z.land b1 (Z.shiftl b0 8)) as Hland.
  { apply Z.land_nonneg. left. lia. }
  assert (0 <= Z.lor b1 (Z.shiftl b0 8)) as Hlor.
  { apply Z.lor_nonneg. split; [lia |]. apply Z.shiftl_nonneg. lia. }
  rewrite Z.shiftl_mul_pow2 in * by lia. lia.
Qed.

Lemma slice_bytes (buf : list Z) (lo hi : Z) (s : list Z) :
  Forall is_byte buf -> slice buf lo hi = Ret s ->
  Forall is_byte s /\ Z.of_nat (List.length s) <= hi - lo.
Proof.
  intros Hb. unfold slice.
  destruct (Z.leb_spec 0 lo); [| discriminate].
  destruct (Z.leb_spec lo hi); [| discriminate].
  destruct (Z.leb_spec hi (Z.of_nat (List.length buf))); [| discriminate].
  intros [= <-]. split.
  - apply Forall_take, Forall_drop, Hb.
  - rewrite List.length_firstn. lia.
Qed.

Lemma index_byte (buf : list Z) (i b : Z) :
  Forall is_byte buf -> index buf i = Ret b -> 0 <= b < 2 ^ 8.
Proof.
  intros Hb. unfold index.
  destruct (Z.leb_spec 0 i) as [H0 |]; [| discriminate].
  destruct (Z.ltb_spec i (Z.of_nat (List.length buf))) as [Hi |]; [| discriminate].
  intros [= <-]. rewrite List.Forall_forall in Hb.
  apply (Hb (nth (Z.to_nat i) buf 0)). apply nth_In. lia.
Qed.

(** What the parse returns: an address of at most 255 characters and a
    port below 65536. *)
Lemma parseTarget_shape (buf : list Z) (a : string) (p : Z) :
  Forall is_byte buf -> parseTarget buf = Ret (a, p) ->
  (String.length a <= 255)%nat /\ 0 <= p < 2 ^ 16.
Proof.
  intros Hb. unfold parseTarget, mbind, outcome_bind.
  destruct (index buf 3) as [atyp | |]; cbn [bind]; try discriminate.
  destruct (atyp =? SOCKS5IPv4).
  - destruct (index buf 4) as [b4 | |] eqn:H4; cbn [bind]; try discriminate.
    destruct (index buf 5) as [b5 | |] eqn:H5; cbn [bind]; try discriminate.
    destruct (index buf 6) as [b6 | |] eqn:H6; cbn [bind]; try discriminate.
    destruct (index buf 7) as [b7 | |] eqn:H7; cbn [bind]; try discriminate.
    destruct (slice buf 8 10) as [s | |] eqn:Hs; cbn [bind]; try discriminate.
    destruct (Uint16 s) as [v | |] eqn:Hv; cbn [bind]; try discriminate.
    intros [= <- <-].
    destruct (slice_bytes _ _ _ _ Hb Hs) as [Hsb _].
    split; [| apply (Uint16_range s v Hsb Hv)].
    pose proof (Sprintf_d_length b4 8 (index_byte _ _ _ Hb H4) ltac:(lia)).
    pose proof (Sprintf_d_length b5 8 (index_byte _ _ _ Hb H5) ltac:(lia)).
    pose proof (Sprintf_d_length b6 8 (index_byte _ _ _ Hb H6) ltac:(lia)).
    pose proof (Sprintf_d_length b7 8 (index_byte _ _ _ Hb H7) ltac:(lia)).
    rewrite !string_length_append. cbn [String.length]. lia.
  - destruct (atyp =? SOCKS5DomainName); [| discriminate].
    destruct (index buf 4) as [domainLen | |] eqn:H4; cbn [bind]; try discriminate.
    destruct (slice buf 5 (uint8 (5 + domainLen))) as [d | |] eqn:Hd;
      cbn [bind]; try discriminate.
    destruct (slice buf (uint8 (5 + domainLen)) (uint8 (7 + domainLen)))
      as [s | |] eqn:Hs; cbn [bind]; try discriminate.
    destruct (Uint16 s) as [v | |] eqn:Hv; cbn [bind]; try discriminate.
    intros [= <- <-].
    destruct (slice_bytes _ _ _ _ Hb Hd) as [_ Hdl].
    destruct (slice_bytes _ _ _ _ Hb Hs) as [Hsb _].
    split; [| apply (Uint16_range s v Hsb Hv)].
    rewrite string_of_bytes_length.
    assert (0 <= uint8 (5 + domainLen) < 256)
      by (unfold uint8; apply Z.mod_pos_bound; lia).
    lia.
Qed.

(** The target the front-end composes is not empty and has at most 272
    characters. *)
Lemma handleRequest_shape (handshake request : list Z) (target : string) :
  Forall is_byte handshake -> Forall is_byte request ->
  handleRequest handshake request = Ret target ->
  (0 < String.length target <= 272)%nat.
Proof.
  intros Hhs Hrq. unfold handleRequest, mbind, outcome_bind. cbv zeta.
  destruct (Read (make OptimizedBufferSize) handshake) as [buf1 | |] eqn:HR1;
    cbn [bind]; try discriminate.
  pose proof (Read_bytes _ _ _ (make_bytes _) Hhs HR1) as Hb1.
  destruct (index buf1 0) as [v1 | |]; cbn [bind]; try discriminate.
  destruct (negb (v1 =? SOCKS5Version)); [discriminate |].
  destruct (Read buf1 request) as [buf2 | |] eqn:HR2; cbn [bind]; try discriminate.
  pose proof (Read_bytes _ _ _ Hb1 Hrq HR2) as Hb2.
  destruct (index buf2 0) as [v2 | |]; cbn [bind]; try discriminate.
  destruct (negb (v2 =? SOCKS5Version)); [discriminate |].
  destruct (index buf2 1) as [c | |]; cbn [bind]; try discriminate.
  destruct (negb (c =? SOCKS5Connect)); [discriminate |].
  destruct (parseTarget buf2) as [[a p] | |] eqn:HP; cbn [bind]; try discriminate.
  intros [= <-]. cbn [fst snd].
  destruct (parseTarget_shape buf2 a p Hb2 HP) as [Ha Hp].
  pose proof (Sprintf_d_length p 16 Hp ltac:(lia)).
  rewrite !string_length_append. cbn [String.length]. lia.
Qed.

Lemma sendTarget_written (target : string) (w : Writer) :
  broken w = false -> Z.of_nat (String.length target) < 2 ^ 32 ->
  sendTarget w target
  = (mkWriter (written w ++ PutUint32 (Z.of_nat (String.length target))
                 ++ bytes_of_string target) false, None).
Proof.
  intros Hw Hlen. unfold sendTarget. cbv zeta.
  rewrite bytes_of_string_length, length_too_long by lia.
  unfold Write. rewrite Hw. cbn [broken written].
  rewrite <- app_assoc. reflexivity.
Qed.

Lemma read_sent_target (target : string) (rest : Reader) :
  (0 < String.length target <= 1024)%nat ->
  ReadSOCKS5TargetAddress
    (PutUint32 (Z.of_nat (String.length target)) ++ bytes_of_string target ++ rest)
  = (inl target, rest).
Proof.
  intros Hlen. unfold ReadSOCKS5TargetAddress.
  rewrite (ReadFull_app (PutUint32 _) _ 4) by reflexivity.
  rewrite Uint32_PutUint32 by lia. unfold MaxTargetAddressLength.
  destruct (Z.gtb_spec (Z.of_nat (String.length target)) 1024); [lia |].
  rewrite Nat2Z.id.
  rewrite (ReadFull_app (bytes_of_string target) rest)
    by apply bytes_of_string_length.
  rewrite string_of_bytes_of_string.
  destruct (String.eqb_spec target "") as [-> | _]; [cbn in Hlen; lia | reflexivity].
Qed.

(** From the client's request to the worker's dial.  Whenever the front-end
    composes a target from the client's handshake and CONNECT request, its
    two writes to a fresh stream go through, the worker's
    [handleSOCKS5Stream] reads back that very target from the stream and
    dials it; the worker answers with one byte, 0 when the dial succeeds
    and 1 when it fails, and goes on to forward only in the first case; on
    that byte the front-end sends the client the success response in the
    first case and the failure response in the second. *)
Theorem tunnel_reaches_requested_target
        (dial : string -> bool) (handshake request : list Z) (target : string) :
  Forall is_byte handshake -> Forall is_byte request ->
  handleRequest handshake request = Ret target ->
  let sent := sendTarget new_buffer target in
  let served := handleSOCKS5Stream dial (written (fst sent)) new_buffer in
  snd sent = None
  /\ served
     = (mkWriter [if dial target then SOCKS5ResponseSuccess
                  else SOCKS5ResponseError] false,
        if dial target then Forwarding target else NoConnection target,
        [])
  /\ awaitResponse (written (fst (fst served)))
     = if dial target then SOCKS5SuccessResponse else SOCKS5FailureResponse.
Proof.
  intros Hhs Hrq Hreq sent served. subst sent served.
  pose proof (handleRequest_shape _ _ _ Hhs Hrq Hreq) as Hlen.
  rewrite (sendTarget_written target new_buffer eq_refl) by lia.
  cbn [fst snd written new_buffer app].
  split; [reflexivity |].
  unfold handleSOCKS5Stream.
  rewrite <- (app_nil_r (bytes_of_string target)).
  rewrite read_sent_target by lia.
  destruct (dial target); cbn; split; reflexivity.
Qed.

(** A CONNECT request for an IPv4 address, and a worker whose dial fails. *)
Lemma tunnel_reaches_requested_target_witness :
  handleSOCKS5Stream (fun _ => false)
    (written (fst (sendTarget new_buffer "203.0.113.10:443"))) new_buffer
  = (mkWriter [1] false, NoConnection "203.0.113.10:443", [])
  /\ awaitResponse [1] = SOCKS5FailureResponse.
Proof.
  destruct (tunnel_reaches_requested_target (fun _ => false) [5; 1; 0]
              [5; 1; 0; 1; 203; 0; 113; 10; 1; 187] "203.0.113.10:443"
              ltac:(repeat constructor; unfold is_byte; lia)
              ltac:(repeat constructor; unfold is_byte; lia)
              ltac:(vm_compute; reflexivity))
    as (_ & Hserved & Hreply).
  split; [exact Hserved |].
  rewrite Hserved in Hreply. exact Hreply.
Defined.

End TunnelSetup.

(** ** The health loop over a whole run *)

Section KeepaliveRuns.
Import Wire Control Manager Keepalive.

(** One round keeps the count between 0 and 3, keeps a running loop's
    session healthy with fewer than three misses, and touches nothing of
    the session but the health flag and the count. *)
Lemma step_keeps (s : Session) (st : state) (ev : event) :
  0 <= missedPings (session st) <= 3 ->
  (running st = true ->
   healthy (session st) = true /\ missedPings (session st) < 3) ->
  SetHealthy (ResetMissedPings (session st)) true
  = SetHealthy (ResetMissedPings s) true ->
  0 <= missedPings (session (step st ev)) <= 3
  /\ (running (step st ev) = true ->
      healthy (session (step st ev)) = true
      /\ missedPings (session (step st ev)) < 3)
  /\ SetHealthy (ResetMissedPings (session (step st ev))) true
     = SetHealthy (ResetMissedPings s) true.
Proof.
  intros Hm Hr Hs. unfold step.
  destruct (running st) eqn:Hrun; cbn [negb].
  2:{ split; [exact Hm |]. split; [| exact Hs].
      intros Hx. rewrite Hrun in Hx. discriminate Hx. }
  specialize (Hr eq_refl). destruct Hr as [Hh Hlt].
  destruct ev as [| | cancelled_before write_err reply cancelled_after];
    cbn [session running]; try (split; [lia | split; [discriminate | exact Hs]]).
  destruct cancelled_before; cbn [session running];
    [split; [lia | split; [discriminate | exact Hs]] |].
  destruct write_err as [e |]; cbn [session running].
  { split; [cbn; lia | split; [discriminate | exact Hs]]. }
  destruct cancelled_after; cbn [session running];
    [split; [lia | split; [discriminate | exact Hs]] |].
  destruct (ctl_err reply) as [e |].
  - unfold IncrementMissedPings. cbv zeta.
    rewrite wrap64_small by lia.
    destruct (Z.geb_spec (missedPings (session st) + 1) 3);
      cbn [session running SetHealthy missedPings healthy].
    + split; [lia | split; [discriminate | exact Hs]].
    + split; [lia | split; [intros _; split; [exact Hh | lia] | exact Hs]].
  - destruct ((ctl_opcode reply =? OpPong)
              && (ctl_nonce reply =? next_nonce (nonce st)));
      cbn [session running].
    + split; [cbn; lia | split; [intros _; cbn; split; [reflexivity | lia] |]].
      rewrite <- Hs. reflexivity.
    + destruct (ctl_opcode reply =? OpShutdown); cbn [session running].
      * split; [cbn; lia | split; [discriminate | exact Hs]].
      * split; [lia | split; [intros _; split; [exact Hh | lia] | exact Hs]].
Qed.

(** Whatever the loop meets, from its start on a session with no missed
    ping: as long as it runs the session is marked healthy and has missed
    fewer than three pings in a row; the count of missed pings never leaves
    0..3; and the loop changes nothing of the session but the health flag
    and that count: identity, start time, role, TTL, transport and
    cancellation are as they were. *)
Theorem keepalive_running_is_healthy (s : Session) (evs : list event) :
  missedPings s = 0 ->
  let st := run (start s) evs in
  (running st = true ->
   healthy (session st) = true /\ missedPings (session st) < 3)
  /\ 0 <= missedPings (session st) <= 3
  /\ ID (session st) = ID s /\ StartedAt (session st) = StartedAt s
  /\ Role (session st) = Role s /\ TTL (session st) = TTL s
  /\ conn_done (session st) = conn_done s
  /\ cancelled (session st) = cancelled s.
Proof.
  intros Hs st. subst st. unfold run.
  assert (forall st0,
            0 <= missedPings (session st0) <= 3 ->
            (running st0 = true ->
             healthy (session st0) = true /\ missedPings (session st0) < 3) ->
            SetHealthy (ResetMissedPings (session st0)) true
            = SetHealthy (ResetMissedPings s) true ->
            let st := fold_left step evs st0 in
            0 <= missedPings (session st) <= 3
            /\ (running st = true ->
                healthy (session st) = true /\ missedPings (session st) < 3)
            /\ SetHealthy (ResetMissedPings (session st)) true
               = SetHealthy (ResetMissedPings s) true) as Hrun.
  { induction evs as [| ev evs IH]; intros st0 Hm Hr Heq; cbn [fold_left].
    - auto.
    - destruct (step_keeps s st0 ev Hm Hr Heq) as (Hm' & Hr' & Heq').
      apply IH; assumption. }
  destruct (Hrun (start s)) as (Hm & Hr & Heq).
  - cbn. lia.
  - intros _. cbn. split; [reflexivity | lia].
  - reflexivity.
  - split; [exact Hr |]. split; [exact Hm |].
    unfold SetHealthy, ResetMissedPings in Heq. cbn in Heq.
    injection Heq as H1 H2 H3 H4 H5 H6. auto 10.
Qed.

(** Two misses, a pong and a miss: the loop still runs. *)
Lemma keepalive_running_is_healthy_witness :
  let s := mkSession "ab" 0 RolePrimary 0 false 0 false false in
  let st := run (start s) [miss EOF; miss EOF] in
  running (step st (pong st)) = true
  /\ healthy (session (step st (pong st))) = true
  /\ missedPings (session (step st (pong st))) < 3.
Proof.
  cbv zeta.
  destruct (keepalive_running_is_healthy
              (mkSession "ab" 0 RolePrimary 0 false 0 false false)
              [miss EOF; miss EOF;
               pong (run (start (mkSession "ab" 0 RolePrimary 0 false 0 false false))
                         [miss EOF; miss EOF])]
              eq_refl) as (Hr & _).
  split; [reflexivity |]. exact (Hr eq_refl).
Defined.

End KeepaliveRuns.

(** ** Session identifiers do not collide *)

Section SessionIdentifiersDistinct.
Import Wire Socks5Target SessionID.

Lemma hextable_NoDup : List.NoDup hextable.
Proof.
  unfold hextable. cbn [list_ascii_of_string].
  repeat (constructor; [cbn [In]; intuition discriminate |]).
  constructor.
Qed.

Lemma hexdigit_inj (x y : Z) :
  0 <= x < 16 -> 0 <= y < 16 -> hexdigit x = hexdigit y -> x = y.
Proof.
  intros Hx Hy H. unfold hexdigit in H.
  assert (Z.to_nat x = Z.to_nat y) as Hxy; [| lia].
  apply (proj1 (List.NoDup_nth hextable "0"%char) hextable_NoDup);
    [cbn; lia | cbn; lia | exact H].
Qed.

Lemma byte_nibbles (v : Z) :
  is_byte v ->
  0 <= Z.shiftr v 4 < 16 /\ 0 <= Z.land v 15 < 16
  /\ v = 16 * Z.shiftr v 4 + Z.land v 15.
Proof.
  unfold is_byte. intros Hv.
  rewrite Z.shiftr_div_pow2 by lia.
  change 15 with (Z.ones 4). rewrite Z.land_ones by lia.
  change (2 ^ 4) with 16.
  pose proof (Z.div_mod v 16 ltac:(lia)).
  pose proof (Z.mod_pos_bound v 16 ltac:(lia)).
  assert (0 <= v / 16 < 16)
    by (split; [apply Z.div_pos; lia | apply Z.div_lt_upper_bound; lia]).
  lia.
Qed.

Lemma EncodeToString_inj (a : list Z) : forall b : list Z,
  Forall is_byte a -> Forall is_byte b ->
  EncodeToString a = EncodeToString b -> a = b.
Proof.
  induction a as [| v a IH]; intros [| w b] Ha Hb H; cbn [EncodeToString] in H;
    try discriminate; [reflexivity |].
  injection H as Hhi Hlo Hrest.
  inversion Ha as [| ? ? Hv Ha']; subst. inversion Hb as [| ? ? Hw Hb']; subst.
  destruct (byte_nibbles v Hv) as (Hv1 & Hv2 & Hveq).
  destruct (byte_nibbles w Hw) as (Hw1 & Hw2 & Hweq).
  apply (hexdigit_inj _ _ Hv1 Hw1) in Hhi.
  apply (hexdigit_inj _ _ Hv2 Hw2) in Hlo.
  f_equal; [lia | apply IH; assumption].
Qed.

(** Two session identifiers made from random bytes are equal only if the
    random bytes were: the hexadecimal encoding loses nothing, so the
    identifiers collide no more often than the random source repeats
    itself, whatever the clock reads. *)
Theorem session_ids_differ (a b : list Z) (now1 now2 : Z) :
  Forall is_byte a -> Forall is_byte b ->
  (GenerateSessionID (RandOk a) now1 = GenerateSessionID (RandOk b) now2
   <-> a = b).
Proof.
  intros Ha Hb. cbn [GenerateSessionID]. split.
  - apply EncodeToString_inj; assumption.
  - intros ->. reflexivity.
Qed.

(** The same draw at two readings of the clock. *)
Lemma session_ids_differ_witness :
  GenerateSessionID (RandOk [222; 173; 190; 239; 202; 254; 186; 190]) 0
  = GenerateSessionID (RandOk [222; 173; 190; 239; 202; 254; 186; 190]) 5.
Proof.
  apply (proj2 (session_ids_differ
                  [222; 173; 190; 239; 202; 254; 186; 190]
                  [222; 173; 190; 239; 202; 254; 186; 190] 0 5
                  ltac:(repeat constructor; unfold is_byte; lia)
                  ltac:(repeat constructor; unfold is_byte; lia))).
  reflexivity.
Defined.

End SessionIdentifiersDistinct.

